(** * ProcessarXML.js: splitting a listing feed into batches

    A shallow embedding of [src/ProcessarXML.js] and the properties of its
    batching logic.

    Conventions of the model.
    - A JavaScript string is a [string]; one [ascii] stands for one code
      unit, so the model covers the texts whose code units are below 256.
    - A JavaScript number that holds an integer is a [Z]; [NaN] is kept
      apart in [JsNumber].
    - [process.env] and the objects used as dictionaries are [gmap]s.
    - The effects of the script (console, file system, network, terminal)
      are recorded as a list of [Event]s; what the outside world answers is
      read from a [World]. *)

From Stdlib Require Import ZArith Ascii String.
From stdpp Require Import gmap strings list.

Local Open Scope string_scope.
Local Open Scope Z_scope.
Local Open Scope list_scope.

(** ** JavaScript primitives used by the script *)

Module JS.

(** *** Characters *)

Definition code (c : ascii) : Z := Z.of_N (N_of_ascii c).

Definition inRange (lo hi : Z) (c : ascii) : bool :=
  (lo <=? code c) && (code c <=? hi).

(** [\w] of a regular expression without the [u] flag. *)
Definition isWordChar (c : ascii) : bool :=
  inRange 48 57 c || inRange 65 90 c || inRange 97 122 c || (code c =? 95).

(** White space and line terminators, as far as they lie below 256. *)
Definition isWhiteSpace (c : ascii) : bool :=
  inRange 9 13 c || (code c =? 32) || (code c =? 160).

Definition ofCode (n : Z) : ascii := ascii_of_N (Z.to_N n).

(** Canonicalisation of the [i] flag. Only the letters a-z change: a code
    unit above 127 never canonicalises to an ASCII letter, and the
    patterns of the script hold ASCII characters only. *)
Definition canonicalize (c : ascii) : ascii :=
  if inRange 97 122 c then ofCode (code c - 32) else c.

Definition eqCI (a b : ascii) : bool :=
  code (canonicalize a) =? code (canonicalize b).

(** One character of [String.prototype.toLowerCase]. *)
Definition lowerChar (c : ascii) : ascii :=
  if inRange 65 90 c then ofCode (code c + 32)
  else if inRange 192 222 c && negb (code c =? 215) then ofCode (code c + 32)
  else c.

(** *** Strings *)

Definition strlen (s : string) : Z := Z.of_nat (String.length s).

Fixpoint toLowerCase (s : string) : string :=
  match s with
  | EmptyString => EmptyString
  | String c s' => String (lowerChar c) (toLowerCase s')
  end.

Fixpoint trimStart (s : string) : string :=
  match s with
  | EmptyString => EmptyString
  | String c s' => if isWhiteSpace c then trimStart s' else s
  end.

(** [trimEnd] keeps a character when it is no white space or when
    something is kept after it. *)
Fixpoint trimEnd (s : string) : string :=
  match s with
  | EmptyString => EmptyString
  | String c s' =>
      match trimEnd s' with
      | EmptyString => if isWhiteSpace c then EmptyString else String c EmptyString
      | r => String c r
      end
  end.

Definition trim (s : string) : string := trimEnd (trimStart s).

(** Does [s] start with [p]? exactly, and up to the case of letters. *)
Fixpoint startsWith (p s : string) : bool :=
  match p, s with
  | EmptyString, _ => true
  | String a p', String b s' => (code a =? code b) && startsWith p' s'
  | String _ _, EmptyString => false
  end.

Fixpoint startsWithCI (p s : string) : bool :=
  match p, s with
  | EmptyString, _ => true
  | String a p', String b s' => eqCI a b && startsWithCI p' s'
  | String _ _, EmptyString => false
  end.

Fixpoint dropStr (n : nat) (s : string) : string :=
  match n, s with
  | O, _ => s
  | S n', String _ s' => dropStr n' s'
  | S _, EmptyString => EmptyString
  end.

Fixpoint takeStr (n : nat) (s : string) : string :=
  match n, s with
  | O, _ => EmptyString
  | S n', String c s' => String c (takeStr n' s')
  | S _, EmptyString => EmptyString
  end.

(** Offset of the first place of [s] where [test] holds of the rest. *)
Fixpoint findFirst (test : string -> bool) (s : string) : option nat :=
  if test s then Some O
  else match s with
       | EmptyString => None
       | String _ s' => S <$> findFirst test s'
       end.

Definition orMinusOne (o : option nat) : Z :=
  match o with Some k => Z.of_nat k | None => -1 end.

(** Clamp of a relative index, as [slice] does for strings and arrays. *)
Definition relIndex (len k : Z) : Z :=
  if k <? 0 then Z.max (len + k) 0 else Z.min k len.

(** [s.indexOf(p, from)] *)
Definition indexOfFrom (p : string) (from : Z) (s : string) : Z :=
  let start := Z.to_nat (Z.min (Z.max from 0) (strlen s)) in
  match findFirst (startsWith p) (dropStr start s) with
  | Some k => Z.of_nat (start + k)
  | None => -1
  end.

(** [s.indexOf(p)] *)
Definition indexOf (p : string) (s : string) : Z := indexOfFrom p 0 s.

(** [s.slice(a, b)] *)
Definition slice (s : string) (a b : Z) : string :=
  let from := relIndex (strlen s) a in
  let to := relIndex (strlen s) b in
  takeStr (Z.to_nat (Z.max (to - from) 0)) (dropStr (Z.to_nat from) s).

(** [s.slice(a)] *)
Definition sliceFrom (s : string) (a : Z) : string :=
  slice s a (strlen s).

(** [s.substring(a, b)] *)
Definition substring (s : string) (a b : Z) : string :=
  let a' := Z.min (Z.max a 0) (strlen s) in
  let b' := Z.min (Z.max b 0) (strlen s) in
  let from := Z.min a' b' in
  let to := Z.max a' b' in
  takeStr (Z.to_nat (to - from)) (dropStr (Z.to_nat from) s).

(** [s.padStart(n, c)] for a filler of one character. *)
Definition padStart (n : Z) (c : ascii) (s : string) : string :=
  String.concat "" (replicate (Z.to_nat (n - strlen s)) (String c "")) +:+ s.

(** [String(n)] of an integer: all its digits, as JavaScript writes an
    integer that a number holds exactly (below 2^53 in absolute value). *)
Definition digitChar (d : Z) : ascii := ofCode (48 + d).

Fixpoint posDigits (fuel : nat) (n : Z) (acc : string) : string :=
  match fuel with
  | O => acc
  | S fuel' =>
      let acc' := String (digitChar (n mod 10)) acc in
      if n / 10 =? 0 then acc' else posDigits fuel' (n / 10) acc'
  end.

Definition numberToString (n : Z) : string :=
  if n <? 0 then "-" +:+ posDigits (Z.to_nat (Z.abs n)) (Z.abs n) ""
  else posDigits (S (Z.to_nat n)) n "".

(** *** Arrays *)

(** [a.slice(i, j)] *)
Definition arraySlice {A} (a : list A) (i j : Z) : list A :=
  let len := Z.of_nat (length a) in
  let from := relIndex len i in
  let to := relIndex len j in
  firstn (Z.to_nat (Z.max (to - from) 0)) (skipn (Z.to_nat from) a).

(** [a.join(sep)] of an array of strings. *)
Fixpoint join (sep : string) (a : list string) : string :=
  match a with
  | [] => ""
  | [x] => x
  | x :: rest => x +:+ sep +:+ join sep rest
  end.

(** *** Numbers *)

Inductive JsNumber := NaN | Num (z : Z).

(** Value of a digit of [parseInt], for the letters too. *)
Definition digitValue (c : ascii) : option Z :=
  if inRange 48 57 c then Some (code c - 48)
  else if inRange 97 122 c then Some (code c - 87)
  else if inRange 65 90 c then Some (code c - 55)
  else None.

(** The longest prefix of digits below [radix], read from the left;
    [None] when there is no such digit. *)
Fixpoint readDigits (radix : Z) (s : string) (acc : option Z) : option Z :=
  match s with
  | EmptyString => acc
  | String c s' =>
      match digitValue c with
      | Some d =>
          if d <? radix
          then readDigits radix s' (Some (default 0 acc * radix + d))
          else acc
      | None => acc
      end
  end.

Definition toInt32 (z : Z) : Z := (z + 2 ^ 31) mod 2 ^ 32 - 2 ^ 31.

(** [parseInt(input, radix)]; [input] is [None] for [undefined], which
    is first turned into the text "undefined". The result is the
    mathematical value, which a JavaScript number holds exactly below
    2^53. *)
Definition parseInt (input : option string) (radix : Z) : JsNumber :=
  let s := trimStart (default "undefined" input) in
  let '(sign, s) :=
    match s with
    | String "-" s' => (-1, s')
    | String "+" s' => (1, s')
    | _ => (1, s)
    end in
  let r := toInt32 radix in
  if negb (r =? 0) && ((r <? 2) || (36 <? r)) then NaN
  else
    let hex := startsWithCI "0x" s in
    let '(r, s) :=
      if (r =? 0) && hex then (16, dropStr 2 s)
      else if (r =? 16) && hex then (16, dropStr 2 s)
      else if r =? 0 then (10, s)
      else (r, s) in
    match readDigits r s None with
    | None => NaN
    | Some v => Num (sign * v)
    end.

(** [x || d] for a number [x]: [NaN] and zero are falsy. *)
Definition orElse (x : JsNumber) (d : Z) : Z :=
  match x with
  | NaN => d
  | Num z => if z =? 0 then d else z
  end.

(** Truthiness of a value that is [undefined] or a string. *)
Definition truthy (o : option string) : bool :=
  match o with
  | Some (String _ _) => true
  | _ => false
  end.

End JS.

(** ** The regular expressions of the script *)

Module Regex.
Import JS.

(** A pattern is given by its match at the start of a text: the length
    of the match, if there is one. The three patterns of the script have
    at most one match at a given place: [[^>]*] followed by [>] can only
    stop at the first [>], and the lazy [[\s\S]*?] followed by a literal
    stops at the nearest occurrence of that literal. *)
Definition Pattern : Type := string -> option nat.

(** [\b] after a word character. *)
Definition boundaryAfterWord (s : string) : bool :=
  match s with
  | EmptyString => true
  | String c _ => negb (isWordChar c)
  end.

(** [/<name\b[^>]*>/i], for a [name] that ends in a word character. *)
Definition openTag (name : string) : Pattern := fun s =>
  let lt := "<" +:+ name in
  let rest := dropStr (String.length lt) s in
  if startsWithCI lt s && boundaryAfterWord rest
  then (fun k => String.length lt + k + 1)%nat <$> findFirst (startsWith ">") rest
  else None.

(** [/<\/Listings>/i] *)
Definition closeListings : Pattern := fun s =>
  if startsWithCI "</Listings>" s then Some 11%nat else None.

(** [/<Listing\b[^>]*>[\s\S]*?<\/Listing>/i] *)
Definition listingRegex : Pattern := fun s =>
  match openTag "Listing" s with
  | Some m =>
      (fun k => m + k + 10)%nat <$> findFirst (startsWithCI "</Listing>") (dropStr m s)
  | None => None
  end.

Definition matchesAt (rx : Pattern) (s : string) : bool :=
  match rx s with Some _ => true | None => false end.

(** The successive matches of a pattern with the [g] flag, each with its
    index: after a match the search goes on where the match ended
    ([skip] counts the characters of the last match still to pass); an
    empty match moves one character on. [pos] is the index of the start
    of [s] in the whole text. *)
Fixpoint execAll (rx : Pattern) (s : string) (pos : nat) (skip : nat)
  : list (nat * string) :=
  match s with
  | EmptyString => []
  | String _ s' =>
      match skip with
      | S k => execAll rx s' (S pos) k
      | O =>
          match rx s with
          | Some m => (pos, takeStr m s) :: execAll rx s' (S pos) (pred m)
          | None => execAll rx s' (S pos) O
          end
      end
  end.

(** [text.match(rx) || []] for a pattern with the [g] flag. *)
Definition matchAll (rx : Pattern) (text : string) : list string :=
  (execAll rx text 0 0).*2.

(** [text.match(rx)] without the [g] flag, as a truth value. *)
Definition test (rx : Pattern) (text : string) : bool :=
  match findFirst (matchesAt rx) text with Some _ => true | None => false end.

(** [text.search(rx)] *)
Definition search (rx : Pattern) (text : string) : Z :=
  orMinusOne (findFirst (matchesAt rx) text).

End Regex.

(** ** The world of the script: values, events and oracles *)

Import JS Regex.

(** The line feed that the script writes as a backslash followed by n. *)
Definition nl : string := String (ofCode 10) EmptyString.

(** A path as the list of the segments given to [path.join]. *)
Definition Path : Type := list string.

Definition pathJoin (p : Path) (segment : string) : Path := p ++ [segment].

(** An error object: [err.message], [err.stack] and, for a request that
    was answered, [err.response.data]. *)
Record JsError := {
  message : string;
  stack : string;
  responseData : option string
}.

Definition Error (msg : string) : JsError :=
  {| message := msg; stack := EmptyString; responseData := None |}.

(** [res.data] of a response: an object or something else. *)
Inductive ResponseData :=
| DataObject (json : string)
| DataOther (text : string).

(** [typeof data === 'object' ? JSON.stringify(data) : String(data)];
    the object is kept in its serialised form. *)
Definition showData (d : ResponseData) : string :=
  match d with
  | DataObject json => json
  | DataOther text => text
  end.

(** The body of a submission: [{ xmlData, batchSize? }]. *)
Record Payload := {
  xmlData : string;
  batchSize : option JsNumber
}.

(** [err.response?.data || err.message || err] *)
Inductive ErrDetail :=
| DetailData (d : string)
| DetailMessage (m : string)
| DetailError (e : JsError).

Definition errDetail (err : JsError) : ErrDetail :=
  if truthy (responseData err) then DetailData (default EmptyString (responseData err))
  else if truthy (Some (message err)) then DetailMessage (message err)
  else DetailError err.

(** The texts written to the console and the prompt, with the values that
    the script puts into them. *)
Inductive Msg :=
| MsgObtaining (url : option string)
| MsgDownloading (url : option string)
| MsgNoListing
| MsgPreview (head : string)
| MsgFound (count : Z)
| MsgFallback
| MsgSaved (loteIndex : Z) (fileName : Path) (batchCount startIdx endIdx : Z)
| MsgConfirm (loteIndex batchCount startIdx endIdx : Z) (api : option string)
| MsgSending (loteIndex : Z)
| MsgSent (loteIndex : Z) (response : string)
| MsgSendError (loteIndex : Z) (detail : ErrDetail)
| MsgSkipped (loteIndex : Z)
| MsgAllDone
| MsgFatal (detail : ErrDetail)
| MsgStack (stack : string).

(** What the script does to the outside. The two requests carry the value
    that [process.env.NODE_TLS_REJECT_UNAUTHORIZED] has when they are made. *)
Inductive Event :=
| ConsoleLog (m : Msg)
| ConsoleWarn (m : Msg)
| ConsoleError (m : Msg)
| AxiosGet (url : option string) (userAgent : string) (tls : option string)
| MkdirSync (p : Path)
| WriteFileSync (p : Path) (data : string)
| CreateInterface
| Question (prompt : Msg)
| CloseInterface
| AxiosPost (url : option string) (payload : Payload)
    (headers : gmap string string) (timeout : Z) (tls : option string).

(** What the outside answers. *)
Record World := {
  (** [process.env] once [dotenv] has been loaded *)
  env : gmap string string;
  (** [process.cwd()] *)
  cwd : string;
  (** the text of a path that is an existing regular file, or the error of
      reading it; [None] when there is no such file *)
  readFile : option string -> option (JsError + string);
  (** the body of the download, or its error *)
  httpGet : option string -> JsError + string;
  (** [fs.existsSync] of a directory *)
  dirExists : Path -> bool;
  (** the error of [fs.mkdirSync], if it throws *)
  mkdirError : Path -> option JsError;
  (** the error of [fs.writeFileSync], if it throws *)
  writeError : Path -> string -> option JsError;
  (** the line that the operator types at the prompt of a batch *)
  typed : Z -> option string;
  (** what the submission of a batch comes to *)
  httpPost : Z -> JsError + ResponseData
}.

(** ** Effects: a trace of events and a thrown error *)

Definition M (A : Type) : Type := list Event * (JsError + A).

Definition ret {A} (a : A) : M A := ([], inr a).

Definition throw {A} (e : JsError) : M A := ([], inl e).

Definition bind {A B} (k : A -> M B) (m : M A) : M B :=
  match m with
  | (t, inl e) => (t, inl e)
  | (t, inr a) => let '(t', r) := k a in (t ++ t', r)
  end.

#[global] Instance M_ret : MRet M := @ret.
#[global] Instance M_bind : MBind M := @bind.

Definition tryCatch {A} (m : M A) (handler : JsError -> M A) : M A :=
  match m with
  | (t, inl e) => let '(t', r) := handler e in (t ++ t', r)
  | (t, inr a) => (t, inr a)
  end.

Definition emit (e : Event) : M unit := ([e], inr tt).

Definition trace {A} (m : M A) : list Event := m.1.
Definition result {A} (m : M A) : JsError + A := m.2.

(** Calls that may throw: the event, then the answer of the world. *)
Definition call {A} (e : Event) (answer : JsError + A) : M A :=
  emit e;; match answer with inl err => throw err | inr a => ret a end.

Definition orThrow (e : Event) (failure : option JsError) : M unit :=
  call e (match failure with Some err => inl err | None => inr tt end).

(** ** The script *)

(** The constants of lines 19 to 29. *)
Record Config := {
  XML_URL : option string;
  API_URL : option string;
  API_KEY : option string;
  BATCH_SIZE : Z;
  PROCESSING_BATCH_SIZE : option JsNumber;
  OUTPUT_DIR : Path
}.

Definition tlsKey : string := "NODE_TLS_REJECT_UNAUTHORIZED".

(** The text of the error of line 54; the letter after "inv" is the a
    with an acute accent, code unit 225. *)
Definition emptyXmlMessage : string :=
  "XML vazio ou inv" +:+ String (ofCode 225) "lido.".

(** How the script ends: line 142 is reached, line 64 returns, the handler
    of line 143 has run, or the loop has not ended within the fuel. *)
Inductive Ending :=
| Completed
| NoRecordsFound
| Fatal (err : JsError)
| StillRunning.

Inductive LoopState := LoopDone | LoopRunning.

(** Line 110. *)
Definition batchXmlOf (headerSection footerSection : string)
    (batchMatches : list string) : string :=
  headerSection +:+ nl +:+ join nl batchMatches +:+ nl +:+ footerSection.

(** Line 113. *)
Definition fileNameOf (outputDir : Path) (loteIndex : Z) : Path :=
  pathJoin outputDir
    ("lote_" +:+ padStart 3 "0" (numberToString loteIndex) +:+ ".xml").

(** The condition of line 120. *)
Definition confirmed (answer : string) : bool :=
  bool_decide (answer = "s") || bool_decide (answer = "sim").

(** [err.message || err] of line 144. *)
Definition fatalDetail (err : JsError) : ErrDetail :=
  if truthy (Some (message err)) then DetailMessage (message err)
  else DetailError err.

Section Script.

(** The outside, the constants, and [process.env] as it is while [main]
    runs. *)
Variable w : World.
Variable cfg : Config.
Variable penv : gmap string string.

(** Lines 32 to 36. The prompt of a batch is answered by the line that
    the world holds for that batch. *)
Definition askQuestion (loteIndex : Z) (question : Msg) : M string :=
  emit (Question question);;
  mret (toLowerCase (trim (default EmptyString (typed w loteIndex)))).

(** Lines 38 to 47. *)
Definition fetchXmlText (urlOrPath : option string) : M string :=
  match readFile w urlOrPath with
  | Some (inr text) => mret text
  | Some (inl err) => throw err
  | None =>
      emit (ConsoleLog (MsgDownloading urlOrPath));;
      call (AxiosGet urlOrPath "PropertyBatcher/1.0" (penv !! tlsKey))
           (httpGet w urlOrPath)
  end.

(** Lines 70 to 92: the header and the footer of every batch. The array
    of matches is not empty here. *)
Definition wrapperSections (xmlText : string) (listingMatches : list string)
  : M (string * string) :=
  let openListingsMatch := test (openTag "Listings") xmlText in
  let closeListingsMatch := test closeListings xmlText in
  if openListingsMatch && closeListingsMatch then
    let openIdx := search (openTag "Listings") xmlText in
    let openEndIdx := indexOfFrom ">" openIdx xmlText + 1 in
    let closeIdx := search closeListings xmlText in
    mret (slice xmlText 0 openEndIdx, sliceFrom xmlText closeIdx)
  else
    emit (ConsoleWarn MsgFallback);;
    let firstMatch := default EmptyString (head listingMatches) in
    let lastMatch := default EmptyString (last listingMatches) in
    let firstListingIdx := indexOf firstMatch xmlText in
    let lastListingIdx := indexOf lastMatch xmlText + strlen lastMatch in
    let before := slice xmlText 0 firstListingIdx in
    let after := sliceFrom xmlText lastListingIdx in
    mret (before +:+ "<Listings>", "</Listings>" +:+ after).

(** Lines 123 to 130: one submission. *)
Definition send (loteIndex : Z) (batchXml : string) : M unit :=
  let payload :=
    {| xmlData := batchXml; batchSize := PROCESSING_BATCH_SIZE cfg |} in
  let headers : gmap string string :=
    {[ "Content-Type" := "application/json" ]} in
  let headers :=
    if truthy (API_KEY cfg)
    then <[ "Authorization" :=
              "Bearer " +:+ default EmptyString (API_KEY cfg) ]> headers
    else headers in
  res ← call (AxiosPost (API_URL cfg) payload headers 120000 (penv !! tlsKey))
             (httpPost w loteIndex);
  emit (ConsoleLog (MsgSent loteIndex (showData res))).

Section Batches.

Variable listingMatches : list string.
Variables headerSection footerSection : string.

(** Lines 105 to 137: what is done with the records of one batch. *)
Definition processBatch (batchMatches : list string) (i loteIndex : Z)
  : M unit :=
  let batchCount := Z.of_nat (length batchMatches) in
  let startIdx := i + 1 in
  let endIdx := i + batchCount in
  let batchXml := batchXmlOf headerSection footerSection batchMatches in
  let fileName := fileNameOf (OUTPUT_DIR cfg) loteIndex in
  orThrow (WriteFileSync fileName batchXml) (writeError w fileName batchXml);;
  emit (ConsoleLog (MsgSaved loteIndex fileName batchCount startIdx endIdx));;
  answer ← askQuestion loteIndex
             (MsgConfirm loteIndex batchCount startIdx endIdx (API_URL cfg));
  if confirmed answer then
    emit (ConsoleLog (MsgSending loteIndex));;
    tryCatch (send loteIndex batchXml)
      (fun err => emit (ConsoleError (MsgSendError loteIndex (errDetail err))))
  else
    emit (ConsoleLog (MsgSkipped loteIndex)).

(** Lines 104 to 138: the body of the loop. *)
Definition iteration (i loteIndex : Z) : M unit :=
  let batchMatches := arraySlice listingMatches i (i + BATCH_SIZE cfg) in
  processBatch batchMatches i loteIndex.

(** Lines 103 to 139. The loop of the script has no bound of its own:
    [fuel] bounds the number of times the condition is tested. *)
Fixpoint batchLoop (fuel : nat) (i loteIndex : Z) : M LoopState :=
  match fuel with
  | O => mret LoopRunning
  | S fuel' =>
      if i <? Z.of_nat (length listingMatches) then
        iteration i loteIndex;;
        batchLoop fuel' (i + BATCH_SIZE cfg) (loteIndex + 1)
      else mret LoopDone
  end.

End Batches.

(** Lines 52 to 142: the body of the [try]. *)
Definition mainBody (fuel : nat) : M Ending :=
  emit (ConsoleLog (MsgObtaining (XML_URL cfg)));;
  xmlText ← fetchXmlText (XML_URL cfg);
  if negb (truthy (Some xmlText)) then throw (Error emptyXmlMessage)
  else
    let listingMatches := matchAll listingRegex xmlText in
    if Z.of_nat (length listingMatches) =? 0 then
      emit (ConsoleError MsgNoListing);;
      emit (ConsoleLog (MsgPreview (substring xmlText 0 500)));;
      mret NoRecordsFound
    else
      emit (ConsoleLog (MsgFound (Z.of_nat (length listingMatches))));;
      sections ← wrapperSections xmlText listingMatches;
      (if dirExists w (OUTPUT_DIR cfg) then mret tt
       else orThrow (MkdirSync (OUTPUT_DIR cfg)) (mkdirError w (OUTPUT_DIR cfg)));;
      emit CreateInterface;;
      state ← batchLoop listingMatches sections.1 sections.2 fuel 0 1;
      match state with
      | LoopRunning => mret StillRunning
      | LoopDone =>
          emit CloseInterface;;
          emit (ConsoleLog MsgAllDone);;
          mret Completed
      end.

(** Lines 49 to 147. *)
Definition main (fuel : nat) : M Ending :=
  tryCatch (mainBody fuel)
    (fun err =>
       emit (ConsoleError (MsgFatal (fatalDetail err)));;
       emit (ConsoleError (MsgStack (stack err)));;
       mret (Fatal err)).

End Script.

(** Lines 19 to 29: the constants, read from the environment. *)
Definition loadConfig (w : World) : Config :=
  {| XML_URL := env w !! "XML_URL";
     API_URL := env w !! "API_URL";
     API_KEY := env w !! "API_KEY";
     BATCH_SIZE := orElse (parseInt (env w !! "BATCH_SIZE") 100) 130;
     PROCESSING_BATCH_SIZE :=
       if truthy (env w !! "PROCESSING_BATCH_SIZE")
       then Some (parseInt (env w !! "PROCESSING_BATCH_SIZE") 10)
       else None;
     OUTPUT_DIR := pathJoin [cwd w] "lotes" |}.

(** Line 30. *)
Definition setTlsOff (e : gmap string string) : gmap string string :=
  <[ tlsKey := "0" ]> e.

(** The whole script: the constants are read, line 30 changes
    [process.env], and [main] runs. *)
Definition script (w : World) (fuel : nat) : M Ending :=
  let cfg := loadConfig w in
  let penv := setTlsOff (env w) in
  main w cfg penv fuel.

(** ** What a trace shows *)

(** The files written, the prompts shown and the batches submitted, in
    the order of the trace. *)
Definition fileOf (e : Event) : option (Path * string) :=
  match e with WriteFileSync p data => Some (p, data) | _ => None end.

Definition promptOf (e : Event) : option Msg :=
  match e with Question q => Some q | _ => None end.

Definition postOf (e : Event) : option string :=
  match e with AxiosPost _ payload _ _ _ => Some (xmlData payload) | _ => None end.

Definition skipOf (e : Event) : option Z :=
  match e with ConsoleLog (MsgSkipped k) => Some k | _ => None end.

Definition sendErrorOf (e : Event) : option (Z * ErrDetail) :=
  match e with ConsoleError (MsgSendError k d) => Some (k, d) | _ => None end.

Definition filesWritten (t : list Event) : list (Path * string) := omap fileOf t.
Definition prompts (t : list Event) : list Msg := omap promptOf t.
Definition posts (t : list Event) : list string := omap postOf t.
Definition skips (t : list Event) : list Z := omap skipOf t.
Definition sendErrors (t : list Event) : list (Z * ErrDetail) := omap sendErrorOf t.

(** The TLS setting under which a request was made; [None] for an event
    that is no request. *)
Definition requestTls (e : Event) : option (option string) :=
  match e with
  | AxiosGet _ _ tls => Some tls
  | AxiosPost _ _ _ _ tls => Some tls
  | _ => None
  end.

(** A request made under the TLS setting [v]; events that are no
    requests pass. *)
Definition madeUnder (v : option string) (e : Event) : Prop :=
  forall tls, requestTls e = Some tls -> tls = v.

Definition isRequest (e : Event) : bool :=
  match requestTls e with Some _ => true | None => false end.

(** A test that looks at the first [width] characters only. *)
Definition localTest (width : nat) (test : string -> bool) : Prop :=
  forall y x, (width <= String.length y)%nat -> test (y +:+ x) = test y.

(** ** The partition that the loop is compared with *)

(** Running a body over a list, one element after the other. *)
Fixpoint forEach {A} (xs : list A) (body : A -> M unit) : M unit :=
  match xs with
  | [] => mret tt
  | x :: rest => body x;; forEach rest body
  end.

(** The number of groups, ceil(N/B), and the group of number [g] (from 0)
    of a sequence of records cut every [B] records. *)
Definition groupCount (B : Z) (records : list string) : nat :=
  Z.to_nat ((Z.of_nat (length records) + B - 1) / B).

Definition groupAt (B : Z) (records : list string) (g : nat) : list string :=
  arraySlice records (Z.of_nat g * B) (Z.of_nat g * B + B).

Definition groups (B : Z) (records : list string) : list (list string) :=
  groupAt B records <$> seq 0 (groupCount B records).

(** What the loop does with the group of number [g]: the offset is
    [g * B] and the index is [g + 1]. *)
Definition batchStep (w : World) (cfg : Config) (penv : gmap string string)
    (records : list string) (headerSection footerSection : string) (g : nat)
  : M unit :=
  processBatch w cfg penv headerSection footerSection
    (groupAt (BATCH_SIZE cfg) records g)
    (Z.of_nat g * BATCH_SIZE cfg) (Z.of_nat g + 1).

(** The answer that [askQuestion] resolves to at the prompt of a batch. *)
Definition answerTo (w : World) (loteIndex : Z) : string :=
  toLowerCase (trim (default EmptyString (typed w loteIndex))).

(** ** Taking a batch apart again *)

(** [text.split(sep)] for a separator of one character. *)
Fixpoint splitOn (sep : ascii) (text : string) : list string :=
  match text with
  | EmptyString => [EmptyString]
  | String c rest =>
      if code c =? code sep then EmptyString :: splitOn sep rest
      else match splitOn sep rest with
           | piece :: pieces => String c piece :: pieces
           | [] => [String c EmptyString]
           end
  end.

(** The text of a batch without the header and its line feed in front and
    without the line feed and the footer at the end. *)
Definition stripWrapper (headerSection footerSection text : string) : string :=
  let front := String.length (headerSection +:+ nl) in
  let back := String.length (nl +:+ footerSection) in
  takeStr (String.length text - front - back)%nat (dropStr front text).

(** The records read back from the text of a batch. *)
Definition recoverRecords (headerSection footerSection text : string)
  : list string :=
  splitOn (ofCode 10) (stripWrapper headerSection footerSection text).

Fixpoint hasLineFeed (s : string) : bool :=
  match s with
  | EmptyString => false
  | String c rest => (code c =? 10) || hasLineFeed rest
  end.

(** ** A small run, used to try the statements *)

Definition demoFeed : string :=
  "<Listings ver='1'><Listing>A</Listing><Listing>B</Listing><Listing>C</Listing></Listings>".

Definition demoRecords : list string :=
  ["<Listing>A</Listing>"; "<Listing>B</Listing>"; "<Listing>C</Listing>"].

(** The feed is a local file, every file can be written, the operator
    accepts the first batch only, and the destination is unreachable. *)
Definition demoWorld : World :=
  {| env := {[ "XML_URL" := "feed.xml"; "API_URL" := "https://api.test/import";
               "BATCH_SIZE" := "150" ]};
     cwd := "/srv";
     readFile := fun _ => Some (inr demoFeed);
     httpGet := fun _ => inl (Error "ENOTFOUND");
     dirExists := fun _ => false;
     mkdirError := fun _ => None;
     writeError := fun _ _ => None;
     typed := fun k => if k =? 1 then Some " Sim " else Some "n";
     httpPost := fun _ => inl (Error "ECONNREFUSED") |}.

(** A feed with a line feed inside its only record. *)
Definition feedWithLineFeed : string :=
  "<Listings><Listing>" +:+ nl +:+ "A</Listing></Listings>".

(** A feed without the container, whose last record repeats the first. *)
Definition feedWithRepeat : string :=
  "<feed><Listing>A</Listing><Listing>B</Listing><Listing>A</Listing></feed>".

Definition demoConfig : Config :=
  {| XML_URL := Some "feed.xml";
     API_URL := Some "https://api.test/import";
     API_KEY := None;
     BATCH_SIZE := 2;
     PROCESSING_BATCH_SIZE := None;
     OUTPUT_DIR := ["/srv"; "lotes"] |}.

(** ** Further readings of a trace and of a run *)

(** The index, the number of records and the range of indices that line
    115 logs for a batch. *)
Definition savedOf (e : Event) : option (Z * Z * Z * Z) :=
  match e with
  | ConsoleLog (MsgSaved k _ count first final) => Some (k, count, first, final)
  | _ => None
  end.

Definition saved (t : list Event) : list (Z * Z * Z * Z) := omap savedOf t.

(** A submission as line 129 makes it. *)
Record Submission := {
  toUrl : option string;
  body : Payload;
  withHeaders : gmap string string;
  within : Z
}.

Definition submissionOf (e : Event) : option Submission :=
  match e with
  | AxiosPost url payload headers timeout _ =>
      Some {| toUrl := url; body := payload; withHeaders := headers;
              within := timeout |}
  | _ => None
  end.

Definition submissions (t : list Event) : list Submission := omap submissionOf t.

Definition downloadOf (e : Event) : option (option string * string) :=
  match e with AxiosGet url agent _ => Some (url, agent) | _ => None end.

Definition downloads (t : list Event) : list (option string * string) :=
  omap downloadOf t.

Definition closes (t : list Event) : list unit :=
  omap (fun e => match e with CloseInterface => Some tt | _ => None end) t.

Definition warnings (t : list Event) : list Msg :=
  omap (fun e => match e with ConsoleWarn m => Some m | _ => None end) t.

(** The header and the footer that lines 70 to 92 compute. *)
Definition sectionsOf (xmlText : string) (listingMatches : list string)
  : string * string :=
  match result (wrapperSections xmlText listingMatches) with
  | inr sections => sections
  | inl _ => (EmptyString, EmptyString)
  end.

(** Line 95. *)
Definition prepareDir (w : World) (cfg : Config) : M unit :=
  if dirExists w (OUTPUT_DIR cfg) then mret tt
  else orThrow (MkdirSync (OUTPUT_DIR cfg)) (mkdirError w (OUTPUT_DIR cfg)).

(** The number of records of the feed that the world delivers, zero when
    it delivers none. *)
Definition recordsFetched (w : World) (cfg : Config) (penv : gmap string string)
  : nat :=
  match result (fetchXmlText w penv (XML_URL cfg)) with
  | inr xmlText => length (matchAll listingRegex xmlText)
  | inl _ => 0%nat
  end.

(** What follows the loop in [main]: lines 141 and 142 when the loop has
    ended, nothing when it threw or is still running. *)
Definition afterLoop (r : JsError + LoopState) : list Event * (JsError + Ending) :=
  match r with
  | inl err => ([], inl err)
  | inr LoopRunning => ([], inr StillRunning)
  | inr LoopDone => ([CloseInterface; ConsoleLog MsgAllDone], inr Completed)
  end.

(** The handler of lines 143 to 146, applied to the outcome of the body. *)
Definition caught (r : JsError + Ending) : list Event * (JsError + Ending) :=
  match r with
  | inl err =>
      ([ConsoleError (MsgFatal (fatalDetail err)); ConsoleError (MsgStack (stack err))],
       inr (Fatal err))
  | inr ending => ([], inr ending)
  end.

(** The events that come before the loop: the messages of loading, the
    download, the warning of the fallback and the making of the
    directory. *)
Definition isSetup (e : Event) : bool :=
  match e with
  | ConsoleLog (MsgObtaining _) | ConsoleLog (MsgDownloading _)
  | ConsoleLog (MsgFound _) | ConsoleWarn _ | AxiosGet _ _ _ | MkdirSync _ => true
  | _ => false
  end.

(** The small run on a disk that takes the first file only. *)
Definition fullDiskWorld : World :=
  {| env := env demoWorld;
     cwd := cwd demoWorld;
     readFile := readFile demoWorld;
     httpGet := httpGet demoWorld;
     dirExists := dirExists demoWorld;
     mkdirError := mkdirError demoWorld;
     writeError := fun p _ =>
       if bool_decide (p = ["/srv"; "lotes"; "lote_001.xml"]) then None
       else Some (Error "ENOSPC");
     typed := typed demoWorld;
     httpPost := httpPost demoWorld |}.

(** The small run with a source that is no file and cannot be reached. *)
Definition offlineWorld : World :=
  {| env := env demoWorld;
     cwd := cwd demoWorld;
     readFile := fun _ => None;
     httpGet := httpGet demoWorld;
     dirExists := dirExists demoWorld;
     mkdirError := mkdirError demoWorld;
     writeError := writeError demoWorld;
     typed := typed demoWorld;
     httpPost := httpPost demoWorld |}.

(** The error with which a feed that was not loaded, or is empty, ends the
    body of [main] (lines 53 and 54); [None] for a feed that can be used. *)
Definition sourceError (r : JsError + string) : option JsError :=
  match r with
  | inl err => Some err
  | inr EmptyString => Some (Error emptyXmlMessage)
  | inr (String _ _) => None
  end.

(** The small run with a hint of 5 for the destination. *)
Definition hintWorld : World :=
  {| env := <[ "PROCESSING_BATCH_SIZE" := "5" ]> (env demoWorld);
     cwd := cwd demoWorld;
     readFile := readFile demoWorld;
     httpGet := httpGet demoWorld;
     dirExists := dirExists demoWorld;
     mkdirError := mkdirError demoWorld;
     writeError := writeError demoWorld;
     typed := typed demoWorld;
     httpPost := httpPost demoWorld |}.

(** A submission as lines 123 to 129 build it from the constants. *)
Definition wellFormedSubmission (cfg : Config) (s : Submission) : Prop :=
  toUrl s = API_URL cfg
  /\ within s = 120000
  /\ batchSize (body s) = PROCESSING_BATCH_SIZE cfg
  /\ withHeaders s !! "Content-Type" = Some "application/json"
  /\ withHeaders s !! "Authorization"
     = (if truthy (API_KEY cfg)
        then Some ("Bearer " +:+ default EmptyString (API_KEY cfg))
        else None).

(** Every submission of a trace is well formed, and it carries the text of
    the file that was written last before it, a write that the world
    accepted. *)
Definition submitsWhatItWrote (w : World) (cfg : Config) (t : list Event) : Prop :=
  forall before e after s,
    t = before ++ e :: after ->
    submissionOf e = Some s ->
    wellFormedSubmission cfg s
    /\ exists p, last (filesWritten before) = Some (p, xmlData (body s))
                 /\ writeError w p (xmlData (body s)) = None.

(** Matches that follow one another without overlap, the first one at
    [bound] or after it. *)
Fixpoint inOrderFrom (bound : nat) (found : list (nat * string)) : Prop :=
  match found with
  | [] => True
  | (p, m) :: rest =>
      (bound <= p)%nat /\ inOrderFrom (p + String.length m) rest
  end.

(** No character of a pattern canonicalises to the sign [>]. *)
Fixpoint avoidsGt (pattern : string) : bool :=
  match pattern with
  | EmptyString => true
  | String a rest => negb (code (canonicalize a) =? 62) && avoidsGt rest
  end.

(** A text in which nothing but white space stands. *)
Fixpoint allWhiteSpace (s : string) : bool :=
  match s with
  | EmptyString => true
  | String c rest => isWhiteSpace c && allWhiteSpace rest
  end.

(** A place where a record may start: the opening of a record tag, in any
    case of letters, and no word character after it. *)
Definition recordStartAt (t : string) : bool :=
  startsWithCI "<Listing" t && boundaryAfterWord (dropStr 8 t).

Definition hasRecordStart (s : string) : bool :=
  match findFirst recordStartAt s with Some _ => true | None => false end.

(** Some character of the pattern matches [c] up to the case of letters. *)
Fixpoint mentionsCI (c : ascii) (pattern : string) : bool :=
  match pattern with
  | EmptyString => false
  | String a rest => eqCI a c || mentionsCI c rest
  end.

(** The directories that a run asks to be made (line 95). *)
Definition mkdirOf (e : Event) : option Path :=
  match e with MkdirSync p => Some p | _ => None end.

Definition mkdirs (t : list Event) : list Path := omap mkdirOf t.

(** The small run where the directory of the batches cannot be made. *)
Definition lockedWorld : World :=
  {| env := env demoWorld;
     cwd := cwd demoWorld;
     readFile := readFile demoWorld;
     httpGet := httpGet demoWorld;
     dirExists := dirExists demoWorld;
     mkdirError := fun _ => Some (Error "EACCES");
     writeError := writeError demoWorld;
     typed := typed demoWorld;
     httpPost := httpPost demoWorld |}.



(** [Number.MAX_SAFE_INTEGER]: up to it, in absolute value, a JavaScript
    number holds every integer exactly, and [String] writes all its
    digits. *)
Definition maxSafeInteger : Z := 2 ^ 53 - 1.

(** A reading of the events that sees nothing of the setup, of the
    messages and of the interface. *)
Definition seesBatchesOnly {A} (f : Event -> option A) : Prop :=
  (forall e, isSetup e = true -> f e = None)
  /\ f CreateInterface = None
  /\ f CloseInterface = None
  /\ (forall m, f (ConsoleError m) = None)
  /\ (forall m, f (ConsoleLog m) = None).

(** * Properties *)

(** ** The effect monad *)

Lemma bind_unfold {A B} (m : M A) (k : A -> M B) :
  m ≫= k =
  match m with
  | (t, inl e) => (t, inl e)
  | (t, inr a) => ((t ++ (k a).1), (k a).2)
  end.
Proof.
  destruct m as [t [e|a]]; [reflexivity|].
  unfold mbind, M_bind, bind. by destruct (k a).
Qed.

Lemma bind_assoc {A B C} (m : M A) (k : A -> M B) (h : B -> M C) :
  (m ≫= k) ≫= h = m ≫= (fun a => k a ≫= h).
Proof.
  rewrite !bind_unfold. destruct m as [t [e|a]]; [reflexivity|].
  rewrite !bind_unfold. destruct (k a) as [t' [e|b]]; simpl; [reflexivity|].
  by rewrite app_assoc.
Qed.

Lemma bind_emit {B} (e : Event) (k : unit -> M B) :
  emit e ≫= k = (e :: (k tt).1, (k tt).2).
Proof. by rewrite bind_unfold. Qed.

Lemma forEach_run {A} (xs : list A) (body : A -> M unit) (tr : A -> list Event) :
  (forall x, x ∈ xs -> body x = (tr x, inr tt)) ->
  forEach xs body = (concat (tr <$> xs), inr tt).
Proof.
  induction xs as [|x xs IH]; intros Hbody; [reflexivity|].
  simpl. rewrite bind_unfold, (Hbody x) by constructor.
  rewrite IH; [reflexivity|].
  intros y Hy. apply Hbody. by constructor.
Qed.

Lemma omap_concat_fmap {A B C} (f : B -> option C) (tr : A -> list B) (xs : list A) :
  omap f (concat (tr <$> xs)) = concat ((fun x => omap f (tr x)) <$> xs).
Proof.
  induction xs as [|x xs IH]; [reflexivity|].
  by rewrite !fmap_cons, !concat_cons, omap_app, IH.
Qed.

Lemma concat_singletons {A B} (f : A -> B) (xs : list A) :
  concat ((fun x => [f x]) <$> xs) = f <$> xs.
Proof.
  induction xs as [|x xs IH]; [reflexivity|].
  by rewrite !fmap_cons, concat_cons, IH.
Qed.

(** ** Slices and groups *)

Lemma arraySlice_window {A} (l : list A) (i B : Z) :
  0 <= i -> 0 < B ->
  arraySlice l i (i + B) = firstn (Z.to_nat B) (skipn (Z.to_nat i) l).
Proof.
  intros Hi HB. unfold arraySlice, relIndex.
  destruct (Z.ltb_spec i 0) as [?|_]; [lia|].
  destruct (Z.ltb_spec (i + B) 0) as [?|_]; [lia|].
  set (len := Z.of_nat (length l)).
  destruct (Z.le_gt_cases len i) as [Hge|Hlt].
  - rewrite !skipn_all2 by lia. by rewrite !firstn_nil.
  - rewrite (Z.min_l i len) by lia.
    destruct (Z.le_gt_cases len (i + B)) as [Hge'|Hlt'].
    + rewrite (Z.min_r (i + B) len) by lia.
      rewrite !firstn_all2; [reflexivity| |]; rewrite length_skipn; lia.
    + rewrite (Z.min_l (i + B) len) by lia. f_equal. lia.
Qed.

Lemma groupAt_window (B : Z) (records : list string) (g : nat) :
  0 < B ->
  groupAt B records g =
  firstn (Z.to_nat B) (skipn (g * Z.to_nat B) records).
Proof.
  intros HB. unfold groupAt. rewrite arraySlice_window by lia.
  do 2 f_equal. lia.
Qed.

(** The quotient [ceil(N/B)] between its two bounds. *)
Lemma groupCount_bounds (B : Z) (records : list string) :
  0 < B ->
  let n := Z.of_nat (groupCount B records) in
  let N := Z.of_nat (length records) in
  N <= n * B /\ (0 < N -> (n - 1) * B < N) /\ (N = 0 -> n = 0).
Proof.
  intros HB n N. subst n. unfold groupCount. fold N.
  assert (0 <= N) by lia.
  pose proof (Z.div_mod (N + B - 1) B ltac:(lia)) as Hdm.
  pose proof (Z.mod_pos_bound (N + B - 1) B HB) as Hmod.
  assert (0 <= (N + B - 1) / B) by (apply Z.div_pos; lia).
  rewrite Z2Nat.id by lia.
  repeat split; nia.
Qed.

Lemma groupCount_le_length (B : Z) (records : list string) :
  0 < B -> (groupCount B records <= length records)%nat.
Proof.
  intros HB. pose proof (groupCount_bounds B records HB) as (_ & Hlt & H0).
  destruct records as [|r records]; [simpl in *; lia|].
  simpl length in *. nia.
Qed.

Lemma concat_groups_from (B : Z) (records : list string) (r g : nat) :
  0 < B -> (g + r)%nat = groupCount B records ->
  concat (groupAt B records <$> seq g r) = skipn (g * Z.to_nat B) records.
Proof.
  intros HB. revert g. induction r as [|r IH]; intros g Hn.
  - simpl. rewrite skipn_all2; [reflexivity|].
    pose proof (groupCount_bounds B records HB) as (Hle & _).
    simpl in Hle. nia.
  - rewrite <- cons_seq, fmap_cons, concat_cons, IH by lia.
    rewrite groupAt_window by done.
    set (rest := skipn (g * Z.to_nat B) records).
    transitivity (firstn (Z.to_nat B) rest ++ skipn (Z.to_nat B) rest);
      [|apply firstn_skipn].
    f_equal. subst rest. rewrite skipn_skipn. f_equal; lia.
Qed.

(** ** The loop, iteration by iteration *)

Section Loop.

Variable w : World.
Variable cfg : Config.
Variable penv : gmap string string.
Variable records : list string.
Variables headerSection footerSection : string.

Lemma batchLoop_from (r g fuel : nat) :
  0 < BATCH_SIZE cfg ->
  (g + r)%nat = groupCount (BATCH_SIZE cfg) records ->
  (r < fuel)%nat ->
  batchLoop w cfg penv records headerSection footerSection fuel
    (Z.of_nat g * BATCH_SIZE cfg) (Z.of_nat g + 1)
  = (forEach (seq g r)
       (batchStep w cfg penv records headerSection footerSection);;
     mret LoopDone).
Proof.
  intros HB. revert g fuel.
  pose proof (groupCount_bounds _ records HB) as (Hle & Hlt & H0).
  simpl in Hle, Hlt, H0.
  induction r as [|r IH]; intros g fuel Hn Hfuel;
    (destruct fuel as [|fuel]; [lia|]); simpl batchLoop.
  - destruct (Z.ltb_spec (Z.of_nat g * BATCH_SIZE cfg)
                (Z.of_nat (length records))) as [Hlt'|_]; [|reflexivity].
    replace g with (groupCount (BATCH_SIZE cfg) records) in Hlt' by lia. lia.
  - destruct (Z.ltb_spec (Z.of_nat g * BATCH_SIZE cfg)
                (Z.of_nat (length records))) as [_|Hge]; [|nia].
    replace (Z.of_nat g * BATCH_SIZE cfg + BATCH_SIZE cfg)
      with (Z.of_nat (S g) * BATCH_SIZE cfg) by lia.
    replace (Z.of_nat g + 1 + 1) with (Z.of_nat (S g) + 1) by lia.
    rewrite IH by lia.
    rewrite <- cons_seq. simpl forEach. by rewrite bind_assoc.
Qed.

(** From the start, with fuel for every record, the loop is the
    sequence of the steps of the groups, and it ends. *)
Lemma batchLoop_unrolled (fuel : nat) :
  0 < BATCH_SIZE cfg ->
  (length records < fuel)%nat ->
  batchLoop w cfg penv records headerSection footerSection fuel 0 1
  = (forEach (seq 0 (groupCount (BATCH_SIZE cfg) records))
       (batchStep w cfg penv records headerSection footerSection);;
     mret LoopDone).
Proof.
  intros HB Hfuel.
  pose proof (groupCount_le_length _ records HB).
  apply (batchLoop_from (groupCount (BATCH_SIZE cfg) records) 0 fuel);
    [done|reflexivity|lia].
Qed.

End Loop.

(** ** One batch, when its file can be written *)

Section OneBatch.

Variable w : World.
Variable cfg : Config.
Variable penv : gmap string string.
Variables headerSection footerSection : string.
Variable batchMatches : list string.
Variables i loteIndex : Z.

Hypothesis writable : forall p data, writeError w p data = None.

Let run := processBatch w cfg penv headerSection footerSection
             batchMatches i loteIndex.

Ltac step_through :=
  subst run; unfold processBatch, orThrow, call, askQuestion;
  rewrite writable; fold (answerTo w loteIndex);
  unfold mbind, mret, M_bind, M_ret, bind, ret, emit, throw, trace, result;
  cbn beta iota;
  destruct (confirmed (answerTo w loteIndex));
  [unfold send, call, tryCatch, mbind, mret, M_bind, M_ret, bind, ret, emit, throw;
   cbn beta iota; destruct (httpPost w loteIndex)|];
  reflexivity.

Lemma processBatch_result : result run = inr tt.
Proof. step_through. Qed.

Lemma processBatch_files :
  filesWritten (trace run) =
  [(fileNameOf (OUTPUT_DIR cfg) loteIndex,
    batchXmlOf headerSection footerSection batchMatches)].
Proof. step_through. Qed.

Lemma processBatch_prompts :
  prompts (trace run) =
  [MsgConfirm loteIndex (Z.of_nat (length batchMatches)) (i + 1)
     (i + Z.of_nat (length batchMatches)) (API_URL cfg)].
Proof. step_through. Qed.

Lemma processBatch_posts :
  posts (trace run) =
  if confirmed (answerTo w loteIndex)
  then [batchXmlOf headerSection footerSection batchMatches] else [].
Proof. step_through. Qed.

Lemma processBatch_skips :
  skips (trace run) =
  if confirmed (answerTo w loteIndex) then [] else [loteIndex].
Proof. step_through. Qed.

Lemma processBatch_sendErrors :
  sendErrors (trace run) =
  if confirmed (answerTo w loteIndex)
  then match httpPost w loteIndex with
       | inl err => [(loteIndex, errDetail err)]
       | inr _ => []
       end
  else [].
Proof. step_through. Qed.

End OneBatch.

(** ** The whole loop, when every file can be written *)

Lemma forEach_trace {A} (xs : list A) (body : A -> M unit) :
  (forall x, x ∈ xs -> result (body x) = inr tt) ->
  forEach xs body = (concat ((fun x => trace (body x)) <$> xs), inr tt).
Proof.
  intros Hok. apply forEach_run. intros x Hx.
  specialize (Hok x Hx). destruct (body x) as [t r]. simpl in *. by subst.
Qed.

Lemma concat_filter_fmap {A B} (p : A -> bool) (f : A -> B) (xs : list A) :
  concat ((fun x => if p x then [f x] else []) <$> xs) = f <$> List.filter p xs.
Proof.
  induction xs as [|x xs IH]; [reflexivity|].
  rewrite fmap_cons, concat_cons, IH. simpl. by destruct (p x).
Qed.

Section WholeLoop.

Variable w : World.
Variable cfg : Config.
Variable penv : gmap string string.
Variable records : list string.
Variables headerSection footerSection : string.
Variable fuel : nat.

Hypothesis positive : 0 < BATCH_SIZE cfg.
Hypothesis writable : forall p data, writeError w p data = None.
Hypothesis enough : (length records < fuel)%nat.

Let loop := batchLoop w cfg penv records headerSection footerSection fuel 0 1.
Let step := batchStep w cfg penv records headerSection footerSection.
Let n := groupCount (BATCH_SIZE cfg) records.

Lemma batchLoop_steps :
  loop = (concat ((fun g => trace (step g)) <$> seq 0 n), inr LoopDone).
Proof.
  subst loop step n. rewrite batchLoop_unrolled by done.
  rewrite (forEach_trace _ _); [by rewrite bind_unfold; simpl; rewrite app_nil_r|].
  intros g _. by apply processBatch_result.
Qed.

Lemma batchLoop_observed {C} (f : Event -> option C) :
  omap f (trace loop) = concat ((fun g => omap f (trace (step g))) <$> seq 0 n).
Proof. rewrite batchLoop_steps. apply omap_concat_fmap. Qed.

End WholeLoop.

(** ** Claims about the partition *)

(** C1. With a positive batch size B and fuel for every record, the loop
    of the script ends after exactly ceil(N/B) iterations, the iteration of
    number g (from 0) working on the group of number g; the groups hold N
    records in all, and put one after the other they are the sequence of
    the extracted records. *)
Theorem partition_exact (w : World) (cfg : Config) (penv : gmap string string)
    (records : list string) (headerSection footerSection : string) (fuel : nat) :
  0 < BATCH_SIZE cfg ->
  (length records < fuel)%nat ->
  let B := BATCH_SIZE cfg in
  let N := Z.of_nat (length records) in
  let n := groupCount B records in
  batchLoop w cfg penv records headerSection footerSection fuel 0 1
  = (forEach (seq 0 n)
       (fun g => processBatch w cfg penv headerSection footerSection
                   (groupAt B records g) (Z.of_nat g * B) (Z.of_nat g + 1));;
     mret LoopDone)
  /\ Z.of_nat n = (N + B - 1) / B
  /\ (Z.of_nat n - 1) * B < N <= Z.of_nat n * B
  /\ length (groups B records) = n
  /\ list_sum (map (@length string) (groups B records)) = length records
  /\ concat (groups B records) = records.
Proof.
  intros HB Hfuel. cbv zeta.
  assert (Hcat : concat (groups (BATCH_SIZE cfg) records) = records).
  { unfold groups. by rewrite (concat_groups_from _ records _ 0). }
  split; [by apply batchLoop_unrolled|].
  split.
  { unfold groupCount. rewrite Z2Nat.id; [done|]. apply Z.div_pos; lia. }
  split.
  { pose proof (groupCount_bounds _ records HB) as (Hle & Hlt & H0).
    simpl in Hle, Hlt, H0.
    destruct (Z.eq_dec (Z.of_nat (length records)) 0) as [HN|HN];
      [rewrite (H0 HN); lia|lia]. }
  split; [unfold groups; by rewrite length_fmap, length_seq|].
  split; [|done].
  by rewrite <- length_concat, Hcat.
Qed.

Lemma partition_exact_witness :
  concat (groups 2 demoRecords) = demoRecords.
Proof.
  apply (partition_exact demoWorld demoConfig ∅ demoRecords
           "<Listings>" "</Listings>" 4); simpl; lia.
Defined.

Lemma length_append (a b : string) :
  String.length (a +:+ b) = (String.length a + String.length b)%nat.
Proof. induction a as [|c a IH]; [reflexivity|]. simpl. by rewrite IH. Qed.

Lemma length_filler (k : nat) (c : ascii) :
  String.length (String.concat "" (replicate k (String c ""))) = k.
Proof.
  induction k as [|k IH]; [reflexivity|].
  destruct k as [|k]; [reflexivity|].
  change (replicate (S (S k)) (String c "")) with
    (String c "" :: replicate (S k) (String c "")).
  change (String.concat "" (String c "" :: replicate (S k) (String c "")))
    with (String c "" +:+ "" +:+ String.concat "" (replicate (S k) (String c ""))).
  rewrite !length_append, IH. reflexivity.
Qed.

Lemma padStart_length (n : Z) (c : ascii) (s : string) :
  Z.of_nat (String.length (padStart n c s)) = Z.max n (strlen s).
Proof.
  unfold padStart. rewrite length_append, length_filler. unfold strlen. lia.
Qed.

Lemma batchLoop_files (w : World) (cfg : Config) (penv : gmap string string)
    (records : list string) (headerSection footerSection : string) (fuel : nat) :
  0 < BATCH_SIZE cfg ->
  (forall p data, writeError w p data = None) ->
  (length records < fuel)%nat ->
  filesWritten
    (trace (batchLoop w cfg penv records headerSection footerSection fuel 0 1))
  = (fun g => (fileNameOf (OUTPUT_DIR cfg) (Z.of_nat g + 1),
               batchXmlOf headerSection footerSection
                 (groupAt (BATCH_SIZE cfg) records g)))
    <$> seq 0 (groupCount (BATCH_SIZE cfg) records).
Proof.
  intros HB Hw Hfuel. unfold filesWritten. rewrite batchLoop_observed by done.
  etransitivity; [|apply concat_singletons].
  f_equal. apply list_fmap_ext.
  intros _ g _. unfold batchStep. by rewrite (processBatch_files w).
Qed.

(** C2. With a positive batch size, when every file can be written, the
    files written by the loop are, in this order, one for each group g
    (from 0): its name is [lote_] followed by the decimal numeral of g+1
    filled with zeros in front to three characters at least, and [.xml];
    its text is the header, a line feed, the records of the group joined by
    line feeds, a line feed, and the footer. *)
Theorem batch_text_and_index (w : World) (cfg : Config)
    (penv : gmap string string) (records : list string)
    (headerSection footerSection : string) (fuel : nat) :
  0 < BATCH_SIZE cfg ->
  (forall p data, writeError w p data = None) ->
  (length records < fuel)%nat ->
  filesWritten
    (trace (batchLoop w cfg penv records headerSection footerSection fuel 0 1))
  = (fun g =>
       (OUTPUT_DIR cfg ++
          ["lote_" +:+ padStart 3 "0" (numberToString (Z.of_nat g + 1)) +:+ ".xml"],
        headerSection +:+ nl +:+
          join nl (groupAt (BATCH_SIZE cfg) records g) +:+ nl +:+ footerSection))
    <$> seq 0 (groupCount (BATCH_SIZE cfg) records)
  /\ (forall k, (3 <= String.length (padStart 3 "0" (numberToString k)))%nat)
  /\ padStart 3 "0" (numberToString 1) = "001".
Proof.
  intros HB Hw Hfuel. split; [|split; [|reflexivity]].
  - by rewrite batchLoop_files.
  - intros k. pose proof (padStart_length 3 "0" (numberToString k)). lia.
Qed.

Lemma batch_text_and_index_witness :
  filesWritten
    (trace (batchLoop demoWorld demoConfig ∅ demoRecords
              "<Listings>" "</Listings>" 4 0 1))
  = [ (["/srv"; "lotes"; "lote_001.xml"],
       "<Listings>" +:+ nl +:+ "<Listing>A</Listing>" +:+ nl +:+
       "<Listing>B</Listing>" +:+ nl +:+ "</Listings>");
      (["/srv"; "lotes"; "lote_002.xml"],
       "<Listings>" +:+ nl +:+ "<Listing>C</Listing>" +:+ nl +:+ "</Listings>") ].
Proof.
  pose proof (batch_text_and_index demoWorld demoConfig ∅ demoRecords
                "<Listings>" "</Listings>" 4) as H.
  destruct H as [H _]; [simpl; lia|reflexivity|simpl; lia|].
  rewrite H. reflexivity.
Defined.

(** ** Claims about confirmation and transmission *)

(** The texts of the batches of the groups kept by a test on the index. *)
Lemma batchLoop_posts (w : World) (cfg : Config) (penv : gmap string string)
    (records : list string) (headerSection footerSection : string) (fuel : nat) :
  0 < BATCH_SIZE cfg ->
  (forall p data, writeError w p data = None) ->
  (length records < fuel)%nat ->
  posts (trace (batchLoop w cfg penv records headerSection footerSection fuel 0 1))
  = (fun g => batchXmlOf headerSection footerSection
                (groupAt (BATCH_SIZE cfg) records g))
    <$> List.filter (fun g => confirmed (answerTo w (Z.of_nat g + 1)))
          (seq 0 (groupCount (BATCH_SIZE cfg) records)).
Proof.
  intros HB Hw Hfuel. unfold posts. rewrite batchLoop_observed by done.
  etransitivity; [|apply concat_filter_fmap].
  f_equal. apply list_fmap_ext.
  intros _ g _. unfold batchStep. by rewrite (processBatch_posts w).
Qed.

Lemma batchLoop_prompts (w : World) (cfg : Config) (penv : gmap string string)
    (records : list string) (headerSection footerSection : string) (fuel : nat) :
  0 < BATCH_SIZE cfg ->
  (forall p data, writeError w p data = None) ->
  (length records < fuel)%nat ->
  prompts (trace (batchLoop w cfg penv records headerSection footerSection fuel 0 1))
  = (fun g =>
       let count := Z.of_nat (length (groupAt (BATCH_SIZE cfg) records g)) in
       let i := Z.of_nat g * BATCH_SIZE cfg in
       MsgConfirm (Z.of_nat g + 1) count (i + 1) (i + count) (API_URL cfg))
    <$> seq 0 (groupCount (BATCH_SIZE cfg) records).
Proof.
  intros HB Hw Hfuel. unfold prompts. rewrite batchLoop_observed by done.
  etransitivity; [|apply concat_singletons].
  f_equal. apply list_fmap_ext.
  intros _ g _. unfold batchStep. by rewrite (processBatch_prompts w).
Qed.

(** C7. The answer is accepted exactly when the typed line, trimmed and
    put in lower case, is [s] or [sim]; an empty line is a refusal. A batch
    whose answer is refused is asked about once, is not submitted, and a
    skip is logged under its index; its step ends without an error, so the
    loop goes on. With a positive batch size, when every file can be
    written, whatever is typed: every group is offered once, in order; the
    submissions are those of the groups whose answer was accepted, one
    each; a skip is logged for each of the other groups; and the loop
    reaches its end. *)
Theorem confirmation_gate (w : World) (cfg : Config) (penv : gmap string string)
    (records : list string) (headerSection footerSection : string) (fuel : nat) :
  0 < BATCH_SIZE cfg ->
  (forall p data, writeError w p data = None) ->
  (length records < fuel)%nat ->
  let B := BATCH_SIZE cfg in
  let loop := batchLoop w cfg penv records headerSection footerSection fuel 0 1 in
  let accepted g := confirmed (answerTo w (Z.of_nat g + 1)) in
  (forall k question,
      result (askQuestion w k question)
      = inr (toLowerCase (trim (default EmptyString (typed w k)))))
  /\ (forall answer, confirmed answer = true <-> answer = "s" \/ answer = "sim")
  /\ confirmed (toLowerCase (trim EmptyString)) = false
  /\ (forall batchMatches i k,
         let step := processBatch w cfg penv headerSection footerSection
                       batchMatches i k in
         confirmed (answerTo w k) = false ->
         length (prompts (trace step)) = 1%nat
         /\ posts (trace step) = []
         /\ skips (trace step) = [k]
         /\ result step = inr tt)
  /\ prompts (trace loop)
     = (fun g =>
          let count := Z.of_nat (length (groupAt B records g)) in
          let i := Z.of_nat g * B in
          MsgConfirm (Z.of_nat g + 1) count (i + 1) (i + count) (API_URL cfg))
       <$> seq 0 (groupCount B records)
  /\ posts (trace loop)
     = (fun g => batchXmlOf headerSection footerSection (groupAt B records g))
       <$> List.filter accepted (seq 0 (groupCount B records))
  /\ skips (trace loop)
     = (fun g => Z.of_nat g + 1)
       <$> List.filter (fun g => negb (accepted g)) (seq 0 (groupCount B records))
  /\ result loop = inr LoopDone.
Proof.
  intros HB Hw Hfuel. cbv zeta.
  split; [reflexivity|].
  split.
  { intros answer. unfold confirmed.
    rewrite orb_true_iff, !bool_decide_eq_true. reflexivity. }
  split; [reflexivity|].
  split.
  { intros batchMatches i k Hno.
    rewrite (processBatch_prompts w), (processBatch_posts w),
      (processBatch_skips w), (processBatch_result w), Hno by done.
    done. }
  split; [by apply batchLoop_prompts|].
  split; [by apply batchLoop_posts|].
  split; [|by rewrite batchLoop_steps].
  unfold skips. rewrite batchLoop_observed by done.
  etransitivity; [|apply concat_filter_fmap].
  f_equal. apply list_fmap_ext.
  intros _ g _. unfold batchStep. rewrite (processBatch_skips w) by done.
  by destruct (confirmed _).
Qed.

Lemma confirmation_gate_witness :
  let loop := batchLoop demoWorld demoConfig ∅ demoRecords
                "<Listings>" "</Listings>" 4 0 1 in
  length (prompts (trace loop)) = 2%nat /\ skips (trace loop) = [2].
Proof.
  pose proof (confirmation_gate demoWorld demoConfig ∅ demoRecords
                "<Listings>" "</Listings>" 4) as H.
  destruct H as (_ & _ & _ & _ & Hp & _ & Hs & _);
    [simpl; lia|reflexivity|simpl; lia|].
  cbv zeta. rewrite Hp, Hs. split; reflexivity.
Defined.

Lemma concat_option_fmap {A B} (f : A -> option B) (xs : list A) :
  concat ((fun x => match f x with Some y => [y] | None => [] end) <$> xs)
  = omap f xs.
Proof.
  induction xs as [|x xs IH]; [reflexivity|].
  rewrite fmap_cons, concat_cons, IH. simpl. by destruct (f x).
Qed.

(** The run as a whole reaches its last line when the feed is loaded,
    holds a record, and the directory and the files can be written. *)
Lemma main_completed (w : World) (cfg : Config) (penv : gmap string string)
    (fuel : nat) (t0 : list Event) (xmlText : string) :
  fetchXmlText w penv (XML_URL cfg) = (t0, inr xmlText) ->
  xmlText <> EmptyString ->
  matchAll listingRegex xmlText <> [] ->
  (dirExists w (OUTPUT_DIR cfg) = false -> mkdirError w (OUTPUT_DIR cfg) = None) ->
  0 < BATCH_SIZE cfg ->
  (forall p data, writeError w p data = None) ->
  (length (matchAll listingRegex xmlText) < fuel)%nat ->
  result (main w cfg penv fuel) = inr Completed.
Proof.
  intros Hfetch Hne Hrec Hdir HB Hw Hfuel.
  unfold main, mainBody. rewrite bind_emit, bind_unfold, Hfetch.
  destruct xmlText as [|c rest]; [done|]. cbn [truthy negb].
  set (xml := String c rest) in *.
  destruct (Z.eqb_spec (Z.of_nat (length (matchAll listingRegex xml))) 0)
    as [H0|_]; [destruct (matchAll listingRegex xml); [done|simpl in H0; lia]|].
  rewrite bind_emit, bind_unfold.
  assert (exists tw sections, wrapperSections xml (matchAll listingRegex xml)
                              = (tw, inr sections)) as (tw & sections & ->).
  { unfold wrapperSections. destruct (_ && _); eauto. }
  rewrite bind_unfold.
  assert (exists td, (if dirExists w (OUTPUT_DIR cfg) then mret ()
                      else orThrow (MkdirSync (OUTPUT_DIR cfg))
                             (mkdirError w (OUTPUT_DIR cfg)))
                     = (td, inr tt)) as (td & ->).
  { destruct (dirExists w (OUTPUT_DIR cfg)); [by eexists|].
    unfold orThrow, call. rewrite Hdir by done. by eexists. }
  rewrite bind_emit, bind_unfold, batchLoop_steps by done.
  reflexivity.
Qed.

(** C8. When the file of a batch can be written, its answer is accepted
    and its submission fails, there is one submission and no more, the
    detail of the error is logged under the index of the batch, and the
    step ends without an error. With a positive batch size, when every
    file can be written, whatever the submissions come to: the loop
    reaches its end; a file is written and a prompt is shown for every
    group; there is one submission for each accepted group; and the errors
    logged are those of the accepted groups whose submission failed. The
    run as a whole then ends at its last line. *)
Theorem transmission_isolated (w : World) (cfg : Config)
    (penv : gmap string string) (records : list string)
    (headerSection footerSection : string) (fuel : nat) :
  0 < BATCH_SIZE cfg ->
  (forall p data, writeError w p data = None) ->
  (length records < fuel)%nat ->
  let B := BATCH_SIZE cfg in
  let n := groupCount B records in
  let loop := batchLoop w cfg penv records headerSection footerSection fuel 0 1 in
  let accepted g := confirmed (answerTo w (Z.of_nat g + 1)) in
  (forall batchMatches i k err,
      let step := processBatch w cfg penv headerSection footerSection
                    batchMatches i k in
      confirmed (answerTo w k) = true ->
      httpPost w k = inl err ->
      posts (trace step) = [batchXmlOf headerSection footerSection batchMatches]
      /\ sendErrors (trace step) = [(k, errDetail err)]
      /\ result step = inr tt)
  /\ result loop = inr LoopDone
  /\ length (filesWritten (trace loop)) = n
  /\ length (prompts (trace loop)) = n
  /\ length (posts (trace loop)) = length (List.filter accepted (seq 0 n))
  /\ sendErrors (trace loop)
     = omap (fun g =>
               if accepted g then
                 match httpPost w (Z.of_nat g + 1) with
                 | inl err => Some (Z.of_nat g + 1, errDetail err)
                 | inr _ => None
                 end
               else None) (seq 0 n)
  /\ (forall t0 xmlText fuel',
         fetchXmlText w penv (XML_URL cfg) = (t0, inr xmlText) ->
         xmlText <> EmptyString ->
         matchAll listingRegex xmlText <> [] ->
         (dirExists w (OUTPUT_DIR cfg) = false ->
          mkdirError w (OUTPUT_DIR cfg) = None) ->
         (length (matchAll listingRegex xmlText) < fuel')%nat ->
         result (main w cfg penv fuel') = inr Completed).
Proof.
  intros HB Hw Hfuel. cbv zeta.
  split.
  { intros batchMatches i k err Hyes Herr.
    rewrite (processBatch_posts w), (processBatch_sendErrors w),
      (processBatch_result w), Hyes, Herr by done.
    done. }
  split; [by rewrite batchLoop_steps|].
  split.
  { by rewrite batchLoop_files, length_fmap, length_seq. }
  split; [by rewrite batchLoop_prompts, length_fmap, length_seq|].
  split; [by rewrite batchLoop_posts, length_fmap|].
  split; [|intros; by eapply main_completed].
  unfold sendErrors. rewrite batchLoop_observed by done.
  etransitivity; [|apply concat_option_fmap].
  f_equal. apply list_fmap_ext.
  intros _ g _. unfold batchStep. rewrite (processBatch_sendErrors w) by done.
  destruct (confirmed _); [|reflexivity]. by destruct (httpPost _ _).
Qed.

Lemma transmission_isolated_witness :
  let loop := batchLoop demoWorld demoConfig ∅ demoRecords
                "<Listings>" "</Listings>" 4 0 1 in
  sendErrors (trace loop) = [(1, DetailMessage "ECONNREFUSED")]
  /\ length (filesWritten (trace loop)) = 2%nat
  /\ result (main demoWorld demoConfig ∅ 4) = inr Completed.
Proof.
  pose proof (transmission_isolated demoWorld demoConfig ∅ demoRecords
                "<Listings>" "</Listings>" 4) as H.
  destruct H as (_ & _ & Hf & _ & _ & He & Hmain);
    [simpl; lia|reflexivity|simpl; lia|].
  cbv zeta. rewrite He, Hf. split; [reflexivity|]. split; [reflexivity|].
  apply (Hmain [] demoFeed); [reflexivity|done|by vm_compute|done|vm_compute; lia].
Defined.

(** ** Claims about the batch size *)

Lemma parseInt_radix_100 (input : option string) : parseInt input 100 = NaN.
Proof.
  unfold parseInt.
  match goal with |- context [let '(_, _) := ?m in _] => destruct m end.
  reflexivity.
Qed.

(** C9. The batch size does not follow the configuration: the constant is
    130 for every environment, also for the value 150 that the header of
    the script gives as its example, which [parseInt] reads as 150 in
    radix 10 and as no number in the radix 100 of line 24. *)
Theorem batch_size_ignores_configuration :
  (forall w, BATCH_SIZE (loadConfig w) = 130)
  /\ env demoWorld !! "BATCH_SIZE" = Some "150"
  /\ parseInt (Some "150") 10 = Num 150
  /\ parseInt (Some "150") 100 = NaN
  /\ BATCH_SIZE (loadConfig demoWorld) = 130.
Proof.
  assert (forall w, BATCH_SIZE (loadConfig w) = 130) as Hall.
  { intros w. unfold loadConfig. simpl. by rewrite parseInt_radix_100. }
  split; [done|]. split; [by vm_compute|]. split; [reflexivity|].
  split; [reflexivity|apply Hall].
Qed.

(** ** Claims about a feed without records *)

Lemma takeStr_length (n : nat) (s : string) :
  String.length (takeStr n s) = Nat.min n (String.length s).
Proof.
  revert s. induction n as [|n IH]; intros [|c s]; simpl; try reflexivity.
  by rewrite IH.
Qed.

Lemma takeStr_all (n : nat) (s : string) :
  (String.length s <= n)%nat -> takeStr n s = s.
Proof.
  revert s. induction n as [|n IH]; intros [|c s] Hlen; simpl in *;
    try reflexivity; try lia.
  rewrite IH; [reflexivity|lia].
Qed.

Lemma substring_head (s : string) (n : Z) :
  0 <= n -> substring s 0 n = takeStr (Z.to_nat n) s.
Proof.
  intros Hn. unfold substring, strlen.
  set (len := String.length s).
  rewrite (Z.max_l 0 0), (Z.min_l 0 (Z.of_nat len)), (Z.max_l n 0) by lia.
  rewrite (Z.min_l 0 (Z.min n _)), (Z.max_r 0 (Z.min n _)) by lia.
  rewrite Z.sub_0_r. simpl dropStr.
  destruct (Z.le_gt_cases n (Z.of_nat len)) as [Hle|Hgt].
  - by rewrite Z.min_l by lia.
  - rewrite Z.min_r by lia. rewrite !takeStr_all; [reflexivity|lia|lia].
Qed.

(** A fetch that succeeds writes no file, asks nothing and submits
    nothing. *)
Lemma fetchXmlText_quiet (w : World) (penv : gmap string string)
    (urlOrPath : option string) (t0 : list Event) (r : JsError + string) :
  fetchXmlText w penv urlOrPath = (t0, r) ->
  filesWritten t0 = [] /\ prompts t0 = [] /\ posts t0 = [].
Proof.
  unfold fetchXmlText.
  destruct (readFile w urlOrPath) as [[err|text]|]; intros Hf.
  - by inversion Hf.
  - by inversion Hf.
  - unfold call in Hf. destruct (httpGet w urlOrPath); by inversion Hf.
Qed.

(** C5. When the feed is loaded and is not empty, and no record is found
    in it, the run returns at line 64 without going through the handler of
    fatal errors: after the events of loading, it reports that no record
    was found and shows the first 500 characters of the feed at most, and
    nothing else; no file is written, nothing is asked and nothing is
    submitted. *)
Theorem no_records_found (w : World) (cfg : Config) (penv : gmap string string)
    (fuel : nat) (t0 : list Event) (xmlText : string) :
  fetchXmlText w penv (XML_URL cfg) = (t0, inr xmlText) ->
  xmlText <> EmptyString ->
  matchAll listingRegex xmlText = [] ->
  let run := main w cfg penv fuel in
  result run = inr NoRecordsFound
  /\ trace run
     = ConsoleLog (MsgObtaining (XML_URL cfg)) :: t0 ++
       [ConsoleError MsgNoListing; ConsoleLog (MsgPreview (substring xmlText 0 500))]
  /\ substring xmlText 0 500 = takeStr 500 xmlText
  /\ strlen (substring xmlText 0 500) <= 500
  /\ filesWritten (trace run) = []
  /\ prompts (trace run) = []
  /\ posts (trace run) = [].
Proof.
  intros Hfetch Hne Hrec. cbv zeta.
  assert (main w cfg penv fuel
          = (ConsoleLog (MsgObtaining (XML_URL cfg)) :: t0 ++
             [ConsoleError MsgNoListing;
              ConsoleLog (MsgPreview (substring xmlText 0 500))],
             inr NoRecordsFound)) as ->.
  { unfold main, mainBody. rewrite bind_emit, bind_unfold, Hfetch.
    destruct xmlText as [|c rest]; [done|]. cbn [truthy negb].
    rewrite Hrec. reflexivity. }
  destruct (fetchXmlText_quiet _ _ _ _ _ Hfetch) as (Hf & Hp & Hs).
  unfold trace, result, filesWritten, prompts, posts in *. simpl.
  rewrite !omap_app, Hf, Hp, Hs.
  repeat split; try reflexivity.
  - by apply (substring_head xmlText 500).
  - rewrite (substring_head xmlText 500) by lia. unfold strlen.
    rewrite takeStr_length. lia.
Qed.

Lemma no_records_found_witness :
  script (Build_World (env demoWorld) (cwd demoWorld)
            (fun _ => Some (inr "<feed><item/></feed>"))
            (httpGet demoWorld) (dirExists demoWorld) (mkdirError demoWorld)
            (writeError demoWorld) (typed demoWorld) (httpPost demoWorld)) 1
  = ([ConsoleLog (MsgObtaining (Some "feed.xml"));
      ConsoleError MsgNoListing;
      ConsoleLog (MsgPreview "<feed><item/></feed>")],
     inr NoRecordsFound).
Proof.
  set (w := Build_World _ _ _ _ _ _ _ _ _).
  destruct (no_records_found w (loadConfig w) (setTlsOff (env w)) 1 []
              "<feed><item/></feed>") as (Hr & Ht & _);
    [reflexivity|done|reflexivity|].
  unfold script. destruct (main _ _ _ _) as [t r]. simpl in Hr, Ht.
  by rewrite Hr, Ht.
Defined.

(** ** Claims about the TLS setting *)

Section Traced.

Variable P : Event -> Prop.

Lemma traced_ret {A} (a : A) : Forall P (trace (mret a : M A)).
Proof. constructor. Qed.

Lemma traced_throw {A} (e : JsError) : Forall P (trace (throw e : M A)).
Proof. constructor. Qed.

Lemma traced_emit (e : Event) : P e -> Forall P (trace (emit e)).
Proof. intros He. by repeat constructor. Qed.

Lemma traced_bind {A B} (m : M A) (k : A -> M B) :
  Forall P (trace m) -> (forall a, Forall P (trace (k a))) ->
  Forall P (trace (m ≫= k)).
Proof.
  intros Hm Hk. rewrite bind_unfold. destruct m as [t [e|a]]; [done|].
  apply Forall_app. split; [done|apply Hk].
Qed.

Lemma traced_tryCatch {A} (m : M A) (h : JsError -> M A) :
  Forall P (trace m) -> (forall e, Forall P (trace (h e))) ->
  Forall P (trace (tryCatch m h)).
Proof.
  intros Hm Hh. unfold tryCatch. destruct m as [t [e|a]]; [|done].
  specialize (Hh e). destruct (h e) as [t' r].
  apply Forall_app. by split.
Qed.

Lemma traced_call {A} (e : Event) (answer : JsError + A) :
  P e -> Forall P (trace (call e answer)).
Proof.
  intros He. unfold call. apply traced_bind; [by apply traced_emit|].
  intros _. destruct answer; [apply traced_throw|apply traced_ret].
Qed.

End Traced.

Section Tls.

Variable w : World.
Variable cfg : Config.
Variable penv : gmap string string.

Let ok := madeUnder (penv !! tlsKey).

Ltac traced :=
  repeat first
    [ apply traced_ret
    | apply traced_throw
    | apply traced_emit; intros tls Htls; by inversion Htls
    | apply traced_call; intros tls Htls; by inversion Htls
    | apply traced_bind; [|intros ?]
    | apply traced_tryCatch; [|intros ?] ].

Lemma fetchXmlText_tls (urlOrPath : option string) :
  Forall ok (trace (fetchXmlText w penv urlOrPath)).
Proof.
  unfold fetchXmlText. destruct (readFile w urlOrPath) as [[err|text]|]; traced.
Qed.

Lemma wrapperSections_tls (xmlText : string) (listingMatches : list string) :
  Forall ok (trace (wrapperSections xmlText listingMatches)).
Proof. unfold wrapperSections. destruct (_ && _); traced. Qed.

Lemma processBatch_tls (headerSection footerSection : string)
    (batchMatches : list string) (i loteIndex : Z) :
  Forall ok (trace (processBatch w cfg penv headerSection footerSection
                      batchMatches i loteIndex)).
Proof.
  unfold processBatch, orThrow, askQuestion. traced.
  destruct (confirmed _); unfold send; traced.
Qed.

Lemma batchLoop_tls (records : list string)
    (headerSection footerSection : string) (fuel : nat) (i loteIndex : Z) :
  Forall ok (trace (batchLoop w cfg penv records headerSection footerSection
                      fuel i loteIndex)).
Proof.
  revert i loteIndex. induction fuel as [|fuel IH]; intros i loteIndex.
  - apply traced_ret.
  - simpl batchLoop. destruct (_ <? _); [|apply traced_ret].
    apply traced_bind; [apply processBatch_tls|intros _; apply IH].
Qed.

Lemma main_tls (fuel : nat) : Forall ok (trace (main w cfg penv fuel)).
Proof.
  unfold main, mainBody. traced.
  - apply fetchXmlText_tls.
  - destruct (negb _); traced.
    destruct (_ =? 0); traced.
    + apply wrapperSections_tls.
    + destruct (dirExists _ _); unfold orThrow; traced.
    + apply batchLoop_tls.
    + match goal with |- context [match ?s with LoopDone => _ | LoopRunning => _ end] =>
        destruct s end; traced.
Qed.

End Tls.

(** C10. Line 30 sets [NODE_TLS_REJECT_UNAUTHORIZED] to [0] before [main]
    starts, whatever the environment held, and every request of the run,
    the download and each submission, is made while the variable has that
    value. *)
Theorem tls_verification_off (w : World) (fuel : nat) :
  setTlsOff (env w) !! "NODE_TLS_REJECT_UNAUTHORIZED" = Some "0"
  /\ script w fuel = main w (loadConfig w) (setTlsOff (env w)) fuel
  /\ Forall (madeUnder (Some "0")) (trace (script w fuel))
  /\ (forall e tls,
         e ∈ trace (script w fuel) -> requestTls e = Some tls -> tls = Some "0").
Proof.
  assert (setTlsOff (env w) !! tlsKey = Some "0") as Hset
    by apply lookup_insert_eq.
  assert (Forall (madeUnder (Some "0")) (trace (script w fuel))) as Hall.
  { unfold script. rewrite <- Hset. apply main_tls. }
  split; [done|]. split; [reflexivity|]. split; [done|].
  intros e tls He. rewrite Forall_forall in Hall. by apply Hall.
Qed.

(** ** Claims about reading a batch back *)

Lemma append_assoc (a b c : string) : (a +:+ b) +:+ c = a +:+ (b +:+ c).
Proof.
  induction a as [|x a IH]; [reflexivity|].
  change (String x ((a +:+ b) +:+ c) = String x (a +:+ (b +:+ c))).
  by rewrite IH.
Qed.

Lemma dropStr_append (a b : string) : dropStr (String.length a) (a +:+ b) = b.
Proof. induction a as [|x a IH]; [by destruct b|exact IH]. Qed.

Lemma takeStr_append (a b : string) : takeStr (String.length a) (a +:+ b) = a.
Proof.
  induction a as [|x a IH]; [by destruct b|].
  change (String x (takeStr (String.length a) (a +:+ b)) = String x a).
  by rewrite IH.
Qed.

Lemma stripWrapper_batchXmlOf (headerSection footerSection : string)
    (batchMatches : list string) :
  stripWrapper headerSection footerSection
    (batchXmlOf headerSection footerSection batchMatches)
  = join nl batchMatches.
Proof.
  unfold stripWrapper, batchXmlOf.
  set (body := join nl batchMatches).
  replace (headerSection +:+ nl +:+ body +:+ nl +:+ footerSection)
    with ((headerSection +:+ nl) +:+ (body +:+ (nl +:+ footerSection)))
    by by rewrite !append_assoc.
  rewrite dropStr_append.
  replace (String.length ((headerSection +:+ nl) +:+ body +:+ nl +:+ footerSection)
           - String.length (headerSection +:+ nl)
           - String.length (nl +:+ footerSection))%nat
    with (String.length body) by (rewrite !length_append; lia).
  apply takeStr_append.
Qed.

Lemma splitOn_plain (r : string) :
  hasLineFeed r = false -> splitOn (ofCode 10) r = [r].
Proof.
  induction r as [|c r IH]; [reflexivity|]. simpl.
  intros [Hc Hr]%orb_false_iff. change (code (ofCode 10)) with 10.
  rewrite Hc, IH by done. reflexivity.
Qed.

Lemma splitOn_line (r rest : string) :
  hasLineFeed r = false ->
  splitOn (ofCode 10) (r +:+ nl +:+ rest) = r :: splitOn (ofCode 10) rest.
Proof.
  induction r as [|c r IH]; intros Hr.
  - reflexivity.
  - simpl in Hr. apply orb_false_iff in Hr as [Hc Hr].
    change (String c r +:+ nl +:+ rest) with (String c (r +:+ nl +:+ rest)).
    simpl splitOn. change (code (ofCode 10)) with 10.
    rewrite Hc, IH by done. reflexivity.
Qed.

Lemma splitOn_join (batchMatches : list string) :
  batchMatches <> [] ->
  Forall (fun r => hasLineFeed r = false) batchMatches ->
  splitOn (ofCode 10) (join nl batchMatches) = batchMatches.
Proof.
  induction batchMatches as [|r [|r' rest] IH]; intros Hne Hall; [done| |].
  - simpl. apply splitOn_plain. by inversion Hall.
  - change (join nl (r :: r' :: rest)) with (r +:+ nl +:+ join nl (r' :: rest)).
    inversion Hall as [|? ? Hr Hrest]; subst.
    rewrite splitOn_line by done. f_equal. by apply IH.
Qed.

Lemma groupAt_nonempty (B : Z) (records : list string) (g : nat) :
  0 < B -> (g < groupCount B records)%nat -> groupAt B records g <> [].
Proof.
  intros HB Hg. rewrite groupAt_window by done.
  pose proof (groupCount_bounds B records HB) as (_ & Hlt & H0).
  simpl in Hlt, H0.
  assert (0 < Z.of_nat (length records)) as HN by lia.
  specialize (Hlt HN).
  assert (g * Z.to_nat B < length records)%nat as Hin by nia.
  intros Hnil. apply (f_equal length) in Hnil.
  rewrite length_take, length_drop in Hnil. simpl in Hnil. lia.
Qed.

(** C3, as the script has it. For a positive batch size and records that
    hold no line feed, the text of every batch of the partition, taken
    without the header and the footer and their line feeds and split at
    the line feeds, gives back the records of that batch. *)
Theorem records_read_back (B : Z) (records : list string)
    (headerSection footerSection : string) (g : nat) :
  0 < B ->
  (g < groupCount B records)%nat ->
  Forall (fun r => hasLineFeed r = false) records ->
  recoverRecords headerSection footerSection
    (batchXmlOf headerSection footerSection (groupAt B records g))
  = groupAt B records g.
Proof.
  intros HB Hg Hall. unfold recoverRecords.
  rewrite stripWrapper_batchXmlOf.
  apply splitOn_join; [by apply groupAt_nonempty|].
  rewrite groupAt_window by done. by apply Forall_take, Forall_drop.
Qed.

Lemma records_read_back_witness :
  recoverRecords "<Listings>" "</Listings>"
    (batchXmlOf "<Listings>" "</Listings>" (groupAt 2 demoRecords 0))
  = ["<Listing>A</Listing>"; "<Listing>B</Listing>"].
Proof.
  rewrite (records_read_back 2 demoRecords "<Listings>" "</Listings>" 0);
    [reflexivity|lia|vm_compute; lia|].
  repeat constructor.
Defined.

(** C3, as stated, fails: a record may hold a line feed, and splitting at
    the line feeds then cuts it in two. *)
Lemma round_trip_counterexample :
  let records := matchAll listingRegex feedWithLineFeed in
  let batch := groupAt 130 records 0 in
  let text := batchXmlOf "<Listings>" "</Listings>" batch in
  batch = ["<Listing>" +:+ nl +:+ "A</Listing>"]
  /\ recoverRecords "<Listings>" "</Listings>" text = ["<Listing>"; "A</Listing>"]
  /\ recoverRecords "<Listings>" "</Listings>" text <> batch.
Proof. cbv zeta. split; [reflexivity|]. split; [reflexivity|]. by vm_compute. Qed.

(** ** Claims about the wrapper *)

Lemma startsWith_takeStr (n : nat) (t : string) :
  startsWith (takeStr n t) t = true.
Proof.
  revert t. induction n as [|n IH]; intros [|c t]; simpl; try reflexivity.
  by rewrite Z.eqb_refl, IH.
Qed.

Lemma length_dropStr (n : nat) (t : string) :
  String.length (dropStr n t) = (String.length t - n)%nat.
Proof.
  revert t. induction n as [|n IH]; intros [|c t]; simpl; try reflexivity.
  apply IH.
Qed.

(** [findFirst] gives the first place where the test holds. *)
Lemma findFirst_first (test : string -> bool) (p : nat) (s : string) :
  (p <= String.length s)%nat ->
  (forall q, (q < p)%nat -> test (dropStr q s) = false) ->
  test (dropStr p s) = true ->
  findFirst test s = Some p.
Proof.
  revert s. induction p as [|p IH]; intros s Hlen Hbefore Hat.
  - destruct s; simpl in *; by rewrite Hat.
  - destruct s as [|c s]; [simpl in Hlen; lia|].
    pose proof (Hbefore 0%nat ltac:(lia)) as H0. simpl in H0.
    simpl. rewrite H0, (IH s); [reflexivity|simpl in Hlen; lia| |done].
    intros q Hq. apply (Hbefore (S q)). lia.
Qed.

(** Every match found lies in the text, at its index. *)
Lemma execAll_inside (rx : Pattern) (s : string) (pos skip : nat)
    (p : nat) (m : string) :
  (p, m) ∈ execAll rx s pos skip ->
  exists q len, p = (pos + q)%nat /\ (q < String.length s)%nat
                /\ m = takeStr len (dropStr q s).
Proof.
  revert pos skip. induction s as [|c s IH]; intros pos skip Hin;
    [by apply elem_of_nil in Hin|].
  assert (forall k, (p, m) ∈ execAll rx s (S pos) k ->
            exists q len, p = (pos + q)%nat /\ (q < String.length (String c s))%nat
                          /\ m = takeStr len (dropStr q (String c s))) as Hrest.
  { intros k Hk. destruct (IH _ _ Hk) as (q & len & -> & Hq & ->).
    exists (S q), len. simpl. repeat split; lia. }
  simpl in Hin. destruct skip as [|k]; [|by eapply Hrest].
  destruct (rx (String c s)) as [len|]; [|by eapply Hrest].
  apply elem_of_cons in Hin as [Heq|Hin]; [|by eapply Hrest].
  inversion Heq; subst. exists 0%nat, len. simpl. repeat split; lia.
Qed.

Lemma indexOf_first (m xml : string) (p : nat) :
  (p <= String.length xml)%nat ->
  (forall q, (q < p)%nat -> startsWith m (dropStr q xml) = false) ->
  startsWith m (dropStr p xml) = true ->
  indexOf m xml = Z.of_nat p.
Proof.
  intros Hlen Hbefore Hat. unfold indexOf, indexOfFrom.
  rewrite Z.max_l, Z.min_l by (unfold strlen; lia). simpl dropStr.
  by rewrite (findFirst_first _ p).
Qed.

Lemma slice_head (xml : string) (p : nat) :
  (p <= String.length xml)%nat -> slice xml 0 (Z.of_nat p) = takeStr p xml.
Proof.
  intros Hlen. unfold slice, relIndex, strlen.
  destruct (Z.ltb_spec (Z.of_nat p) 0) as [?|_]; [lia|].
  change (0 <? 0) with false. cbv iota.
  rewrite (Z.min_l 0), (Z.min_l (Z.of_nat p)) by lia.
  simpl dropStr. f_equal. lia.
Qed.

Lemma sliceFrom_tail (xml : string) (a : nat) :
  (a <= String.length xml)%nat -> sliceFrom xml (Z.of_nat a) = dropStr a xml.
Proof.
  intros Hlen. unfold sliceFrom, slice, relIndex, strlen.
  destruct (Z.ltb_spec (Z.of_nat a) 0) as [?|_]; [lia|].
  destruct (Z.ltb_spec (Z.of_nat (String.length xml)) 0) as [?|_]; [lia|].
  rewrite (Z.min_l (Z.of_nat a)), Z.min_id, Nat2Z.id by lia.
  apply takeStr_all. rewrite length_dropStr. lia.
Qed.

(** What the fallback of lines 84 to 92 gives when neither the text of the
    first record nor the text of the last record occurs in the feed before
    the record itself: the header is the text before the first record and
    the opening tag, the footer is the closing tag and the text after the
    last record. *)
Lemma fallback_sections_unrepeated (xml : string)
    (p1 pn : nat) (m1 mn : string) :
  let found := execAll listingRegex xml 0 0 in
  head found = Some (p1, m1) ->
  last found = Some (pn, mn) ->
  test (openTag "Listings") xml && test closeListings xml = false ->
  (forall q, (q < p1)%nat -> startsWith m1 (dropStr q xml) = false) ->
  (forall q, (q < pn)%nat -> startsWith mn (dropStr q xml) = false) ->
  result (wrapperSections xml (matchAll listingRegex xml))
  = inr (takeStr p1 xml +:+ "<Listings>",
         "</Listings>" +:+ dropStr (pn + String.length mn) xml).
Proof.
  intros found Hhead Hlast Hcont Hfirst Huniq.
  destruct (execAll_inside listingRegex xml 0 0 p1 m1) as (q1 & l1 & E1 & Hq1 & Hm1);
    [by apply head_Some_elem_of|].
  destruct (execAll_inside listingRegex xml 0 0 pn mn) as (qn & ln & En & Hqn & Hmn);
    [by apply last_Some_elem_of|].
  simpl in E1, En. subst q1 qn.
  unfold wrapperSections. rewrite Hcont. unfold matchAll. fold found.
  rewrite fmap_last, Hlast.
  replace (head (found.*2)) with (Some m1)
    by (destruct found as [|[] ?]; by inversion Hhead).
  simpl default.
  rewrite (indexOf_first m1 xml p1), (indexOf_first mn xml pn);
    [|lia|done|subst mn; apply startsWith_takeStr
     |lia|done|subst m1; apply startsWith_takeStr].
  rewrite slice_head by lia.
  assert (String.length mn <= String.length xml - pn)%nat as Hfit.
  { rewrite Hmn, takeStr_length, length_dropStr. lia. }
  unfold strlen. rewrite <- Nat2Z.inj_add, sliceFrom_tail by lia.
  reflexivity.
Qed.

(** *** A match found again where its text occurs *)

Lemma code_inj (a b : ascii) : code a = code b -> a = b.
Proof.
  unfold code. intros H. apply N2Z.inj in H.
  rewrite <- (ascii_N_embedding a), <- (ascii_N_embedding b). by rewrite H.
Qed.

Lemma startsWith_split (m u : string) :
  startsWith m u = true -> u = m +:+ dropStr (String.length m) u.
Proof.
  revert u. induction m as [|a m IH]; intros [|b u] H; simpl in *;
    try reflexivity; try discriminate.
  apply andb_true_iff in H as [Hc Hm]. apply Z.eqb_eq, code_inj in Hc. subst b.
  change (String a u = String a (m +:+ dropStr (String.length m) u)).
  by rewrite <- IH.
Qed.

Lemma takeStr_dropStr (n : nat) (t : string) :
  takeStr n t +:+ dropStr n t = t.
Proof.
  revert t. induction n as [|n IH]; intros [|c t]; try reflexivity.
  change (String c (takeStr n t +:+ dropStr n t) = String c t). by rewrite IH.
Qed.

Lemma dropStr_append_inside (n : nat) (m x : string) :
  (n <= String.length m)%nat -> dropStr n (m +:+ x) = dropStr n m +:+ x.
Proof.
  revert m. induction n as [|n IH]; intros [|c m] Hn; simpl in *;
    try reflexivity; try lia.
  apply IH. lia.
Qed.

Lemma startsWithCI_length (p s : string) :
  startsWithCI p s = true -> (String.length p <= String.length s)%nat.
Proof.
  revert s. induction p as [|a p IH]; intros [|b s] H; simpl in *;
    try lia; try discriminate.
  apply andb_true_iff in H as [_ H]. apply IH in H. lia.
Qed.

Lemma startsWith_length (p s : string) :
  startsWith p s = true -> (String.length p <= String.length s)%nat.
Proof.
  revert s. induction p as [|a p IH]; intros [|b s] H; simpl in *;
    try lia; try discriminate.
  apply andb_true_iff in H as [_ H]. apply IH in H. lia.
Qed.

Lemma startsWithCI_local (p : string) :
  localTest (String.length p) (startsWithCI p).
Proof.
  intros y. revert p. induction y as [|c y IH]; intros [|a p] x Hw; simpl in *;
    try reflexivity; try lia.
  change (String c y +:+ x) with (String c (y +:+ x)). simpl.
  rewrite IH by lia. reflexivity.
Qed.

Lemma startsWith_local (p : string) :
  localTest (String.length p) (startsWith p).
Proof.
  intros y. revert p. induction y as [|c y IH]; intros [|a p] x Hw; simpl in *;
    try reflexivity; try lia.
  change (String c y +:+ x) with (String c (y +:+ x)). simpl.
  rewrite IH by lia. reflexivity.
Qed.

Lemma findFirst_Some (test : string -> bool) (s : string) (j : nat) :
  findFirst test s = Some j ->
  test (dropStr j s) = true /\ (j <= String.length s)%nat
  /\ forall q, (q < j)%nat -> test (dropStr q s) = false.
Proof.
  revert j. induction s as [|c s IH]; intros j H; simpl in H.
  - destruct (test EmptyString) eqn:Ht; [|discriminate].
    inversion H; subst. repeat split; [done|simpl; lia|lia].
  - destruct (test (String c s)) eqn:Ht.
    + inversion H; subst. repeat split; [done|simpl; lia|lia].
    + destruct (findFirst test s) as [j'|] eqn:Hf; [|discriminate].
      inversion H; subst. destruct (IH j' eq_refl) as (Hat & Hle & Hbefore).
      repeat split; [done|simpl; lia|].
      intros [|q] Hq; [done|]. apply Hbefore. lia.
Qed.

(** The first place found by a local test does not depend on what
    follows the part of the text that holds it. *)
Lemma findFirst_local (width : nat) (test : string -> bool)
    (y x x' : string) (j : nat) :
  localTest width test ->
  (j + width <= String.length y)%nat ->
  findFirst test (y +:+ x) = Some j ->
  findFirst test (y +:+ x') = Some j.
Proof.
  intros Hloc. revert j. induction y as [|c y IH]; intros j Hj H.
  - assert (width = 0%nat /\ j = 0%nat) as [-> ->] by (simpl in Hj; lia).
    destruct (findFirst_Some _ _ _ H) as (Hat & _). simpl in Hat.
    pose proof (Hloc EmptyString x ltac:(simpl; lia)) as E.
    pose proof (Hloc EmptyString x' ltac:(simpl; lia)) as E'.
    change (EmptyString +:+ x) with x in *.
    change (EmptyString +:+ x') with x' in *.
    assert (test x' = true) as Hx' by congruence.
    destruct x'; simpl; by rewrite Hx'.
  - change (String c y +:+ x) with (String c (y +:+ x)) in H.
    change (String c y +:+ x') with (String c (y +:+ x')).
    pose proof (Hloc (String c y) x) as E. pose proof (Hloc (String c y) x') as E'.
    change (String c y +:+ x) with (String c (y +:+ x)) in E.
    change (String c y +:+ x') with (String c (y +:+ x')) in E'.
    simpl in H |- *. simpl in Hj.
    rewrite E' by (simpl; lia). rewrite E in H by (simpl; lia).
    destruct (test (String c y)); [done|].
    destruct (findFirst test (y +:+ x)) as [j'|] eqn:Hf; [|discriminate].
    inversion H; subst. rewrite (IH j') by (done || lia). reflexivity.
Qed.

Lemma boundaryAfterWord_local (y x : string) :
  y <> EmptyString -> boundaryAfterWord (y +:+ x) = boundaryAfterWord y.
Proof. by destruct y. Qed.

(** Where the text of a match of the record pattern stands, the pattern
    matches, and with the same text. *)
Lemma listingRegex_again (t : string) (len : nat) (u : string) :
  listingRegex t = Some len ->
  startsWith (takeStr len t) u = true ->
  listingRegex u = Some len.
Proof.
  unfold listingRegex, openTag. set (lt := "<" +:+ "Listing").
  intros Hrx Hu.
  destruct (startsWithCI lt t && boundaryAfterWord (dropStr (String.length lt) t))
    eqn:Hopen; [|discriminate].
  apply andb_true_iff in Hopen as [Hlt Hb].
  destruct (findFirst (startsWith ">") (dropStr (String.length lt) t))
    as [j|] eqn:Hj; [|discriminate].
  cbn [fmap option_fmap option_map] in Hrx.
  set (a := (String.length lt + j + 1)%nat) in *.
  destruct (findFirst (startsWithCI "</Listing>") (dropStr a t))
    as [k|] eqn:Hk; [|discriminate].
  assert ((a + k + 10)%nat = len) as Hlen
    by (cbn [fmap option_fmap option_map] in Hrx; congruence).
  clear Hrx.
  destruct (findFirst_Some _ _ _ Hj) as (Hgt & _ & _).
  destruct (findFirst_Some _ _ _ Hk) as (Hclose & _ & _).
  apply startsWith_length in Hgt. apply startsWithCI_length in Hclose.
  rewrite !length_dropStr in Hgt, Hclose. simpl String.length in Hgt, Hclose.
  assert (String.length lt = 8%nat) as Hw by reflexivity.
  assert (len <= String.length t)%nat as Hfit by lia.
  set (m := takeStr len t) in *.
  assert (String.length m = len) as Hm
    by (subst m; rewrite takeStr_length; lia).
  assert (t = m +:+ dropStr len t) as Ht by (subst m; by rewrite takeStr_dropStr).
  apply startsWith_split in Hu. rewrite Hm in Hu.
  set (t' := dropStr len t) in *. set (u' := dropStr len u) in *.
  clearbody m t' u'. subst t u.
  rewrite (startsWithCI_local lt m) in Hlt |- * by lia.
  rewrite dropStr_append_inside in Hb, Hj |- * by lia.
  assert (dropStr (String.length lt) m <> EmptyString) as Hne.
  { intros E. apply (f_equal String.length) in E.
    rewrite length_dropStr in E. simpl in E. lia. }
  rewrite boundaryAfterWord_local in Hb |- * by done.
  rewrite Hlt, Hb. cbn [andb].
  rewrite (findFirst_local 1 _ _ t' u' j (startsWith_local ">"));
    [|rewrite length_dropStr; lia|done].
  cbn [fmap option_fmap option_map]. fold a.
  rewrite dropStr_append_inside in Hk |- * by lia.
  rewrite (findFirst_local 10 _ _ t' u' k (startsWithCI_local "</Listing>"));
    [|rewrite length_dropStr; lia|done].
  cbn [fmap option_fmap option_map]. by rewrite Hlen.
Qed.

(** The first match is at the first place where the pattern matches. *)
Lemma execAll_head (rx : Pattern) (s : string) (pos p : nat) (m : string) :
  head (execAll rx s pos 0) = Some (p, m) ->
  exists q len, p = (pos + q)%nat /\ (q < String.length s)%nat
    /\ (forall q', (q' < q)%nat -> rx (dropStr q' s) = None)
    /\ rx (dropStr q s) = Some len
    /\ m = takeStr len (dropStr q s).
Proof.
  revert pos. induction s as [|c s IH]; intros pos H; [discriminate|].
  simpl in H. destruct (rx (String c s)) as [len|] eqn:Hrx.
  - inversion H; subst. exists 0%nat, len. simpl.
    repeat split; [lia|lia|intros; lia|done].
  - destruct (IH _ H) as (q & len & -> & Hq & Hbefore & Hat & ->).
    exists (S q), len. simpl. repeat split; [lia|lia| |done].
    intros [|q'] Hq'; [done|]. apply Hbefore. lia.
Qed.

(** The text of the first record does not occur before the record. *)
Lemma first_match_unrepeated (xml : string) (p1 : nat) (m1 : string) :
  head (execAll listingRegex xml 0 0) = Some (p1, m1) ->
  forall q, (q < p1)%nat -> startsWith m1 (dropStr q xml) = false.
Proof.
  intros Hhead q Hq.
  destruct (execAll_head _ _ _ _ _ Hhead) as (q1 & len & E & _ & Hbefore & Hat & ->).
  simpl in E. subst q1.
  destruct (startsWith _ (dropStr q xml)) eqn:Hocc; [|reflexivity].
  apply (listingRegex_again _ _ _ Hat) in Hocc.
  rewrite Hbefore in Hocc by done. discriminate.
Qed.

(** The fallback on every feed: the header is the text before the first
    record and the opening tag; the footer is the closing tag and the text
    after the last record as soon as the text of the last record does not
    occur in the feed before that record. *)
Lemma fallback_sections (xml : string) (p1 pn : nat) (m1 mn : string) :
  let found := execAll listingRegex xml 0 0 in
  let sections := result (wrapperSections xml (matchAll listingRegex xml)) in
  head found = Some (p1, m1) ->
  last found = Some (pn, mn) ->
  test (openTag "Listings") xml && test closeListings xml = false ->
  (exists footerSection,
      sections = inr (takeStr p1 xml +:+ "<Listings>", footerSection))
  /\ ((forall q, (q < pn)%nat -> startsWith mn (dropStr q xml) = false) ->
      sections = inr (takeStr p1 xml +:+ "<Listings>",
                      "</Listings>" +:+ dropStr (pn + String.length mn) xml)).
Proof.
  intros found sections Hhead Hlast Hcont.
  pose proof (first_match_unrepeated xml p1 m1 Hhead) as Hfirst.
  split; [|intros Huniq; by apply (fallback_sections_unrepeated xml p1 pn m1 mn)].
  destruct (execAll_inside listingRegex xml 0 0 p1 m1) as (q1 & l1 & E1 & Hq1 & Hm1);
    [by apply head_Some_elem_of|].
  simpl in E1. subst q1.
  subst sections. unfold wrapperSections. rewrite Hcont. unfold matchAll. fold found.
  replace (head (found.*2)) with (Some m1)
    by (destruct found as [|[] ?]; by inversion Hhead).
  simpl default.
  rewrite (indexOf_first m1 xml p1); [|lia|done|subst m1; apply startsWith_takeStr].
  rewrite slice_head by lia. by eexists.
Qed.

(** C4. On a feed without the container whose last record has the text of
    an earlier one, the footer of the fallback is not the closing tag
    followed by the text after the last record: line 87 looks for the
    first place where the text of the last record occurs, so the footer
    takes in the records that follow that place. On every feed without
    the container the header is the text before the first record followed
    by the opening tag, and the footer is the closing tag followed by the
    text after the last record when the text of that record does not
    occur earlier in the feed. *)
Theorem fallback_footer_after_first_occurrence :
  (let feed := feedWithRepeat in
   let found := execAll listingRegex feed 0 0 in
   let sections := result (wrapperSections feed (matchAll listingRegex feed)) in
   test (openTag "Listings") feed = false
   /\ found = [ (6%nat, "<Listing>A</Listing>");
                (26%nat, "<Listing>B</Listing>");
                (46%nat, "<Listing>A</Listing>") ]
   /\ sliceFrom feed (46 + 20) = "</feed>"
   /\ sections = inr ("<feed><Listings>",
                      "</Listings><Listing>B</Listing><Listing>A</Listing></feed>")
   /\ sections <> inr ("<feed><Listings>", "</Listings></feed>"))
  /\ (forall xml p1 pn m1 mn,
         let found := execAll listingRegex xml 0 0 in
         let sections := result (wrapperSections xml (matchAll listingRegex xml)) in
         head found = Some (p1, m1) ->
         last found = Some (pn, mn) ->
         test (openTag "Listings") xml && test closeListings xml = false ->
         (exists footerSection,
             sections = inr (takeStr p1 xml +:+ "<Listings>", footerSection))
         /\ ((forall q, (q < pn)%nat -> startsWith mn (dropStr q xml) = false) ->
             sections = inr (takeStr p1 xml +:+ "<Listings>",
                             "</Listings>" +:+
                               dropStr (pn + String.length mn) xml))).
Proof.
  split; [|intros xml p1 pn m1 mn; cbv zeta; intros Hhead Hlast Hcont;
            by apply (fallback_sections xml p1 pn m1 mn)].
  cbv zeta. repeat (split; [reflexivity|]). by vm_compute.
Qed.

(** * Further properties of the script *)

(** ** The run, piece by piece *)

Lemma tryCatch_unfold {A} (m : M A) (h : JsError -> M A) :
  tryCatch m h =
  match m with
  | (t, inl e) => (t ++ (h e).1, (h e).2)
  | (t, inr a) => (t, inr a)
  end.
Proof. unfold tryCatch. destruct m as [t [e|a]]; [by destruct (h e)|done]. Qed.

Lemma main_caught (w : World) (cfg : Config) (penv : gmap string string)
    (fuel : nat) :
  main w cfg penv fuel
  = (trace (mainBody w cfg penv fuel) ++ (caught (result (mainBody w cfg penv fuel))).1,
     (caught (result (mainBody w cfg penv fuel))).2).
Proof.
  unfold main. rewrite tryCatch_unfold.
  destruct (mainBody w cfg penv fuel) as [t [e|a]]; simpl; [done|].
  by rewrite app_nil_r.
Qed.

Lemma wrapperSections_total (xmlText : string) (listingMatches : list string) :
  wrapperSections xmlText listingMatches
  = (trace (wrapperSections xmlText listingMatches),
     inr (sectionsOf xmlText listingMatches)).
Proof.
  unfold sectionsOf, wrapperSections. by destruct (_ && _).
Qed.

(** The body of [main] once the feed is loaded and holds a record. *)
Lemma mainBody_loaded (w : World) (cfg : Config) (penv : gmap string string)
    (fuel : nat) (t0 : list Event) (xmlText : string) :
  fetchXmlText w penv (XML_URL cfg) = (t0, inr xmlText) ->
  xmlText <> EmptyString ->
  matchAll listingRegex xmlText <> [] ->
  let records := matchAll listingRegex xmlText in
  let sections := sectionsOf xmlText records in
  let before :=
    ConsoleLog (MsgObtaining (XML_URL cfg)) :: t0 ++
    ConsoleLog (MsgFound (Z.of_nat (length records))) ::
    trace (wrapperSections xmlText records) ++ trace (prepareDir w cfg) in
  let loop := batchLoop w cfg penv records sections.1 sections.2 fuel 0 1 in
  mainBody w cfg penv fuel
  = match result (prepareDir w cfg) with
    | inl err => (before, inl err)
    | inr _ =>
        (before ++ CreateInterface :: trace loop ++ (afterLoop (result loop)).1,
         (afterLoop (result loop)).2)
    end.
Proof.
  intros Hfetch Hne Hrec. cbv zeta.
  unfold mainBody. rewrite bind_emit, bind_unfold, Hfetch.
  destruct xmlText as [|c rest]; [done|]. cbn [truthy negb].
  set (xml := String c rest) in *.
  destruct (Z.eqb_spec (Z.of_nat (length (matchAll listingRegex xml))) 0)
    as [H0|_]; [destruct (matchAll listingRegex xml); [done|simpl in H0; lia]|].
  rewrite bind_emit, bind_unfold, wrapperSections_total.
  fold (prepareDir w cfg). rewrite bind_unfold.
  destruct (prepareDir w cfg) as [td [err|[]]]; cbn [fst snd trace result].
  - reflexivity.
  - rewrite bind_emit, bind_unfold.
    destruct (batchLoop _ _ _ _ _ _ _ _ _) as [tl [err|[]]];
      cbn [fst snd trace result afterLoop]; simpl;
      repeat (rewrite <- app_assoc; simpl); rewrite ?app_nil_r; reflexivity.
Qed.

Lemma fetchXmlText_setup (w : World) (penv : gmap string string)
    (urlOrPath : option string) :
  Forall (fun e => isSetup e = true) (trace (fetchXmlText w penv urlOrPath)).
Proof.
  unfold fetchXmlText. destruct (readFile w urlOrPath) as [[err|text]|];
    try by constructor.
  unfold call. destruct (httpGet w urlOrPath); by repeat constructor.
Qed.

Lemma wrapperSections_setup (xmlText : string) (listingMatches : list string) :
  Forall (fun e => isSetup e = true)
    (trace (wrapperSections xmlText listingMatches)).
Proof. unfold wrapperSections. destruct (_ && _); by repeat constructor. Qed.

Lemma prepareDir_setup (w : World) (cfg : Config) :
  Forall (fun e => isSetup e = true) (trace (prepareDir w cfg)).
Proof.
  unfold prepareDir, orThrow, call. destruct (dirExists _ _); [by constructor|].
  destruct (mkdirError _ _); by repeat constructor.
Qed.

Lemma omap_unseen {A} (f : Event -> option A) (t : list Event) :
  (forall e, isSetup e = true -> f e = None) ->
  Forall (fun e => isSetup e = true) t ->
  omap f t = [].
Proof.
  intros Hf Ht. induction Ht as [|e t He _ IH]; [reflexivity|].
  change (omap f (e :: t))
    with (match f e with Some y => y :: omap f t | None => omap f t end).
  by rewrite (Hf e He), IH.
Qed.

(** What a reading that passes over the events of the setup shows of a
    run whose feed is loaded and holds a record, and whose directory is
    there or can be made. *)
Lemma main_observed {A} (f : Event -> option A) (w : World) (cfg : Config)
    (penv : gmap string string) (fuel : nat) (t0 : list Event)
    (xmlText : string) :
  (forall e, isSetup e = true -> f e = None) ->
  f CreateInterface = None ->
  fetchXmlText w penv (XML_URL cfg) = (t0, inr xmlText) ->
  xmlText <> EmptyString ->
  matchAll listingRegex xmlText <> [] ->
  result (prepareDir w cfg) = inr tt ->
  let records := matchAll listingRegex xmlText in
  let sections := sectionsOf xmlText records in
  let loop := batchLoop w cfg penv records sections.1 sections.2 fuel 0 1 in
  omap f (trace (main w cfg penv fuel))
  = omap f (trace loop) ++ omap f (afterLoop (result loop)).1
    ++ omap f (caught (afterLoop (result loop)).2).1
  /\ result (main w cfg penv fuel) = (caught (afterLoop (result loop)).2).2.
Proof.
  intros Hf Hc Hfetch Hne Hrec Hdir. cbv zeta.
  rewrite main_caught, (mainBody_loaded w cfg penv fuel t0 xmlText) by done.
  cbv zeta. rewrite Hdir. cbn [trace result fst snd].
  split; [|reflexivity].
  match goal with |- context [?b ++ CreateInterface :: _] => set (before := b) end.
  assert (omap f before = []) as Hbefore.
  { apply omap_unseen; [done|]. subst before.
    pose proof (fetchXmlText_setup w penv (XML_URL cfg)) as H0.
    rewrite Hfetch in H0.
    apply Forall_cons; split; [reflexivity|]. apply Forall_app; split; [done|].
    apply Forall_cons; split; [reflexivity|]. apply Forall_app; split;
      [apply wrapperSections_setup|apply prepareDir_setup]. }
  rewrite !omap_app, Hbefore.
  change (omap f (CreateInterface :: ?t))
    with (match f CreateInterface with
          | Some y => y :: omap f t | None => omap f t end).
  rewrite Hc, omap_app. simpl app. by rewrite app_assoc.
Qed.

(** ** One batch, whether or not its file can be written *)

Section OneBatchAnyWorld.

Variable w : World.
Variable cfg : Config.
Variable penv : gmap string string.
Variables headerSection footerSection : string.
Variable batchMatches : list string.
Variables i loteIndex : Z.

Let fileName := fileNameOf (OUTPUT_DIR cfg) loteIndex.
Let batchXml := batchXmlOf headerSection footerSection batchMatches.
Let run := processBatch w cfg penv headerSection footerSection
             batchMatches i loteIndex.

Lemma processBatch_refused (err : JsError) :
  writeError w fileName batchXml = Some err ->
  run = ([WriteFileSync fileName batchXml], inl err).
Proof.
  intros Hw. subst run fileName batchXml.
  unfold processBatch, orThrow, call. by rewrite Hw.
Qed.

Ltac step_locally Hw :=
  subst run fileName batchXml; unfold processBatch, orThrow, call, askQuestion;
  rewrite Hw; fold (answerTo w loteIndex);
  unfold mbind, mret, M_bind, M_ret, bind, ret, emit, throw, trace, result;
  cbn beta iota;
  destruct (confirmed (answerTo w loteIndex));
  [unfold send, call, tryCatch, mbind, mret, M_bind, M_ret, bind, ret, emit, throw;
   cbn beta iota; destruct (httpPost w loteIndex)|];
  reflexivity.

Lemma processBatch_done :
  writeError w fileName batchXml = None -> result run = inr tt.
Proof. intros Hw. step_locally Hw. Qed.

Lemma processBatch_done_inv :
  result run = inr tt -> writeError w fileName batchXml = None.
Proof.
  intros Hr. destruct (writeError w fileName batchXml) as [err|] eqn:Hw; [|done].
  by rewrite (processBatch_refused err Hw) in Hr.
Qed.

Lemma processBatch_done_files :
  writeError w fileName batchXml = None ->
  filesWritten (trace run) = [(fileName, batchXml)].
Proof. intros Hw. step_locally Hw. Qed.

Lemma processBatch_done_prompts :
  writeError w fileName batchXml = None ->
  prompts (trace run) =
  [MsgConfirm loteIndex (Z.of_nat (length batchMatches)) (i + 1)
     (i + Z.of_nat (length batchMatches)) (API_URL cfg)].
Proof. intros Hw. step_locally Hw. Qed.

Lemma processBatch_done_saved :
  writeError w fileName batchXml = None ->
  saved (trace run) =
  [(loteIndex, Z.of_nat (length batchMatches), i + 1,
    i + Z.of_nat (length batchMatches))].
Proof. intros Hw. step_locally Hw. Qed.

Lemma processBatch_closes : closes (trace run) = [].
Proof.
  destruct (writeError w fileName batchXml) as [err|] eqn:Hw;
    [by rewrite (processBatch_refused err Hw)|].
  step_locally Hw.
Qed.

(** The submissions of a batch: none, or one that carries the text
    written to the file of the batch, the destination, the headers and the
    time limit of lines 123 to 129. *)
Lemma processBatch_submissions :
  submissions (trace run) = [] \/
  submissions (trace run) =
  [ {| toUrl := API_URL cfg;
       body := {| xmlData := batchXml; batchSize := PROCESSING_BATCH_SIZE cfg |};
       withHeaders :=
         if truthy (API_KEY cfg)
         then <[ "Authorization" :=
                   "Bearer " +:+ default EmptyString (API_KEY cfg) ]>
                {[ "Content-Type" := "application/json" ]}
         else {[ "Content-Type" := "application/json" ]};
       within := 120000 |} ]
  /\ filesWritten (trace run) = [(fileName, batchXml)]
  /\ confirmed (answerTo w loteIndex) = true.
Proof.
  destruct (writeError w fileName batchXml) as [err|] eqn:Hw;
    [left; by rewrite (processBatch_refused err Hw)|].
  subst run fileName batchXml; unfold processBatch, orThrow, call, askQuestion.
  rewrite Hw. fold (answerTo w loteIndex).
  unfold mbind, mret, M_bind, M_ret, bind, ret, emit, throw, trace, result.
  cbn beta iota.
  destruct (confirmed (answerTo w loteIndex)); [right|left; reflexivity].
  unfold send, call, tryCatch, mbind, mret, M_bind, M_ret, bind, ret, emit, throw.
  cbn beta iota. destruct (httpPost w loteIndex); by repeat split.
Qed.

End OneBatchAnyWorld.

(** ** Sequences of steps *)

Lemma forEach_app {A} (xs ys : list A) (body : A -> M unit) :
  forEach (xs ++ ys) body = (forEach xs body;; forEach ys body).
Proof.
  induction xs as [|x xs IH].
  - change (forEach ys body = (mret tt ≫= fun _ => forEach ys body)).
    rewrite bind_unfold. simpl. by destruct (forEach ys body).
  - change (forEach ((x :: xs) ++ ys) body)
      with (body x;; forEach (xs ++ ys) body).
    rewrite IH. change (forEach (x :: xs) body) with (body x;; forEach xs body).
    by rewrite bind_assoc.
Qed.

Lemma forEach_result_inv {A} (xs : list A) (body : A -> M unit) :
  result (forEach xs body) = inr tt ->
  forall x, x ∈ xs -> result (body x) = inr tt.
Proof.
  induction xs as [|x xs IH]; intros Hr y Hy; [by apply elem_of_nil in Hy|].
  simpl in Hr. rewrite bind_unfold in Hr.
  destruct (body x) as [t [e|[]]] eqn:Hx; [done|].
  apply elem_of_cons in Hy as [->|Hy]; [by rewrite Hx|].
  apply IH; [|done]. by destruct (forEach xs body).
Qed.

Lemma forEach_stops {A} (xs ys : list A) (x : A) (body : A -> M unit)
    (t : list Event) (err : JsError) :
  (forall y, y ∈ xs -> result (body y) = inr tt) ->
  body x = (t, inl err) ->
  forEach (xs ++ x :: ys) body
  = (concat ((fun y => trace (body y)) <$> xs) ++ t, inl err).
Proof.
  intros Hxs Hx. rewrite forEach_app, (forEach_trace xs) by done.
  rewrite bind_unfold. simpl. rewrite bind_unfold, Hx. reflexivity.
Qed.

(** ** The loop and the run end *)

Lemma batchLoop_ended (w : World) (cfg : Config) (penv : gmap string string)
    (records : list string) (headerSection footerSection : string) (fuel : nat) :
  0 < BATCH_SIZE cfg ->
  (length records < fuel)%nat ->
  let steps := forEach (seq 0 (groupCount (BATCH_SIZE cfg) records))
                 (batchStep w cfg penv records headerSection footerSection) in
  batchLoop w cfg penv records headerSection footerSection fuel 0 1
  = (trace steps,
     match result steps with inl err => inl err | inr _ => inr LoopDone end).
Proof.
  intros HB Hfuel. cbv zeta. rewrite batchLoop_unrolled by done.
  rewrite bind_unfold. destruct (forEach _ _) as [t [err|[]]]; [done|].
  simpl. by rewrite app_nil_r.
Qed.

Lemma loadConfig_batch_size (w : World) : BATCH_SIZE (loadConfig w) = 130.
Proof. unfold loadConfig. simpl. by rewrite parseInt_radix_100. Qed.

Lemma mainBody_unloaded (w : World) (cfg : Config) (penv : gmap string string)
    (fuel : nat) (t0 : list Event) (err : JsError) :
  fetchXmlText w penv (XML_URL cfg) = (t0, inl err) ->
  mainBody w cfg penv fuel
  = (ConsoleLog (MsgObtaining (XML_URL cfg)) :: t0, inl err).
Proof.
  intros Hfetch. unfold mainBody. by rewrite bind_emit, bind_unfold, Hfetch.
Qed.

Lemma mainBody_empty (w : World) (cfg : Config) (penv : gmap string string)
    (fuel : nat) (t0 : list Event) :
  fetchXmlText w penv (XML_URL cfg) = (t0, inr EmptyString) ->
  mainBody w cfg penv fuel
  = (ConsoleLog (MsgObtaining (XML_URL cfg)) :: t0, inl (Error emptyXmlMessage)).
Proof.
  intros Hfetch. unfold mainBody. rewrite bind_emit, bind_unfold, Hfetch.
  simpl. by rewrite app_nil_r.
Qed.

Lemma mainBody_no_records (w : World) (cfg : Config) (penv : gmap string string)
    (fuel : nat) (t0 : list Event) (xmlText : string) :
  fetchXmlText w penv (XML_URL cfg) = (t0, inr xmlText) ->
  xmlText <> EmptyString ->
  matchAll listingRegex xmlText = [] ->
  mainBody w cfg penv fuel
  = (ConsoleLog (MsgObtaining (XML_URL cfg)) :: t0 ++
       [ConsoleError MsgNoListing;
        ConsoleLog (MsgPreview (substring xmlText 0 500))],
     inr NoRecordsFound).
Proof.
  intros Hfetch Hne Hnone. unfold mainBody.
  rewrite bind_emit, bind_unfold, Hfetch.
  destruct xmlText as [|c rest]; [done|]. cbn [truthy negb].
  by rewrite Hnone.
Qed.

Lemma mainBody_fuel (w : World) (cfg : Config) (penv : gmap string string)
    (fuel fuel' : nat) :
  0 < BATCH_SIZE cfg ->
  (recordsFetched w cfg penv < fuel)%nat ->
  (recordsFetched w cfg penv < fuel')%nat ->
  mainBody w cfg penv fuel = mainBody w cfg penv fuel'
  /\ result (mainBody w cfg penv fuel) <> inr StillRunning.
Proof.
  intros HB. unfold recordsFetched.
  destruct (fetchXmlText w penv (XML_URL cfg)) as [t0 [err|xmlText]] eqn:Hfetch;
    cbn [result snd]; intros Hfuel Hfuel'.
  { by rewrite !(mainBody_unloaded w cfg penv _ t0 err). }
  destruct (decide (xmlText = EmptyString)) as [->|Hne].
  { by rewrite !(mainBody_empty w cfg penv _ t0). }
  destruct (decide (matchAll listingRegex xmlText = [])) as [Hnone|Hrec].
  { by rewrite !(mainBody_no_records w cfg penv _ t0 xmlText). }
  rewrite !(mainBody_loaded w cfg penv _ t0 xmlText) by done. cbv zeta.
  rewrite !batchLoop_ended by done. cbv zeta. cbn [trace result fst snd].
  split; [reflexivity|].
  destruct (result (prepareDir w cfg)); [done|].
  by destruct (forEach _ _) as [t [err|[]]].
Qed.

Lemma batchLoop_done_steps (w : World) (cfg : Config) (penv : gmap string string)
    (records : list string) (headerSection footerSection : string) (fuel : nat) :
  0 < BATCH_SIZE cfg ->
  (length records < fuel)%nat ->
  let loop := batchLoop w cfg penv records headerSection footerSection fuel 0 1 in
  let step := batchStep w cfg penv records headerSection footerSection in
  let n := groupCount (BATCH_SIZE cfg) records in
  result loop = inr LoopDone ->
  trace loop = concat ((fun g => trace (step g)) <$> seq 0 n)
  /\ forall g, g ∈ seq 0 n -> result (step g) = inr tt.
Proof.
  intros HB Hfuel. cbv zeta. rewrite batchLoop_ended by done. cbv zeta.
  cbn [trace result fst snd]. intros Hdone.
  assert (forall g, g ∈ seq 0 (groupCount (BATCH_SIZE cfg) records) ->
            result (batchStep w cfg penv records headerSection footerSection g)
            = inr tt) as Hsteps.
  { apply forEach_result_inv.
    destruct (forEach _ _) as [t [err|[]]]; [done|reflexivity]. }
  split; [|done]. by rewrite (forEach_trace _ _ Hsteps).
Qed.

Lemma length_concat_ones {A B} (f : A -> list B) (xs : list A) :
  (forall x, x ∈ xs -> length (f x) = 1%nat) ->
  length (concat (f <$> xs)) = length xs.
Proof.
  induction xs as [|x xs IH]; intros Hone; [reflexivity|].
  rewrite fmap_cons, concat_cons, length_app, IH, Hone; [reflexivity|..].
  - by constructor.
  - intros y Hy. apply Hone. by constructor.
Qed.

Lemma concat_nils {A B} (f : A -> list B) (xs : list A) :
  (forall x, f x = []) -> concat (f <$> xs) = [].
Proof.
  intros Hnil. induction xs as [|x xs IH]; [reflexivity|].
  by rewrite fmap_cons, concat_cons, IH, Hnil.
Qed.

Lemma setup_unseen_files (e : Event) : isSetup e = true -> fileOf e = None.
Proof. by destruct e as [[]| | | | | | | | |]. Qed.

Lemma setup_unseen_prompts (e : Event) : isSetup e = true -> promptOf e = None.
Proof. by destruct e as [[]| | | | | | | | |]. Qed.

Lemma setup_unseen_saved (e : Event) : isSetup e = true -> savedOf e = None.
Proof. by destruct e as [[]| | | | | | | | |]. Qed.

Lemma setup_unseen_submissions (e : Event) :
  isSetup e = true -> submissionOf e = None.
Proof. by destruct e as [[]| | | | | | | | |]. Qed.

(** An ending other than the last line, for a run that is loaded. *)
Lemma main_result_loaded (w : World) (cfg : Config) (penv : gmap string string)
    (fuel : nat) (t0 : list Event) (xmlText : string) :
  fetchXmlText w penv (XML_URL cfg) = (t0, inr xmlText) ->
  xmlText <> EmptyString ->
  matchAll listingRegex xmlText <> [] ->
  let records := matchAll listingRegex xmlText in
  let sections := sectionsOf xmlText records in
  let loop := batchLoop w cfg penv records sections.1 sections.2 fuel 0 1 in
  result (main w cfg penv fuel)
  = match result (prepareDir w cfg) with
    | inl err => inr (Fatal err)
    | inr _ => (caught (afterLoop (result loop)).2).2
    end.
Proof.
  intros Hfetch Hne Hrec. cbv zeta.
  rewrite main_caught, (mainBody_loaded w cfg penv fuel t0 xmlText) by done.
  cbv zeta. by destruct (result (prepareDir w cfg)).
Qed.

(** X2. A run that reaches its last line has dealt with every record. When
    [main] ends with [Completed], with a positive batch size and fuel for
    every record, the feed was loaded, and the files written are, in this
    order, one for each group of the partition of its records, with the
    name and the text of that group; one prompt was shown for each group;
    the interface was closed once; and the groups put one after the other
    are the records of the feed. Nothing is assumed of the world. *)
Theorem completed_run_wrote_every_batch (w : World) (cfg : Config)
    (penv : gmap string string) (fuel : nat) :
  0 < BATCH_SIZE cfg ->
  (recordsFetched w cfg penv < fuel)%nat ->
  result (main w cfg penv fuel) = inr Completed ->
  exists t0 xmlText,
    fetchXmlText w penv (XML_URL cfg) = (t0, inr xmlText)
    /\ let records := matchAll listingRegex xmlText in
       let sections := sectionsOf xmlText records in
       let n := groupCount (BATCH_SIZE cfg) records in
       filesWritten (trace (main w cfg penv fuel))
       = (fun g => (fileNameOf (OUTPUT_DIR cfg) (Z.of_nat g + 1),
                    batchXmlOf sections.1 sections.2
                      (groupAt (BATCH_SIZE cfg) records g))) <$> seq 0 n
       /\ length (prompts (trace (main w cfg penv fuel))) = n
       /\ closes (trace (main w cfg penv fuel)) = [tt]
       /\ concat (groups (BATCH_SIZE cfg) records) = records.
Proof.
  intros HB. unfold recordsFetched.
  destruct (fetchXmlText w penv (XML_URL cfg)) as [t0 [err|xmlText]] eqn:Hfetch;
    cbn [result snd]; intros Hfuel Hdone.
  { by rewrite main_caught, (mainBody_unloaded w cfg penv _ t0 err) in Hdone. }
  destruct (decide (xmlText = EmptyString)) as [->|Hne].
  { by rewrite main_caught, (mainBody_empty w cfg penv _ t0) in Hdone. }
  destruct (decide (matchAll listingRegex xmlText = [])) as [Hnone|Hrec].
  { by rewrite main_caught, (mainBody_no_records w cfg penv _ t0 xmlText) in Hdone. }
  exists t0, xmlText. split; [reflexivity|]. cbv zeta.
  set (records := matchAll listingRegex xmlText) in *.
  set (sections := sectionsOf xmlText records).
  rewrite (main_result_loaded w cfg penv fuel t0 xmlText) in Hdone by done.
  cbv zeta in Hdone. fold records sections in Hdone.
  destruct (result (prepareDir w cfg)) as [err|[]] eqn:Hdir; [done|].
  set (loop := batchLoop w cfg penv records sections.1 sections.2 fuel 0 1) in *.
  assert (result loop = inr LoopDone) as Hloop
    by (destruct (result loop) as [err|[]]; done).
  destruct (batchLoop_done_steps w cfg penv records sections.1 sections.2 fuel
              HB Hfuel Hloop) as [Htrace Hsteps].
  fold loop in Htrace.
  assert (forall g, g ∈ seq 0 (groupCount (BATCH_SIZE cfg) records) ->
            writeError w (fileNameOf (OUTPUT_DIR cfg) (Z.of_nat g + 1))
              (batchXmlOf sections.1 sections.2
                 (groupAt (BATCH_SIZE cfg) records g)) = None) as Hw.
  { intros g Hg. apply (processBatch_done_inv w cfg penv _ _ _
                          (Z.of_nat g * BATCH_SIZE cfg)). by apply Hsteps. }
  split; [|split; [|split]].
  - unfold filesWritten.
    destruct (main_observed fileOf w cfg penv fuel t0 xmlText) as [-> _];
      try done; [apply setup_unseen_files|].
    fold records sections loop. rewrite Hloop, Htrace. cbn [afterLoop caught fst snd].
    simpl. rewrite !app_nil_r, omap_concat_fmap.
    etransitivity; [|apply concat_singletons].
    f_equal. apply list_fmap_ext. intros _ g Hg%list_elem_of_lookup_2.
    unfold batchStep. apply processBatch_done_files. by apply Hw.
  - unfold prompts.
    destruct (main_observed promptOf w cfg penv fuel t0 xmlText) as [-> _];
      try done; [apply setup_unseen_prompts|].
    fold records sections loop. rewrite Hloop, Htrace. cbn [afterLoop caught fst snd].
    simpl. rewrite !app_nil_r, omap_concat_fmap.
    rewrite length_concat_ones; [by rewrite length_seq|].
    intros g Hg. unfold batchStep.
    fold (prompts (trace (processBatch w cfg penv sections.1 sections.2
                            (groupAt (BATCH_SIZE cfg) records g)
                            (Z.of_nat g * BATCH_SIZE cfg) (Z.of_nat g + 1)))).
    rewrite processBatch_done_prompts; [reflexivity|by apply Hw].
  - unfold closes.
    destruct (main_observed
                (fun e => match e with CloseInterface => Some tt | _ => None end)
                w cfg penv fuel t0 xmlText) as [-> _];
      try done; [by intros [[]| | | | | | | | |]|].
    fold records sections loop. rewrite Hloop, Htrace. cbn [afterLoop caught fst snd].
    simpl. rewrite omap_concat_fmap.
    assert (concat ((fun g => omap
              (fun e => match e with CloseInterface => Some tt | _ => None end)
              (trace (batchStep w cfg penv records sections.1 sections.2 g)))
              <$> seq 0 (groupCount (BATCH_SIZE cfg) records)) = []) as ->;
      [|reflexivity].
    apply concat_nils. intros g. unfold batchStep.
    apply (processBatch_closes w).
  - unfold groups. by rewrite (concat_groups_from _ records _ 0).
Qed.

Lemma completed_run_wrote_every_batch_witness :
  length (filesWritten (trace (main demoWorld demoConfig ∅ 4))) = 2%nat.
Proof.
  destruct (completed_run_wrote_every_batch demoWorld demoConfig ∅ 4)
    as (t0 & xmlText & Hfetch & Hfiles & _);
    [simpl; lia|vm_compute; lia|reflexivity|].
  inversion Hfetch; subst. cbv zeta in Hfiles. rewrite Hfiles.
  by rewrite length_fmap, length_seq.
Defined.

(** ** A file that cannot be written *)

Lemma batchLoop_write_fails (w : World) (cfg : Config) (penv : gmap string string)
    (records : list string) (headerSection footerSection : string)
    (fuel g : nat) (err : JsError) :
  0 < BATCH_SIZE cfg ->
  (length records < fuel)%nat ->
  let step := batchStep w cfg penv records headerSection footerSection in
  let file g := fileNameOf (OUTPUT_DIR cfg) (Z.of_nat g + 1) in
  let text g := batchXmlOf headerSection footerSection
                  (groupAt (BATCH_SIZE cfg) records g) in
  (g < groupCount (BATCH_SIZE cfg) records)%nat ->
  (forall g', (g' < g)%nat -> writeError w (file g') (text g') = None) ->
  writeError w (file g) (text g) = Some err ->
  batchLoop w cfg penv records headerSection footerSection fuel 0 1
  = (concat ((fun g' => trace (step g')) <$> seq 0 g)
       ++ [WriteFileSync (file g) (text g)],
     inl err).
Proof.
  intros HB Hfuel. cbv zeta. cbv beta. intros Hg Hbefore Hfail.
  rewrite batchLoop_ended by done. cbv zeta.
  replace (seq 0 (groupCount (BATCH_SIZE cfg) records))
    with (seq 0 g ++ g :: seq (S g) (groupCount (BATCH_SIZE cfg) records - S g)).
  2:{ rewrite cons_seq, <- seq_app. f_equal. lia. }
  rewrite (forEach_stops (seq 0 g) _ g _
             [WriteFileSync (fileNameOf (OUTPUT_DIR cfg) (Z.of_nat g + 1))
                (batchXmlOf headerSection footerSection
                   (groupAt (BATCH_SIZE cfg) records g))] err);
    [reflexivity| |].
  - intros g' Hg'%elem_of_seq. unfold batchStep.
    apply processBatch_done, Hbefore. lia.
  - unfold batchStep. by apply processBatch_refused.
Qed.

(** X3. A file that cannot be written ends the run. When the feed is
    loaded and the directory is there, the files of the groups before the
    group g can be written and the file of the group g cannot, the run
    ends in the handler of fatal errors with the error of that write; the
    writes tried are those of the groups up to g, in order; a prompt was
    shown for the groups before g only; and the interface of the terminal
    is never closed. *)
Theorem write_failure_aborts_run (w : World) (cfg : Config)
    (penv : gmap string string) (fuel : nat) (t0 : list Event)
    (xmlText : string) (g : nat) (err : JsError) :
  let records := matchAll listingRegex xmlText in
  let sections := sectionsOf xmlText records in
  let file g := fileNameOf (OUTPUT_DIR cfg) (Z.of_nat g + 1) in
  let text g := batchXmlOf sections.1 sections.2
                  (groupAt (BATCH_SIZE cfg) records g) in
  0 < BATCH_SIZE cfg ->
  fetchXmlText w penv (XML_URL cfg) = (t0, inr xmlText) ->
  xmlText <> EmptyString ->
  result (prepareDir w cfg) = inr tt ->
  (length records < fuel)%nat ->
  (g < groupCount (BATCH_SIZE cfg) records)%nat ->
  (forall g', (g' < g)%nat -> writeError w (file g') (text g') = None) ->
  writeError w (file g) (text g) = Some err ->
  result (main w cfg penv fuel) = inr (Fatal err)
  /\ filesWritten (trace (main w cfg penv fuel))
     = (fun g' => (file g', text g')) <$> seq 0 (S g)
  /\ length (prompts (trace (main w cfg penv fuel))) = g
  /\ closes (trace (main w cfg penv fuel)) = [].
Proof.
  cbv zeta. intros HB Hfetch Hne Hdir Hfuel Hg Hbefore Hfail.
  set (records := matchAll listingRegex xmlText) in *.
  set (sections := sectionsOf xmlText records) in *.
  assert (records <> []) as Hrec.
  { intros E. rewrite E in Hg. unfold groupCount in Hg. simpl in Hg.
    rewrite Z.div_small in Hg by lia. simpl in Hg. lia. }
  pose proof (batchLoop_write_fails w cfg penv records sections.1 sections.2
                fuel g err HB Hfuel Hg Hbefore Hfail) as Hloop.
  cbv zeta in Hloop.
  assert (forall A (f : Event -> option A),
            (forall e, isSetup e = true -> f e = None) ->
            f CreateInterface = None ->
            (forall m, f (ConsoleError m) = None) ->
            omap f (trace (main w cfg penv fuel))
            = concat ((fun g' => omap f
                         (trace (batchStep w cfg penv records
                                   sections.1 sections.2 g'))) <$> seq 0 g)
              ++ omap f [WriteFileSync (fileNameOf (OUTPUT_DIR cfg) (Z.of_nat g + 1))
                           (batchXmlOf sections.1 sections.2
                              (groupAt (BATCH_SIZE cfg) records g))]) as Hobs.
  { intros A f Hsetup Hcreate Herror.
    destruct (main_observed f w cfg penv fuel t0 xmlText) as [-> _]; try done.
    fold records sections. rewrite Hloop. cbn [trace result fst snd afterLoop caught].
    rewrite omap_app, omap_concat_fmap. simpl. rewrite !Herror.
    by rewrite app_nil_r. }
  split; [|split; [|split]].
  - destruct (main_observed fileOf w cfg penv fuel t0 xmlText) as [_ ->];
      try done; [apply setup_unseen_files|].
    fold records sections. by rewrite Hloop.
  - unfold filesWritten. rewrite Hobs; [|apply setup_unseen_files|done|done].
    rewrite seq_S, fmap_app. simpl. f_equal.
    etransitivity; [|apply concat_singletons].
    f_equal. apply list_fmap_ext. intros _ g' Hg'%list_elem_of_lookup_2.
    apply elem_of_seq in Hg'. unfold batchStep.
    apply processBatch_done_files, Hbefore. lia.
  - unfold prompts. rewrite Hobs; [|apply setup_unseen_prompts|done|done].
    simpl. rewrite app_nil_r.
    rewrite length_concat_ones; [by rewrite length_seq|].
    intros g' Hg'%elem_of_seq. unfold batchStep.
    fold (prompts (trace (processBatch w cfg penv sections.1 sections.2
                            (groupAt (BATCH_SIZE cfg) records g')
                            (Z.of_nat g' * BATCH_SIZE cfg) (Z.of_nat g' + 1)))).
    rewrite processBatch_done_prompts; [reflexivity|apply Hbefore; lia].
  - unfold closes. rewrite Hobs; [|by intros [[]| | | | | | | | |]|done|done].
    simpl. rewrite app_nil_r. apply concat_nils. intros g'. unfold batchStep.
    apply (processBatch_closes w).
Qed.

Lemma write_failure_aborts_run_witness :
  result (main fullDiskWorld demoConfig ∅ 4) = inr (Fatal (Error "ENOSPC"))
  /\ length (prompts (trace (main fullDiskWorld demoConfig ∅ 4))) = 1%nat
  /\ closes (trace (main fullDiskWorld demoConfig ∅ 4)) = [].
Proof.
  destruct (write_failure_aborts_run fullDiskWorld demoConfig ∅ 4 [] demoFeed
              1 (Error "ENOSPC")) as (Hr & _ & Hp & Hc);
    [simpl; lia|reflexivity|done|reflexivity|vm_compute; lia|vm_compute; lia
    | |reflexivity|by repeat split].
  intros g' Hg'. assert (g' = 0%nat) as -> by lia. reflexivity.
Defined.

(** ** A source that cannot be used *)

Lemma fetchXmlText_shape (w : World) (penv : gmap string string)
    (urlOrPath : option string) (t0 : list Event) (r : JsError + string) :
  fetchXmlText w penv urlOrPath = (t0, r) ->
  t0 = [] \/
  t0 = [ConsoleLog (MsgDownloading urlOrPath);
        AxiosGet urlOrPath "PropertyBatcher/1.0" (penv !! tlsKey)].
Proof.
  unfold fetchXmlText, call.
  destruct (readFile w urlOrPath) as [[err|text]|]; intros Hf;
    [left; by inversion Hf|left; by inversion Hf|right].
  destruct (httpGet w urlOrPath); by inversion Hf.
Qed.

(** X4. A feed that cannot be loaded, or that is empty, ends the run in the
    handler of fatal errors before anything else is done: after the events
    of loading, the detail of the error and its stack are reported, and
    that is all; the ending carries the error ([XML vazio ou invalido] for
    an empty feed); no directory is made, no file is written, nothing is
    asked and nothing is submitted. *)
Theorem unusable_source_is_fatal (w : World) (cfg : Config)
    (penv : gmap string string) (fuel : nat) (t0 : list Event)
    (r : JsError + string) (err : JsError) :
  fetchXmlText w penv (XML_URL cfg) = (t0, r) ->
  sourceError r = Some err ->
  let run := main w cfg penv fuel in
  run = (ConsoleLog (MsgObtaining (XML_URL cfg)) :: t0 ++
           [ConsoleError (MsgFatal (fatalDetail err));
            ConsoleError (MsgStack (stack err))],
         inr (Fatal err))
  /\ filesWritten (trace run) = []
  /\ prompts (trace run) = []
  /\ submissions (trace run) = []
  /\ Forall (fun e => match e with MkdirSync _ => False | _ => True end)
       (trace run).
Proof.
  intros Hfetch Herr. cbv zeta.
  assert (main w cfg penv fuel
          = (ConsoleLog (MsgObtaining (XML_URL cfg)) :: t0 ++
               [ConsoleError (MsgFatal (fatalDetail err));
                ConsoleError (MsgStack (stack err))],
             inr (Fatal err))) as ->.
  { rewrite main_caught. destruct r as [e|[|c rest]]; inversion Herr; subst.
    - by rewrite (mainBody_unloaded w cfg penv fuel t0 err).
    - by rewrite (mainBody_empty w cfg penv fuel t0). }
  pose proof (fetchXmlText_setup w penv (XML_URL cfg)) as Hsetup.
  rewrite Hfetch in Hsetup. cbn [trace fst] in *.
  unfold filesWritten, prompts, submissions.
  change (?f (ConsoleLog (MsgObtaining (XML_URL cfg)) :: ?t))
    with (f ([ConsoleLog (MsgObtaining (XML_URL cfg))] ++ t)).
  rewrite !omap_app.
  rewrite (omap_unseen fileOf t0), (omap_unseen promptOf t0),
    (omap_unseen submissionOf t0);
    auto using setup_unseen_files, setup_unseen_prompts, setup_unseen_submissions.
  repeat split; try reflexivity.
  apply Forall_cons; split; [done|]. apply Forall_app; split.
  - destruct (fetchXmlText_shape _ _ _ _ _ Hfetch) as [->| ->];
      by repeat constructor.
  - by repeat constructor.
Qed.

Lemma unusable_source_is_fatal_witness :
  main offlineWorld demoConfig ∅ 1
  = ([ConsoleLog (MsgObtaining (Some "feed.xml"));
      ConsoleLog (MsgDownloading (Some "feed.xml"));
      AxiosGet (Some "feed.xml") "PropertyBatcher/1.0" None;
      ConsoleError (MsgFatal (DetailMessage "ENOTFOUND"));
      ConsoleError (MsgStack EmptyString)],
     inr (Fatal (Error "ENOTFOUND"))).
Proof.
  destruct (unusable_source_is_fatal offlineWorld demoConfig ∅ 1
              [ConsoleLog (MsgDownloading (Some "feed.xml"));
               AxiosGet (Some "feed.xml") "PropertyBatcher/1.0" None]
              (inl (Error "ENOTFOUND")) (Error "ENOTFOUND")) as [H _];
    [reflexivity|reflexivity|].
  exact H.
Defined.

(** ** The sizes of the batches and the ranges that are logged *)

Lemma groupAt_length (B : Z) (records : list string) (g : nat) :
  0 < B ->
  Z.of_nat (length (groupAt B records g))
  = Z.max 0 (Z.min B (Z.of_nat (length records) - Z.of_nat g * B)).
Proof.
  intros HB. rewrite groupAt_window by done.
  rewrite length_take, length_drop. nia.
Qed.

(** X5. When the loop has come to its end, with a positive batch size B and
    N records, the lines logged for the batches are, for each group g from
    0: the index g+1, the number of records min(B, N - g*B), the first
    index g*B + 1 and the last index min(g*B + B, N). Every batch holds at
    least one record and at most B, every batch but the last holds B, so
    that each range starts one after the end of the one before, and the
    last range ends at N. *)
Theorem batch_sizes_and_ranges (w : World) (cfg : Config)
    (penv : gmap string string) (records : list string)
    (headerSection footerSection : string) (fuel : nat) :
  let B := BATCH_SIZE cfg in
  let N := Z.of_nat (length records) in
  let n := groupCount B records in
  let loop := batchLoop w cfg penv records headerSection footerSection fuel 0 1 in
  0 < B ->
  (length records < fuel)%nat ->
  result loop = inr LoopDone ->
  saved (trace loop)
  = (fun g => (Z.of_nat g + 1, Z.min B (N - Z.of_nat g * B),
               Z.of_nat g * B + 1, Z.min (Z.of_nat g * B + B) N)) <$> seq 0 n
  /\ (forall g, (g < n)%nat -> 1 <= Z.min B (N - Z.of_nat g * B) <= B)
  /\ (forall g, (S g < n)%nat ->
        Z.min B (N - Z.of_nat g * B) = B
        /\ Z.min (Z.of_nat g * B + B) N + 1 = Z.of_nat (S g) * B + 1)
  /\ (forall g, S g = n -> Z.min (Z.of_nat g * B + B) N = N).
Proof.
  cbv zeta. intros HB Hfuel Hdone.
  pose proof (groupCount_bounds _ records HB) as (Hle & Hlt & H0).
  simpl in Hle, Hlt, H0.
  set (n := groupCount (BATCH_SIZE cfg) records) in *.
  set (N := Z.of_nat (length records)) in *.
  assert (forall g, (g < n)%nat -> Z.of_nat g * BATCH_SIZE cfg < N) as Hin.
  { intros g Hg. assert (0 < N) by lia. specialize (Hlt ltac:(done)). nia. }
  split; [|split; [|split]].
  - destruct (batchLoop_done_steps w cfg penv records headerSection
                footerSection fuel HB Hfuel Hdone) as [Htrace Hsteps].
    unfold saved. rewrite Htrace, omap_concat_fmap.
    etransitivity; [|apply concat_singletons].
    f_equal. apply list_fmap_ext. intros _ g Hg%list_elem_of_lookup_2.
    unfold batchStep.
    fold (saved (trace (processBatch w cfg penv headerSection footerSection
                          (groupAt (BATCH_SIZE cfg) records g)
                          (Z.of_nat g * BATCH_SIZE cfg) (Z.of_nat g + 1)))).
    rewrite processBatch_done_saved
      by (apply (processBatch_done_inv w cfg penv _ _ _
                   (Z.of_nat g * BATCH_SIZE cfg)); by apply Hsteps).
    apply elem_of_seq in Hg. specialize (Hin g ltac:(lia)).
    rewrite groupAt_length by done. fold N. repeat f_equal; lia.
  - intros g Hg. specialize (Hin g Hg). lia.
  - intros g Hg. assert (Z.of_nat (S g) * BATCH_SIZE cfg < N) by (apply Hin; lia).
    lia.
  - intros g Hg. assert (Z.of_nat n = Z.of_nat g + 1) by lia. nia.
Qed.

Lemma batch_sizes_and_ranges_witness :
  saved (trace (batchLoop demoWorld demoConfig ∅ demoRecords
                  "<Listings>" "</Listings>" 4 0 1))
  = [(1, 2, 1, 2); (2, 1, 3, 3)].
Proof.
  destruct (batch_sizes_and_ranges demoWorld demoConfig ∅ demoRecords
              "<Listings>" "</Listings>" 4) as [H _];
    [simpl; lia|simpl; lia|reflexivity|].
  rewrite H. reflexivity.
Defined.

(** ** Numerals: written by [String], read by [parseInt] *)

Lemma digit_cases (d : Z) :
  0 <= d < 10 ->
  d = 0 \/ d = 1 \/ d = 2 \/ d = 3 \/ d = 4 \/ d = 5 \/ d = 6 \/ d = 7
  \/ d = 8 \/ d = 9.
Proof. lia. Qed.

Lemma digitValue_digitChar (d : Z) :
  0 <= d < 10 -> digitValue (digitChar d) = Some d.
Proof.
  intros Hd. destruct (digit_cases d Hd) as [->|[->|[->|[->|[->|[->|[->|[->|[->| ->]]]]]]]]];
    reflexivity.
Qed.

Lemma readDigits_digit (d : Z) (s : string) (o : option Z) :
  0 <= d < 10 ->
  readDigits 10 (String (digitChar d) s) o
  = readDigits 10 s (Some (default 0 o * 10 + d)).
Proof.
  intros Hd. simpl. rewrite digitValue_digitChar by done.
  destruct (Z.ltb_spec d 10); [reflexivity|lia].
Qed.

(** Reading the digits that [posDigits] writes gives the number back. *)
Lemma readDigits_posDigits (fuel : nat) (n : Z) (acc rest : string)
    (o : option Z) :
  0 <= n < 10 ^ Z.of_nat (S fuel) ->
  default 0 o = 0 ->
  readDigits 10 (posDigits (S fuel) n acc +:+ rest) o
  = readDigits 10 (acc +:+ rest) (Some n).
Proof.
  revert n acc o. induction fuel as [|fuel IH]; intros n acc o Hn Ho.
  - assert (n < 10) as Hlt by (change (10 ^ Z.of_nat 1) with 10 in Hn; lia).
    assert (n / 10 = 0) as Hq by (apply Z.div_small; lia).
    assert (n mod 10 = n) as Hr by (apply Z.mod_small; lia).
    change (posDigits 1 n acc)
      with (let acc' := String (digitChar (n mod 10)) acc in
            if n / 10 =? 0 then acc' else acc').
    cbv zeta. rewrite Hq, Hr. change (0 =? 0) with true. cbv iota.
    change (String (digitChar n) acc +:+ rest)
      with (String (digitChar n) (acc +:+ rest)).
    rewrite readDigits_digit by lia. rewrite Ho. f_equal.
  - pose proof (Z.mod_pos_bound n 10 ltac:(lia)) as Hmod.
    pose proof (Z.div_mod n 10 ltac:(lia)) as Hdm.
    change (posDigits (S (S fuel)) n acc)
      with (let acc' := String (digitChar (n mod 10)) acc in
            if n / 10 =? 0 then acc' else posDigits (S fuel) (n / 10) acc').
    cbv zeta. destruct (Z.eqb_spec (n / 10) 0) as [Hq|Hq].
    + change (String (digitChar (n mod 10)) acc +:+ rest)
        with (String (digitChar (n mod 10)) (acc +:+ rest)).
      rewrite readDigits_digit by done. rewrite Ho. f_equal. f_equal. lia.
    + rewrite IH; [| |done].
      * change (String (digitChar (n mod 10)) acc +:+ rest)
          with (String (digitChar (n mod 10)) (acc +:+ rest)).
        rewrite readDigits_digit by done. simpl default. f_equal. f_equal. lia.
      * split; [apply Z.div_pos; lia|].
        apply Z.div_lt_upper_bound; [lia|].
        replace (Z.of_nat (S (S fuel))) with (Z.succ (Z.of_nat (S fuel))) in Hn
          by lia.
        rewrite Z.pow_succ_r in Hn by lia. lia.
Qed.

Lemma append_nil_r (s : string) : s +:+ EmptyString = s.
Proof.
  induction s as [|c s IH]; [reflexivity|].
  change (String c (s +:+ EmptyString) = String c s). by rewrite IH.
Qed.

Lemma readDigits_numberToString (n : Z) (rest : string) (o : option Z) :
  0 <= n ->
  default 0 o = 0 ->
  readDigits 10 (numberToString n +:+ rest) o = readDigits 10 rest (Some n).
Proof.
  intros Hn Ho. unfold numberToString.
  destruct (Z.ltb_spec n 0) as [?|_]; [lia|].
  rewrite readDigits_posDigits; [reflexivity| |done].
  split; [done|].
  pose proof (Z.pow_gt_lin_r 10 (Z.of_nat (S (Z.to_nat n))) ltac:(lia) ltac:(lia)).
  lia.
Qed.

Lemma readDigits_filler (k : nat) (s : string) (o : option Z) :
  default 0 o = 0 ->
  exists o', default 0 o' = 0 /\
    readDigits 10 (String.concat "" (replicate k "0") +:+ s) o
    = readDigits 10 s o'.
Proof.
  revert o. induction k as [|k IH]; intros o Ho; [by exists o|].
  destruct (IH (Some 0) eq_refl) as (o' & Ho' & E).
  exists o'. split; [done|]. rewrite <- E.
  destruct k as [|k].
  - change (readDigits 10 (String "0" s) o = readDigits 10 s (Some 0)).
    rewrite (readDigits_digit 0) by lia. by rewrite Ho.
  - change (String.concat "" (replicate (S (S k)) "0"))
      with ("0" +:+ "" +:+ String.concat "" (replicate (S k) "0")).
    change (("0" +:+ "" +:+ String.concat "" (replicate (S k) "0")) +:+ s)
      with (String "0" (String.concat "" (replicate (S k) "0") +:+ s)).
    rewrite (readDigits_digit 0) by lia. by rewrite Ho.
Qed.

(** The index of a batch is read back from the name of its file. *)
Lemma fileName_index (k : Z) :
  0 <= k ->
  readDigits 10 (padStart 3 "0" (numberToString k) +:+ ".xml") None = Some k.
Proof.
  intros Hk. unfold padStart. rewrite append_assoc.
  destruct (readDigits_filler (Z.to_nat (3 - strlen (numberToString k)))
              (numberToString k +:+ ".xml") None eq_refl) as (o' & Ho' & ->).
  by rewrite readDigits_numberToString.
Qed.

Lemma fileNameOf_inj (outputDir : Path) (k k' : Z) :
  0 <= k -> 0 <= k' ->
  fileNameOf outputDir k = fileNameOf outputDir k' -> k = k'.
Proof.
  intros Hk Hk' E. unfold fileNameOf, pathJoin in E.
  apply app_inv_head in E. inversion E as [E'].
  apply (inj (String.app EmptyString)) in E'.
  pose proof (fileName_index k Hk) as R. rewrite E', fileName_index in R by done.
  congruence.
Qed.

(** ** The names of the files *)

Lemma processBatch_files_always (w : World) (cfg : Config)
    (penv : gmap string string) (headerSection footerSection : string)
    (batchMatches : list string) (i loteIndex : Z) :
  filesWritten (trace (processBatch w cfg penv headerSection footerSection
                         batchMatches i loteIndex))
  = [(fileNameOf (OUTPUT_DIR cfg) loteIndex,
      batchXmlOf headerSection footerSection batchMatches)].
Proof.
  destruct (writeError w (fileNameOf (OUTPUT_DIR cfg) loteIndex)
              (batchXmlOf headerSection footerSection batchMatches))
    as [err|] eqn:Hw.
  - by rewrite (processBatch_refused _ _ _ _ _ _ _ _ err Hw).
  - by apply processBatch_done_files.
Qed.

(** The steps that a sequence takes are the first ones of its list. *)
Lemma forEach_prefix {A} (xs : list A) (body : A -> M unit) :
  exists k, trace (forEach xs body)
            = concat ((fun x => trace (body x)) <$> firstn k xs).
Proof.
  induction xs as [|x xs [k IH]]; [by exists 0%nat|].
  simpl forEach. rewrite bind_unfold.
  destruct (body x) as [t [err|[]]] eqn:Hx.
  - exists 1%nat. simpl. by rewrite Hx, app_nil_r.
  - exists (S k). simpl. rewrite Hx. unfold trace in *. simpl. by rewrite IH.
Qed.

(** X6. No file of a run is written twice. With a positive batch size, in
    every world, the names of the files that the loop writes are all
    different; this is so because the index of a batch can be read back
    from the name of its file, so that two indices with the same name are
    the same index. *)
Theorem file_names_are_distinct (w : World) (cfg : Config)
    (penv : gmap string string) (records : list string)
    (headerSection footerSection : string) (fuel : nat) :
  0 < BATCH_SIZE cfg ->
  (length records < fuel)%nat ->
  NoDup (filesWritten
           (trace (batchLoop w cfg penv records headerSection footerSection
                     fuel 0 1))).*1
  /\ (forall k, 0 <= k ->
        readDigits 10 (padStart 3 "0" (numberToString k) +:+ ".xml") None
        = Some k)
  /\ (forall k k', 0 <= k -> 0 <= k' ->
        fileNameOf (OUTPUT_DIR cfg) k = fileNameOf (OUTPUT_DIR cfg) k' -> k = k').
Proof.
  intros HB Hfuel. split; [|split; [apply fileName_index|apply fileNameOf_inj]].
  replace (trace (batchLoop w cfg penv records headerSection footerSection
                    fuel 0 1))
    with (trace (forEach (seq 0 (groupCount (BATCH_SIZE cfg) records))
                   (batchStep w cfg penv records headerSection footerSection)))
    by (by rewrite batchLoop_ended).
  destruct (forEach_prefix (seq 0 (groupCount (BATCH_SIZE cfg) records))
              (batchStep w cfg penv records headerSection footerSection))
    as [k Hk].
  rewrite Hk. unfold filesWritten.
  rewrite omap_concat_fmap.
  assert (concat ((fun g => omap fileOf
                     (trace (batchStep w cfg penv records headerSection
                               footerSection g)))
                  <$> firstn k (seq 0 (groupCount (BATCH_SIZE cfg) records)))
          = (fun g => (fileNameOf (OUTPUT_DIR cfg) (Z.of_nat g + 1),
                       batchXmlOf headerSection footerSection
                         (groupAt (BATCH_SIZE cfg) records g)))
            <$> firstn k (seq 0 (groupCount (BATCH_SIZE cfg) records))) as ->.
  { etransitivity; [|apply concat_singletons].
    f_equal. apply list_fmap_ext. intros _ g _.
    unfold batchStep. apply processBatch_files_always. }
  rewrite <- list_fmap_compose.
  apply NoDup_fmap_2_strong.
  - intros g g' _ _ E. simpl in E. apply fileNameOf_inj in E; lia.
  - rewrite take_seq. apply NoDup_seq.
Qed.

Lemma file_names_are_distinct_witness :
  NoDup (filesWritten
           (trace (batchLoop fullDiskWorld demoConfig ∅ demoRecords
                     "<Listings>" "</Listings>" 4 0 1))).*1.
Proof.
  apply (file_names_are_distinct fullDiskWorld demoConfig ∅ demoRecords
           "<Listings>" "</Listings>" 4); simpl; lia.
Defined.

(** ** The hint for the destination *)

Lemma posDigits_head (fuel : nat) (n : Z) (acc : string) :
  0 <= n ->
  exists d s, 0 <= d < 10 /\ posDigits (S fuel) n acc = String (digitChar d) s.
Proof.
  revert n acc. induction fuel as [|fuel IH]; intros n acc Hn;
    pose proof (Z.mod_pos_bound n 10 ltac:(lia)) as Hmod.
  - exists (n mod 10), acc. split; [done|]. simpl. by destruct (_ =? _).
  - change (posDigits (S (S fuel)) n acc)
      with (let acc' := String (digitChar (n mod 10)) acc in
            if n / 10 =? 0 then acc' else posDigits (S fuel) (n / 10) acc').
    cbv zeta. destruct (n / 10 =? 0); [by exists (n mod 10), acc|].
    apply IH. apply Z.div_pos; lia.
Qed.

Lemma parseInt_unsigned (d : Z) (s : string) :
  0 <= d < 10 ->
  parseInt (Some (String (digitChar d) s)) 10
  = match readDigits 10 (String (digitChar d) s) None with
    | None => NaN
    | Some v => Num (1 * v)
    end.
Proof.
  intros Hd.
  destruct (digit_cases d Hd) as [->|[->|[->|[->|[->|[->|[->|[->|[->| ->]]]]]]]]];
    reflexivity.
Qed.

Lemma parseInt_negative (t : string) :
  parseInt (Some ("-" +:+ t)) 10
  = match readDigits 10 t None with
    | None => NaN
    | Some v => Num (-1 * v)
    end.
Proof. reflexivity. Qed.

Lemma parseInt_numberToString (n : Z) :
  parseInt (Some (numberToString n)) 10 = Num n.
Proof.
  destruct (Z.lt_ge_cases n 0) as [Hneg|Hpos].
  - unfold numberToString. destruct (Z.ltb_spec n 0) as [_|?]; [|lia].
    rewrite parseInt_negative.
    destruct (Z.to_nat (Z.abs n)) as [|fuel] eqn:Hfuel; [lia|].
    rewrite <- (append_nil_r (posDigits (S fuel) (Z.abs n) EmptyString)).
    rewrite readDigits_posDigits; [simpl; f_equal; lia| |done].
    split; [lia|].
    pose proof (Z.pow_gt_lin_r 10 (Z.of_nat (S fuel)) ltac:(lia) ltac:(lia)).
    lia.
  - pose proof (readDigits_numberToString n EmptyString None Hpos eq_refl) as R.
    rewrite append_nil_r in R.
    unfold numberToString in *. destruct (Z.ltb_spec n 0) as [?|_]; [lia|].
    destruct (posDigits_head (Z.to_nat n) n EmptyString Hpos)
      as (d & s & Hd & Hs).
    rewrite Hs in *. rewrite parseInt_unsigned, R by done.
    simpl readDigits. f_equal. lia.
Qed.

(** X7. The hint is read as it was written. When the variable
    [PROCESSING_BATCH_SIZE] of the environment holds the decimal numeral of
    an integer n that a JavaScript number holds exactly, from
    [-maxSafeInteger] to [maxSafeInteger] (2^53 - 1), as [String] writes
    it, the constant of line 27 is the number n; the batch size of line 24
    is 130 all the same. Beyond that range [String] and [parseInt] of
    JavaScript round or change notation, and nothing is stated. *)
Theorem processing_batch_size_read_back (w : World) (n : Z) :
  - maxSafeInteger <= n <= maxSafeInteger ->
  env w !! "PROCESSING_BATCH_SIZE" = Some (numberToString n) ->
  PROCESSING_BATCH_SIZE (loadConfig w) = Some (Num n)
  /\ parseInt (Some (numberToString n)) 10 = Num n
  /\ BATCH_SIZE (loadConfig w) = 130.
Proof.
  intros _ Henv. split; [|split; [apply parseInt_numberToString
                                 |apply loadConfig_batch_size]].
  unfold loadConfig. cbn [PROCESSING_BATCH_SIZE]. rewrite Henv.
  rewrite parseInt_numberToString.
  assert (truthy (Some (numberToString n)) = true) as ->; [|reflexivity].
  unfold numberToString. destruct (Z.ltb_spec n 0) as [?|Hn]; [reflexivity|].
  by destruct (posDigits_head (Z.to_nat n) n EmptyString Hn) as (d & s & _ & ->).
Qed.

Lemma processing_batch_size_read_back_witness :
  PROCESSING_BATCH_SIZE (loadConfig hintWorld) = Some (Num 5).
Proof.
  apply (processing_batch_size_read_back hintWorld 5);
    [unfold maxSafeInteger; lia|by vm_compute].
Defined.

(** ** What is submitted *)

Section Submitted.

Variable w : World.
Variable cfg : Config.

Lemma submitted_nil : submitsWhatItWrote w cfg [].
Proof. intros before e after s Heq. by destruct before. Qed.

Lemma submitted_app (t1 t2 : list Event) :
  submitsWhatItWrote w cfg t1 -> submitsWhatItWrote w cfg t2 ->
  submitsWhatItWrote w cfg (t1 ++ t2).
Proof.
  intros H1 H2 before e after s Heq Hs.
  apply app_eq_app in Heq as [l [[-> Hl]|[-> Hl]]].
  - destruct l as [|e' l]; simpl in Hl.
    + destruct (H2 [] e after s) as (_ & p & Hlast & _); [by rewrite <- Hl|done|].
      discriminate Hlast.
    + inversion Hl; subst. by apply (H1 before e' l s).
  - destruct (H2 l e after s Hl Hs) as (Hwf & p & Hlast & Hok).
    split; [done|]. exists p. split; [|done].
    unfold filesWritten in *. by rewrite omap_app, last_app, Hlast.
Qed.

Lemma submitted_quiet (e : Event) :
  submissionOf e = None -> submitsWhatItWrote w cfg [e].
Proof.
  intros He before e' after s Heq Hs.
  destruct before as [|? [|? ?]]; inversion Heq; subst. by rewrite He in Hs.
Qed.

Lemma submitted_ret {A} (a : A) : submitsWhatItWrote w cfg (trace (mret a : M A)).
Proof. apply submitted_nil. Qed.

Lemma submitted_throw {A} (e : JsError) :
  submitsWhatItWrote w cfg (trace (throw e : M A)).
Proof. apply submitted_nil. Qed.

Lemma submitted_bind {A B} (m : M A) (k : A -> M B) :
  submitsWhatItWrote w cfg (trace m) ->
  (forall a, submitsWhatItWrote w cfg (trace (k a))) ->
  submitsWhatItWrote w cfg (trace (m ≫= k)).
Proof.
  intros Hm Hk. rewrite bind_unfold. destruct m as [t [e|a]]; [done|].
  apply submitted_app; [done|apply Hk].
Qed.

Lemma submitted_tryCatch {A} (m : M A) (h : JsError -> M A) :
  submitsWhatItWrote w cfg (trace m) ->
  (forall e, submitsWhatItWrote w cfg (trace (h e))) ->
  submitsWhatItWrote w cfg (trace (tryCatch m h)).
Proof.
  intros Hm Hh. rewrite tryCatch_unfold. destruct m as [t [e|a]]; [|done].
  apply submitted_app; [done|apply Hh].
Qed.

Lemma submitted_call {A} (e : Event) (answer : JsError + A) :
  submissionOf e = None -> submitsWhatItWrote w cfg (trace (call e answer)).
Proof.
  intros He. unfold call. apply submitted_bind; [by apply submitted_quiet|].
  intros _. destruct answer; apply submitted_nil.
Qed.

(** A submission that follows events among which the last file written is
    its own, and that only a message follows. *)
Lemma submitted_after_write (before0 : list Event) (p : Path) (s : Submission)
    (tls : option string) (closing : Event) :
  submissions before0 = [] ->
  last (filesWritten before0) = Some (p, xmlData (body s)) ->
  writeError w p (xmlData (body s)) = None ->
  wellFormedSubmission cfg s ->
  submissionOf closing = None ->
  submitsWhatItWrote w cfg
    (before0 ++ [AxiosPost (toUrl s) (body s) (withHeaders s) (within s) tls;
                 closing]).
Proof.
  intros Hnone Hlast Hok Hwf Hclosing before e after s' Heq Hs.
  apply app_eq_app in Heq as [l [[-> Hl]|[-> Hl]]].
  - destruct l as [|e' l]; simpl in Hl.
    + inversion Hl; subst. simpl in Hs. inversion Hs; subst.
      rewrite app_nil_r in Hlast. destruct s as [u b h t]. cbn in *. eauto.
    + inversion Hl; subst. unfold submissions in Hnone.
      rewrite omap_app in Hnone. apply app_eq_nil in Hnone as [_ Hnone].
      change (omap submissionOf (e' :: l))
        with (match submissionOf e' with
              | Some y => y :: omap submissionOf l
              | None => omap submissionOf l end) in Hnone.
      by rewrite Hs in Hnone.
  - destruct l as [|e1 [|e2 [|e3 l]]]; inversion Hl; subst.
    + simpl in Hs. inversion Hs; subst.
      rewrite app_nil_r. destruct s as [u b h t]. cbn in *. eauto.
    + by rewrite Hclosing in Hs.
Qed.

Variable penv : gmap string string.

Ltac submitted :=
  repeat first
    [ apply submitted_ret
    | apply submitted_throw
    | apply submitted_quiet; reflexivity
    | apply submitted_call; reflexivity
    | apply submitted_bind; [|intros ?]
    | apply submitted_tryCatch; [|intros ?] ].

Lemma processBatch_submitted (headerSection footerSection : string)
    (batchMatches : list string) (i loteIndex : Z) :
  submitsWhatItWrote w cfg
    (trace (processBatch w cfg penv headerSection footerSection
              batchMatches i loteIndex)).
Proof.
  set (fileName := fileNameOf (OUTPUT_DIR cfg) loteIndex).
  set (batchXml := batchXmlOf headerSection footerSection batchMatches).
  destruct (writeError w fileName batchXml) as [err|] eqn:Hw.
  { rewrite (processBatch_refused _ _ _ _ _ _ _ _ err Hw).
    by apply submitted_quiet. }
  unfold processBatch, orThrow, call, askQuestion.
  fold fileName batchXml. rewrite Hw.
  unfold mbind, mret, M_bind, M_ret, bind, ret, emit, throw, trace, result;
    cbn beta iota.
  destruct (confirmed _).
  - unfold send, call, tryCatch, mbind, mret, M_bind, M_ret, bind, ret, emit, throw;
      cbn beta iota zeta.
    set (s := {| toUrl := API_URL cfg;
                 body := {| xmlData := batchXml;
                            batchSize := PROCESSING_BATCH_SIZE cfg |};
                 withHeaders :=
                   if truthy (API_KEY cfg)
                   then <[ "Authorization" :=
                             "Bearer " +:+ default EmptyString (API_KEY cfg) ]>
                          {[ "Content-Type" := "application/json" ]}
                   else {[ "Content-Type" := "application/json" ]};
                 within := 120000 |}).
    assert (wellFormedSubmission cfg s) as Hwf.
    { unfold wellFormedSubmission, s. cbn [toUrl within body withHeaders batchSize].
      repeat split; by destruct (truthy (API_KEY cfg)). }
    destruct (httpPost w loteIndex) as [err|res]; cbn [fst snd app];
      match goal with
      | |- submitsWhatItWrote _ _ (?a :: ?b :: ?c :: ?d :: ?post :: ?tail) =>
          change (a :: b :: c :: d :: post :: tail)
            with ([a; b; c; d]
                  ++ [AxiosPost (toUrl s) (body s) (withHeaders s) (within s)
                        (penv !! tlsKey)]
                  ++ tail)
      end;
      by apply (submitted_after_write _ fileName s).
  - cbn [fst snd app].
    repeat match goal with
           | |- submitsWhatItWrote _ _ (?a :: ?t) =>
               apply (submitted_app [a] t); [by apply submitted_quiet|]
           end.
    apply submitted_nil.
Qed.

Lemma batchLoop_submitted (records : list string)
    (headerSection footerSection : string) (fuel : nat) (i loteIndex : Z) :
  submitsWhatItWrote w cfg
    (trace (batchLoop w cfg penv records headerSection footerSection
              fuel i loteIndex)).
Proof.
  revert i loteIndex. induction fuel as [|fuel IH]; intros i loteIndex.
  - apply submitted_nil.
  - simpl batchLoop. destruct (_ <? _); [|apply submitted_nil].
    apply submitted_bind; [apply processBatch_submitted|intros _; apply IH].
Qed.

Lemma main_submitted (fuel : nat) :
  submitsWhatItWrote w cfg (trace (main w cfg penv fuel)).
Proof.
  unfold main, mainBody. submitted.
  - unfold fetchXmlText. destruct (readFile _ _) as [[|]|]; submitted.
  - destruct (negb _); submitted.
    destruct (_ =? 0); submitted.
    + unfold wrapperSections. destruct (_ && _); submitted.
    + destruct (dirExists _ _); unfold orThrow; submitted.
    + apply batchLoop_submitted.
    + match goal with |- context [match ?s with LoopDone => _ | LoopRunning => _ end] =>
        destruct s end; submitted.
Qed.

End Submitted.

(** X8. What is submitted is what was just written. In every world and for
    every fuel, at every place of a run where a batch is submitted, the
    submission goes to the destination of the configuration with a time
    limit of 120000, carries the hint of the configuration, the content
    type of JSON, and the bearer credential exactly when a key that is not
    empty is configured; and its text is the text of the file that was
    written last before that place, by a write that did not fail. *)
Theorem submissions_carry_written_batches (w : World) (cfg : Config)
    (penv : gmap string string) (fuel : nat) (before after : list Event)
    (url : option string) (payload : Payload) (headers : gmap string string)
    (timeout : Z) (tls : option string) :
  trace (main w cfg penv fuel)
  = before ++ AxiosPost url payload headers timeout tls :: after ->
  url = API_URL cfg
  /\ timeout = 120000
  /\ batchSize payload = PROCESSING_BATCH_SIZE cfg
  /\ headers !! "Content-Type" = Some "application/json"
  /\ headers !! "Authorization"
     = (if truthy (API_KEY cfg)
        then Some ("Bearer " +:+ default EmptyString (API_KEY cfg))
        else None)
  /\ exists p, last (filesWritten before) = Some (p, xmlData payload)
               /\ writeError w p (xmlData payload) = None.
Proof.
  intros Heq.
  destruct (main_submitted w cfg penv fuel before _ after _ Heq eq_refl)
    as [Hwf Hfile].
  unfold wellFormedSubmission in Hwf.
  cbn [toUrl within body withHeaders] in Hwf, Hfile. tauto.
Qed.

Lemma submissions_carry_written_batches_witness :
  let run := main demoWorld demoConfig ∅ 4 in
  let text := batchXmlOf "<Listings ver='1'>" "</Listings>"
                ["<Listing>A</Listing>"; "<Listing>B</Listing>"] in
  exists p, last (filesWritten (take 8 (trace run))) = Some (p, text)
            /\ writeError demoWorld p text = None.
Proof.
  cbv zeta.
  destruct (submissions_carry_written_batches demoWorld demoConfig ∅ 4
              (take 8 (trace (main demoWorld demoConfig ∅ 4)))
              (drop 9 (trace (main demoWorld demoConfig ∅ 4)))
              (Some "https://api.test/import")
              {| xmlData := batchXmlOf "<Listings ver='1'>" "</Listings>"
                              ["<Listing>A</Listing>"; "<Listing>B</Listing>"];
                 batchSize := None |}
              {[ "Content-Type" := "application/json" ]} 120000 None)
    as (_ & _ & _ & _ & _ & H); [by vm_compute|exact H].
Defined.

(** ** The records that the pattern finds *)

Lemma dropStr_dropStr (a b : nat) (t : string) :
  dropStr a (dropStr b t) = dropStr (b + a) t.
Proof.
  revert t. induction b as [|b IH]; intros [|c t]; simpl; try reflexivity.
  - by destruct a.
  - apply IH.
Qed.

Lemma startsWith_refl (s : string) : startsWith s s = true.
Proof.
  induction s as [|c s IH]; [reflexivity|]. simpl. by rewrite Z.eqb_refl, IH.
Qed.

(** Every match found comes from a match of the pattern at its index. *)
Lemma execAll_elem (rx : Pattern) (s : string) (pos skip : nat)
    (p : nat) (m : string) :
  (p, m) ∈ execAll rx s pos skip ->
  exists q len, p = (pos + q)%nat /\ (q < String.length s)%nat
                /\ rx (dropStr q s) = Some len
                /\ m = takeStr len (dropStr q s).
Proof.
  revert pos skip. induction s as [|c s IH]; intros pos skip Hin;
    [by apply elem_of_nil in Hin|].
  assert (forall k, (p, m) ∈ execAll rx s (S pos) k ->
            exists q len, p = (pos + q)%nat /\ (q < String.length (String c s))%nat
                          /\ rx (dropStr q (String c s)) = Some len
                          /\ m = takeStr len (dropStr q (String c s))) as Hrest.
  { intros k Hk. destruct (IH _ _ Hk) as (q & len & -> & Hq & Hrx & ->).
    exists (S q), len. simpl. repeat split; [lia|lia|done]. }
  simpl in Hin. destruct skip as [|k]; [|by eapply Hrest].
  destruct (rx (String c s)) as [len|] eqn:Hrx; [|by eapply Hrest].
  apply elem_of_cons in Hin as [Heq|Hin]; [|by eapply Hrest].
  inversion Heq; subst. exists 0%nat, len. simpl. repeat split; [lia|lia|done].
Qed.

Lemma inOrderFrom_earlier (bound bound' : nat) (found : list (nat * string)) :
  (bound' <= bound)%nat -> inOrderFrom bound found -> inOrderFrom bound' found.
Proof. destruct found as [|[p m] rest]; [done|]. simpl. intros ? [? ?]. split; [lia|done]. Qed.

Lemma execAll_inOrder (rx : Pattern) (s : string) (pos skip : nat) :
  inOrderFrom (pos + skip) (execAll rx s pos skip).
Proof.
  revert pos skip. induction s as [|c s IH]; intros pos skip; [done|].
  simpl. destruct skip as [|k].
  - destruct (rx (String c s)) as [len|].
    + split; [lia|].
      apply (inOrderFrom_earlier (S pos + pred len)); [|apply IH].
      pose proof (takeStr_length len (String c s)). lia.
    + apply (inOrderFrom_earlier (S pos + 0)); [lia|apply IH].
  - apply (inOrderFrom_earlier (S pos + k)); [lia|apply IH].
Qed.

(** What a match of the record pattern is made of: an opening tag, and the
    first closing tag after it, with which the match ends. *)
Lemma listingRegex_shape (t : string) (len : nat) :
  listingRegex t = Some len ->
  (19 <= len <= String.length t)%nat
  /\ startsWithCI "<Listing" t = true
  /\ boundaryAfterWord (dropStr 8 t) = true
  /\ startsWithCI "</Listing>" (dropStr (len - 10) t) = true
  /\ exists a, openTag "Listing" t = Some a
       /\ (9 <= a)%nat /\ (a + 10 <= len)%nat
       /\ forall q, (a <= q < len - 10)%nat ->
            startsWithCI "</Listing>" (dropStr q t) = false.
Proof.
  unfold listingRegex. intros Hrx.
  destruct (openTag "Listing" t) as [a|] eqn:Hopen; [|discriminate].
  destruct (findFirst (startsWithCI "</Listing>") (dropStr a t))
    as [k|] eqn:Hk; [|discriminate].
  assert ((a + k + 10)%nat = len) as Hlen
    by (cbn [fmap option_fmap option_map] in Hrx; congruence).
  clear Hrx. unfold openTag in Hopen.
  set (lt := "<" +:+ "Listing") in *.
  destruct (startsWithCI lt t && boundaryAfterWord (dropStr (String.length lt) t))
    eqn:Hhead; [|discriminate].
  apply andb_true_iff in Hhead as [Hlt Hb].
  destruct (findFirst (startsWith ">") (dropStr (String.length lt) t))
    as [j|] eqn:Hj; [|discriminate].
  assert ((String.length lt + j + 1)%nat = a) as Ha
    by (cbn [fmap option_fmap option_map] in Hopen; congruence).
  clear Hopen. change (String.length lt) with 8%nat in *.
  destruct (findFirst_Some _ _ _ Hj) as (Hgt & _ & _).
  destruct (findFirst_Some _ _ _ Hk) as (Hclose & _ & Hnone).
  pose proof (startsWith_length _ _ Hgt) as Lgt.
  pose proof (startsWithCI_length _ _ Hclose) as Lclose.
  rewrite !length_dropStr in Lgt, Lclose. simpl String.length in Lgt, Lclose.
  rewrite dropStr_dropStr in Hclose.
  repeat split; try done; try lia.
  - by replace (len - 10)%nat with (a + k)%nat by lia.
  - exists a. repeat split; try lia.
    intros q Hq. specialize (Hnone (q - a)%nat ltac:(lia)).
    rewrite dropStr_dropStr in Hnone.
    by replace (a + (q - a))%nat with q in Hnone by lia.
Qed.

(** X9. The records are whole blocks of the feed, in the order of the feed.
    Every match of the record pattern stands in the feed at its index and
    within it; taken alone it is matched by the pattern again, as a whole;
    it begins with the opening of a record tag and ends with the closing
    tag, whatever the case of the letters, and is at least 19 characters
    long; and the matches follow one another without overlap. *)
Theorem records_are_whole_blocks (xmlText : string) :
  let found := execAll listingRegex xmlText 0 0 in
  matchAll listingRegex xmlText = found.*2
  /\ inOrderFrom 0 found
  /\ forall p m, (p, m) ∈ found ->
       (p + String.length m <= String.length xmlText)%nat
       /\ m = takeStr (String.length m) (dropStr p xmlText)
       /\ listingRegex m = Some (String.length m)
       /\ (19 <= String.length m)%nat
       /\ startsWithCI "<Listing" m = true
       /\ startsWithCI "</Listing>" (dropStr (String.length m - 10) m) = true.
Proof.
  cbv zeta. split; [reflexivity|]. split; [apply (execAll_inOrder _ _ 0 0)|].
  intros p m Hin.
  destruct (execAll_elem _ _ _ _ _ _ Hin) as (q & len & -> & Hq & Hrx & Hm).
  simpl Nat.add.
  destruct (listingRegex_shape _ _ Hrx) as ((Hmin & Hfit) & _).
  rewrite length_dropStr in Hfit.
  assert (String.length m = len) as Hlen
    by (rewrite Hm, takeStr_length, length_dropStr; lia).
  assert (listingRegex m = Some len) as Hagain.
  { apply (listingRegex_again _ _ _ Hrx). rewrite <- Hm. apply startsWith_refl. }
  destruct (listingRegex_shape _ _ Hagain) as (_ & Hopen & _ & Hclose & _).
  rewrite Hlen. repeat split; try done; lia.
Qed.

Lemma eqCI_s_word (c : ascii) : eqCI "s" c = true -> isWordChar c = true.
Proof.
  destruct c as [[] [] [] [] [] [] [] []]; intros H;
    try reflexivity; by vm_compute in H.
Qed.

Lemma container_tag_boundary (t : string) :
  startsWithCI "<Listings" t = true -> boundaryAfterWord (dropStr 8 t) = false.
Proof.
  intros H.
  destruct t as [|c0 [|c1 [|c2 [|c3 [|c4 [|c5 [|c6 [|c7 [|c8 t]]]]]]]]];
    try discriminate H;
    cbn [startsWithCI] in H;
    repeat (apply andb_true_iff in H as [? H]); try discriminate.
  cbn [dropStr boundaryAfterWord].
  match goal with Hs : eqCI "s" c8 = true |- _ =>
    by rewrite (eqCI_s_word c8 Hs) end.
Qed.

(** X10. The tag of the container is never taken for a record. Where the
    text begins with the opening of the container tag, in any case of
    letters, the record pattern does not match; so no record of a feed
    starts at such a place, and a feed that holds the container and no
    record gives no match at its container tag. *)
Theorem container_tag_is_no_record (xmlText : string) (p : nat) (m : string) :
  (p, m) ∈ execAll listingRegex xmlText 0 0 ->
  startsWithCI "<Listings" (dropStr p xmlText) = false
  /\ boundaryAfterWord (dropStr 8 (dropStr p xmlText)) = true
  /\ forall t, startsWithCI "<Listings" t = true -> listingRegex t = None.
Proof.
  intros Hin.
  assert (forall t, startsWithCI "<Listings" t = true -> listingRegex t = None)
    as Hnone.
  { intros t Ht. destruct (listingRegex t) as [len|] eqn:Hrx; [|reflexivity].
    destruct (listingRegex_shape _ _ Hrx) as (_ & _ & Hb & _).
    by rewrite (container_tag_boundary t Ht) in Hb. }
  destruct (execAll_elem _ _ _ _ _ _ Hin) as (q & len & -> & Hq & Hrx & Hm).
  simpl Nat.add.
  destruct (listingRegex_shape _ _ Hrx) as (_ & _ & Hb & _).
  split; [|by split].
  destruct (startsWithCI "<Listings" (dropStr q xmlText)) eqn:Hc; [|reflexivity].
  by rewrite (Hnone _ Hc) in Hrx.
Qed.

Lemma container_tag_is_no_record_witness :
  startsWithCI "<Listings" (dropStr 18 demoFeed) = false
  /\ listingRegex demoFeed = None.
Proof.
  destruct (container_tag_is_no_record demoFeed 18 "<Listing>A</Listing>")
    as (H & _ & Hnone); [vm_compute; by left|].
  split; [exact H|]. by apply Hnone.
Defined.

(** X11. A record ends at the first closing tag after its opening tag. In
    the text of every record found, the opening tag is matched at the
    start, and between its end and the closing tag at the end of the
    record no closing tag begins: a record that holds another opening tag
    of the same name is cut at the first closing tag. *)
Theorem records_end_at_first_closing_tag (xmlText : string) (p : nat)
    (m : string) :
  (p, m) ∈ execAll listingRegex xmlText 0 0 ->
  exists a, openTag "Listing" m = Some a
    /\ (9 <= a)%nat /\ (a + 10 <= String.length m)%nat
    /\ startsWithCI "</Listing>" (dropStr (String.length m - 10) m) = true
    /\ forall q, (a <= q < String.length m - 10)%nat ->
         startsWithCI "</Listing>" (dropStr q m) = false.
Proof.
  intros Hin.
  destruct (execAll_elem _ _ _ _ _ _ Hin) as (q & len & -> & Hq & Hrx & Hm).
  destruct (listingRegex_shape _ _ Hrx) as ((Hmin & Hfit) & _).
  assert (String.length m = len) as Hlen by (rewrite Hm, takeStr_length; lia).
  assert (listingRegex m = Some len) as Hagain.
  { apply (listingRegex_again _ _ _ Hrx). rewrite <- Hm. apply startsWith_refl. }
  destruct (listingRegex_shape _ _ Hagain)
    as (_ & _ & _ & Hclose & a & Ha & Ha9 & Hfits & Hnone).
  exists a. rewrite Hlen. by repeat split.
Qed.

Lemma records_end_at_first_closing_tag_witness :
  let nested := "<Listing>A<Listing>B</Listing></Listing>" in
  matchAll listingRegex nested = ["<Listing>A<Listing>B</Listing>"]
  /\ exists a, openTag "Listing" "<Listing>A<Listing>B</Listing>" = Some a
       /\ forall q, (a <= q < 30 - 10)%nat ->
            startsWithCI "</Listing>"
              (dropStr q "<Listing>A<Listing>B</Listing>") = false.
Proof.
  cbv zeta. split; [reflexivity|].
  destruct (records_end_at_first_closing_tag
              "<Listing>A<Listing>B</Listing></Listing>" 0
              "<Listing>A<Listing>B</Listing>")
    as (a & Ha & _ & _ & _ & Hnone); [vm_compute; by left|].
  exists a. by split.
Defined.

(** ** The wrapper of a feed that holds the container *)

Lemma eqCI_gt (a : ascii) : eqCI a ">" = (code (canonicalize a) =? 62).
Proof. reflexivity. Qed.

(** The first [>] of a text that begins as a pattern without [>] lies
    after the part that the pattern matches. *)
Lemma findFirst_gt_after (pattern t : string) :
  avoidsGt pattern = true ->
  startsWithCI pattern t = true ->
  findFirst (startsWith ">") t
  = (fun k => (String.length pattern + k)%nat)
    <$> findFirst (startsWith ">") (dropStr (String.length pattern) t).
Proof.
  revert t. induction pattern as [|a pattern IH]; intros t Havoid Hstart.
  - simpl. by destruct (findFirst _ t).
  - destruct t as [|c t]; [discriminate|].
    simpl in Havoid, Hstart.
    apply andb_true_iff in Havoid as [Ha Havoid].
    apply andb_true_iff in Hstart as [Hc Hstart].
    simpl String.length. cbn [dropStr].
    change (findFirst (startsWith ">") (String c t))
      with (if startsWith ">" (String c t) then Some 0%nat
            else S <$> findFirst (startsWith ">") t).
    assert (startsWith ">" (String c t) = false) as ->.
    { change (startsWith ">" (String c t)) with ((code ">" =? code c) && true).
      destruct (Z.eqb_spec (code ">") (code c)) as [E|]; [|reflexivity].
      apply code_inj in E. subst c. rewrite eqCI_gt in Hc.
      by rewrite Hc in Ha. }
    rewrite (IH t) by done.
    by destruct (findFirst (startsWith ">") (dropStr (String.length pattern) t)).
Qed.

Lemma test_Some (rx : Pattern) (xmlText : string) :
  test rx xmlText = true ->
  exists p len, findFirst (matchesAt rx) xmlText = Some p
                /\ (p <= String.length xmlText)%nat
                /\ rx (dropStr p xmlText) = Some len
                /\ search rx xmlText = Z.of_nat p.
Proof.
  unfold test, search. destruct (findFirst _ _) as [p|] eqn:Hp; [|discriminate].
  intros _. destruct (findFirst_Some _ _ _ Hp) as (Hat & Hle & _).
  unfold matchesAt in Hat. destruct (rx (dropStr p xmlText)) as [len|] eqn:Hrx;
    [|discriminate].
  by exists p, len.
Qed.

Lemma indexOfFrom_inside (needle : string) (p k : nat) (xmlText : string) :
  (p <= String.length xmlText)%nat ->
  findFirst (startsWith needle) (dropStr p xmlText) = Some k ->
  indexOfFrom needle (Z.of_nat p) xmlText = Z.of_nat (p + k).
Proof.
  intros Hp Hk. unfold indexOfFrom, strlen.
  rewrite Z.max_l, Z.min_l, Nat2Z.id by lia. by rewrite Hk.
Qed.

Lemma takeStr_add (a b : nat) (t : string) :
  takeStr (a + b) t = takeStr a t +:+ takeStr b (dropStr a t).
Proof.
  revert t. induction a as [|a IH]; intros [|c t]; try reflexivity.
  - by destruct b.
  - change (String c (takeStr (a + b) t)
            = String c (takeStr a t +:+ takeStr b (dropStr a t))).
    by rewrite IH.
Qed.

(** X12. The wrapper of a feed that holds the container. When the opening
    tag and the closing tag of the container are both found, nothing is
    logged, the header is the feed up to the end of the first opening tag,
    its closing sign included, and the footer is the feed from the first
    closing tag on; so the header is a start of the feed and ends with the
    opening tag, and the footer is an end of the feed and begins with the
    closing tag. *)
Theorem wrapper_of_a_contained_feed (xmlText : string)
    (listingMatches : list string) :
  test (openTag "Listings") xmlText = true ->
  test closeListings xmlText = true ->
  exists p len c,
    findFirst (matchesAt (openTag "Listings")) xmlText = Some p
    /\ openTag "Listings" (dropStr p xmlText) = Some len
    /\ findFirst (matchesAt closeListings) xmlText = Some c
    /\ wrapperSections xmlText listingMatches
       = ([], inr (takeStr (p + len) xmlText, dropStr c xmlText))
    /\ (p + len <= String.length xmlText)%nat
    /\ takeStr (p + len) xmlText
       = takeStr p xmlText +:+ takeStr len (dropStr p xmlText)
    /\ takeStr (p + len) xmlText +:+ dropStr (p + len) xmlText = xmlText
    /\ takeStr c xmlText +:+ dropStr c xmlText = xmlText
    /\ startsWithCI "</Listings>" (dropStr c xmlText) = true.
Proof.
  intros Hopen Hclose.
  destruct (test_Some _ _ Hopen) as (p & len & Hp & Hple & Hrx & Hsearch).
  destruct (test_Some _ _ Hclose) as (c & lenc & Hc & Hcle & Hrxc & Hsearchc).
  exists p, len, c.
  assert (exists j, findFirst (startsWith ">") (dropStr 9 (dropStr p xmlText)) = Some j
                    /\ len = (9 + j + 1)%nat
                    /\ startsWithCI "<Listings" (dropStr p xmlText) = true)
    as (j & Hj & Hlen & Hstart).
  { unfold openTag in Hrx. set (lt := "<" +:+ "Listings") in *.
    change (String.length lt) with 9%nat in *.
    destruct (startsWithCI lt (dropStr p xmlText)
              && boundaryAfterWord (dropStr 9 (dropStr p xmlText))) eqn:Hhead;
      [|discriminate].
    apply andb_true_iff in Hhead as [Hlt _].
    destruct (findFirst (startsWith ">") (dropStr 9 (dropStr p xmlText)))
      as [j|]; [|discriminate].
    exists j. repeat split; [|done].
    cbn [fmap option_fmap option_map] in Hrx. congruence. }
  pose proof (findFirst_gt_after "<Listings" (dropStr p xmlText) eq_refl Hstart)
    as Hgt.
  change (String.length "<Listings") with 9%nat in Hgt. rewrite Hj in Hgt.
  cbn [fmap option_fmap option_map] in Hgt.
  destruct (findFirst_Some _ _ _ Hj) as (Hat & _ & _).
  apply startsWith_length in Hat. rewrite !length_dropStr in Hat.
  simpl String.length in Hat.
  assert (p + len <= String.length xmlText)%nat as Hfit by lia.
  assert (startsWithCI "</Listings>" (dropStr c xmlText) = true) as Hfooter.
  { unfold closeListings in Hrxc. by destruct (startsWithCI _ _). }
  repeat split; try done.
  - unfold wrapperSections. rewrite Hopen, Hclose. cbn [andb].
    rewrite Hsearch, Hsearchc.
    rewrite (indexOfFrom_inside ">" p (9 + j) xmlText Hple Hgt).
    replace (Z.of_nat (p + (9 + j)) + 1) with (Z.of_nat (p + len)) by lia.
    by rewrite slice_head, sliceFrom_tail.
  - apply takeStr_add.
  - apply takeStr_dropStr.
  - apply takeStr_dropStr.
Qed.

Lemma wrapper_of_a_contained_feed_witness :
  wrapperSections demoFeed demoRecords
  = ([], inr ("<Listings ver='1'>", "</Listings>")).
Proof.
  destruct (wrapper_of_a_contained_feed demoFeed demoRecords)
    as (p & len & c & Hp & Hlen & Hc & Hw & _); [reflexivity|reflexivity|].
  vm_compute in Hp. inversion Hp; subst p.
  vm_compute in Hlen. inversion Hlen; subst len.
  vm_compute in Hc. inversion Hc; subst c.
  rewrite Hw. reflexivity.
Defined.

(** ** The answer of the operator *)

Lemma trimStart_white (pre s : string) :
  allWhiteSpace pre = true -> trimStart (pre +:+ s) = trimStart s.
Proof.
  induction pre as [|c pre IH]; [reflexivity|]. simpl.
  intros [Hc Hpre]%andb_true_iff.
  change (String c pre +:+ s) with (String c (pre +:+ s)). simpl.
  rewrite Hc. by apply IH.
Qed.

Lemma trimEnd_white (post : string) :
  allWhiteSpace post = true -> trimEnd post = EmptyString.
Proof.
  induction post as [|c post IH]; [reflexivity|]. simpl.
  intros [Hc Hpost]%andb_true_iff. by rewrite IH, Hc.
Qed.

Lemma trimEnd_append (s post : string) :
  allWhiteSpace post = true -> trimEnd (s +:+ post) = trimEnd s.
Proof.
  intros Hpost. induction s as [|c s IH]; [by apply trimEnd_white|].
  change (String c s +:+ post) with (String c (s +:+ post)). simpl.
  by rewrite IH.
Qed.

Lemma trim_append (line post : string) :
  allWhiteSpace post = true -> trim (line +:+ post) = trim line.
Proof.
  intros Hpost. unfold trim. induction line as [|c line IH].
  - change (EmptyString +:+ post) with post.
    assert (trimStart post = EmptyString) as ->; [|reflexivity].
    induction post as [|c post IH]; [reflexivity|].
    simpl in *. apply andb_true_iff in Hpost as [Hc Hpost].
    rewrite Hc. by apply IH.
  - change (String c line +:+ post) with (String c (line +:+ post)).
    simpl trimStart. destruct (isWhiteSpace c); [exact IH|].
    change (String c (line +:+ post)) with (String c line +:+ post).
    by apply trimEnd_append.
Qed.

(** X13. White space around the answer does not count. For every typed
    line, white space put before it and after it changes neither the
    answer that [askQuestion] resolves to nor, then, whether the batch is
    sent. *)
Theorem answer_ignores_surrounding_white_space (pre line post : string) :
  allWhiteSpace pre = true ->
  allWhiteSpace post = true ->
  toLowerCase (trim (pre +:+ line +:+ post)) = toLowerCase (trim line)
  /\ confirmed (toLowerCase (trim (pre +:+ line +:+ post)))
     = confirmed (toLowerCase (trim line)).
Proof.
  intros Hpre Hpost.
  assert (trim (pre +:+ line +:+ post) = trim line) as ->; [|done].
  unfold trim. rewrite trimStart_white by done. by apply trim_append.
Qed.

Lemma answer_ignores_surrounding_white_space_witness :
  confirmed (toLowerCase (trim ("  " +:+ "SIM" +:+ (" " +:+ nl)))) = true.
Proof.
  destruct (answer_ignores_surrounding_white_space "  " "SIM" (" " +:+ nl))
    as [_ ->]; reflexivity.
Defined.

(** ** The source is read or downloaded *)

Lemma fetchXmlText_downloads (w : World) (penv : gmap string string)
    (urlOrPath : option string) :
  downloads (trace (fetchXmlText w penv urlOrPath))
  = match readFile w urlOrPath with
    | Some _ => []
    | None => [(urlOrPath, "PropertyBatcher/1.0")]
    end.
Proof.
  unfold fetchXmlText, call.
  destruct (readFile w urlOrPath) as [[err|text]|]; try reflexivity.
  by destruct (httpGet w urlOrPath).
Qed.

Section NoDownload.

Variable w : World.
Variable cfg : Config.
Variable penv : gmap string string.

Let quiet (e : Event) : Prop := downloadOf e = None.

Ltac quietly :=
  repeat first
    [ apply traced_ret
    | apply traced_throw
    | apply traced_emit; reflexivity
    | apply traced_call; reflexivity
    | apply traced_bind; [|intros ?]
    | apply traced_tryCatch; [|intros ?] ].

Lemma batchLoop_no_download (records : list string)
    (headerSection footerSection : string) (fuel : nat) (i loteIndex : Z) :
  Forall quiet (trace (batchLoop w cfg penv records headerSection footerSection
                         fuel i loteIndex)).
Proof.
  revert i loteIndex. induction fuel as [|fuel IH]; intros i loteIndex.
  - apply traced_ret.
  - simpl batchLoop. destruct (_ <? _); [|apply traced_ret].
    apply traced_bind; [|intros _; apply IH].
    unfold iteration, processBatch, orThrow, askQuestion. quietly.
    destruct (confirmed _); unfold send; quietly.
Qed.

Lemma downloads_none (t : list Event) : Forall quiet t -> downloads t = [].
Proof.
  intros Ht. induction Ht as [|e t He _ IH]; [reflexivity|].
  unfold downloads in *.
  change (omap downloadOf (e :: t))
    with (match downloadOf e with
          | Some y => y :: omap downloadOf t | None => omap downloadOf t end).
  by rewrite He.
Qed.

End NoDownload.

(** X14. The source is read from the disk or downloaded once. In every
    world and for every fuel, a run makes no download when the source is a
    file that is there, and otherwise exactly one, of the configured
    source and under the agent name [PropertyBatcher/1.0]. *)
Theorem source_read_or_downloaded_once (w : World) (cfg : Config)
    (penv : gmap string string) (fuel : nat) :
  downloads (trace (main w cfg penv fuel))
  = match readFile w (XML_URL cfg) with
    | Some _ => []
    | None => [(XML_URL cfg, "PropertyBatcher/1.0")]
    end.
Proof.
  rewrite <- (fetchXmlText_downloads w penv).
  assert (forall t0 tail,
            Forall (fun e => downloadOf e = None) tail ->
            downloads (ConsoleLog (MsgObtaining (XML_URL cfg)) :: t0 ++ tail)
            = downloads t0) as Hcut.
  { intros t0 tail Htail. unfold downloads.
    change (omap downloadOf (ConsoleLog (MsgObtaining (XML_URL cfg)) :: ?t))
      with (omap downloadOf t).
    rewrite omap_app. fold (downloads tail).
    by rewrite (downloads_none tail Htail), app_nil_r. }
  rewrite main_caught.
  destruct (fetchXmlText w penv (XML_URL cfg)) as [t0 [err|xmlText]] eqn:Hfetch;
    cbn [trace fst].
  { rewrite (mainBody_unloaded w cfg penv fuel t0 err) by done.
    cbn [trace result fst snd caught]. rewrite <- app_comm_cons.
    apply Hcut. by repeat constructor. }
  destruct (decide (xmlText = EmptyString)) as [->|Hne].
  { rewrite (mainBody_empty w cfg penv fuel t0) by done.
    cbn [trace result fst snd caught]. rewrite <- app_comm_cons.
    apply Hcut. by repeat constructor. }
  destruct (decide (matchAll listingRegex xmlText = [])) as [Hnone|Hrec].
  { rewrite (mainBody_no_records w cfg penv fuel t0 xmlText) by done.
    cbn [trace result fst snd caught]. rewrite app_nil_r.
    apply Hcut. by repeat constructor. }
  rewrite (mainBody_loaded w cfg penv fuel t0 xmlText) by done. cbv zeta.
  set (records := matchAll listingRegex xmlText).
  set (sections := sectionsOf xmlText records).
  pose proof (batchLoop_no_download w cfg penv records sections.1 sections.2
                fuel 0 1) as Hloop.
  assert (Forall (fun e => downloadOf e = None)
            (trace (wrapperSections xmlText records))) as Hw.
  { unfold wrapperSections. destruct (_ && _); by repeat constructor. }
  assert (Forall (fun e => downloadOf e = None) (trace (prepareDir w cfg))) as Hd.
  { unfold prepareDir, orThrow, call. destruct (dirExists _ _); [by constructor|].
    destruct (mkdirError _ _); by repeat constructor. }
  assert (forall r : JsError + LoopState,
            Forall (fun e => downloadOf e = None) (afterLoop r).1) as Hafter
    by (intros [?|[]]; by repeat constructor).
  assert (forall r : JsError + Ending,
            Forall (fun e => downloadOf e = None) (caught r).1) as Hcaught
    by (intros [?|?]; by repeat constructor).
  destruct (result (prepareDir w cfg)) as [err|[]]; cbn [trace result fst snd];
    repeat (rewrite <- app_comm_cons || rewrite <- app_assoc);
    apply Hcut;
    repeat first
      [ assumption
      | apply Hafter
      | apply Hcaught
      | apply Forall_cons; split; [reflexivity|]
      | apply Forall_app; split ].
Qed.

(** ** Reading a batch again with the record pattern *)

Lemma listingRegex_needs_start (t : string) (len : nat) :
  listingRegex t = Some len -> recordStartAt t = true.
Proof.
  intros Hrx. destruct (listingRegex_shape _ _ Hrx) as (_ & Hs & Hb & _).
  unfold recordStartAt. by rewrite Hs, Hb.
Qed.

Lemma findFirst_None (test : string -> bool) (s : string) :
  findFirst test s = None -> forall q, test (dropStr q s) = false.
Proof.
  induction s as [|c s IH]; simpl; intros H q.
  - destruct (test EmptyString) eqn:Ht; [discriminate|]. by destruct q.
  - destruct (test (String c s)) eqn:Ht; [discriminate|].
    destruct (findFirst test s) eqn:Hf; [discriminate|].
    destruct q as [|q]; [done|]. by apply IH.
Qed.

Lemma no_start_no_match (s : string) (q : nat) :
  hasRecordStart s = false -> listingRegex (dropStr q s) = None.
Proof.
  unfold hasRecordStart. intros H.
  destruct (findFirst recordStartAt s) eqn:Hf; [discriminate|].
  pose proof (findFirst_None _ _ Hf q) as Hq.
  destruct (listingRegex (dropStr q s)) as [len|] eqn:Hrx; [|reflexivity].
  by rewrite (listingRegex_needs_start _ _ Hrx) in Hq.
Qed.

Lemma startsWithCI_through (pattern u : string) (c : ascii) (rest : string) :
  (String.length u < String.length pattern)%nat ->
  startsWithCI pattern (u +:+ String c rest) = true ->
  mentionsCI c pattern = true.
Proof.
  revert u. induction pattern as [|a pattern IH]; intros u Hlen H;
    [simpl in Hlen; lia|].
  destruct u as [|b u].
  - change (EmptyString +:+ String c rest) with (String c rest) in H.
    simpl in H. apply andb_true_iff in H as [H _]. simpl. by rewrite H.
  - change (String b u +:+ String c rest) with (String b (u +:+ String c rest)) in H.
    simpl in H. apply andb_true_iff in H as [_ H].
    simpl. rewrite (IH u); [by rewrite orb_true_r|simpl in Hlen; lia|done].
Qed.

(** A record cannot start in a text that is followed by a line feed
    unless it can start in the text alone. *)
Lemma recordStartAt_before_line_feed (u rest : string) :
  recordStartAt (u +:+ nl +:+ rest) = true -> recordStartAt u = true.
Proof.
  unfold recordStartAt. intros H. apply andb_true_iff in H as [Hs Hb].
  destruct (Nat.lt_ge_cases (String.length u) 8) as [Hshort|Hlong].
  - apply (startsWithCI_through "<Listing" u) in Hs; [|exact Hshort].
    by vm_compute in Hs.
  - rewrite (startsWithCI_local "<Listing" u) in Hs by exact Hlong.
    rewrite Hs. cbn [andb].
    rewrite dropStr_append_inside in Hb by exact Hlong.
    destruct (dropStr 8 u) as [|c v] eqn:Hd; [reflexivity|].
    by rewrite boundaryAfterWord_local in Hb.
Qed.

Lemma execAll_skip_prefix (rx : Pattern) (pre s : string) (pos : nat) :
  (forall q, (q < String.length pre)%nat -> rx (dropStr q (pre +:+ s)) = None) ->
  execAll rx (pre +:+ s) pos 0 = execAll rx s (pos + String.length pre) 0.
Proof.
  revert pos. induction pre as [|c pre IH]; intros pos Hnone.
  - change (EmptyString +:+ s) with s. simpl. by rewrite Nat.add_0_r.
  - change (String c pre +:+ s) with (String c (pre +:+ s)) in *.
    pose proof (Hnone 0%nat ltac:(simpl; lia)) as H0. simpl in H0.
    simpl execAll. rewrite H0, IH.
    + f_equal. simpl. lia.
    + intros q Hq. apply (Hnone (S q)). simpl. lia.
Qed.

Lemma execAll_skip (rx : Pattern) (a s : string) (pos : nat) :
  execAll rx (a +:+ s) pos (String.length a)
  = execAll rx s (pos + String.length a) 0.
Proof.
  revert pos. induction a as [|c a IH]; intros pos.
  - change (EmptyString +:+ s) with s. simpl. by rewrite Nat.add_0_r.
  - change (String c a +:+ s) with (String c (a +:+ s)).
    simpl. rewrite IH. f_equal. lia.
Qed.

Lemma execAll_record (r rest : string) (pos : nat) :
  listingRegex r = Some (String.length r) ->
  execAll listingRegex (r +:+ rest) pos 0
  = (pos, r) :: execAll listingRegex rest (pos + String.length r) 0.
Proof.
  intros Hr.
  assert (listingRegex (r +:+ rest) = Some (String.length r)) as Hrx.
  { apply (listingRegex_again _ _ _ Hr).
    rewrite takeStr_all by done.
    rewrite <- (takeStr_append r rest) at 1. apply startsWith_takeStr. }
  destruct r as [|c r]; [by vm_compute in Hr|].
  change (String c r +:+ rest) with (String c (r +:+ rest)) in *.
  simpl execAll. rewrite Hrx. f_equal.
  - f_equal. change (String c (takeStr (String.length r) (r +:+ rest)) = String c r).
    by rewrite takeStr_append.
  - simpl Nat.pred. rewrite execAll_skip. f_equal. simpl. lia.
Qed.

Lemma no_match_at_line_feed (rest : string) :
  listingRegex (nl +:+ rest) = None.
Proof.
  destruct (listingRegex (nl +:+ rest)) as [len|] eqn:Hrx; [|reflexivity].
  apply listingRegex_needs_start in Hrx.
  apply (recordStartAt_before_line_feed EmptyString rest) in Hrx.
  by vm_compute in Hrx.
Qed.

Lemma execAll_line_feed (rest : string) (pos : nat) :
  execAll listingRegex (nl +:+ rest) pos 0 = execAll listingRegex rest (S pos) 0.
Proof.
  rewrite execAll_skip_prefix.
  - f_equal. change (String.length nl) with 1%nat. lia.
  - intros q Hq. change (String.length nl) with 1%nat in Hq.
    replace q with 0%nat by lia. apply no_match_at_line_feed.
Qed.

Lemma execAll_none (rx : Pattern) (s : string) (pos : nat) :
  (forall q, rx (dropStr q s) = None) -> execAll rx s pos 0 = [].
Proof.
  intros Hnone. rewrite <- (append_nil_r s), execAll_skip_prefix; [reflexivity|].
  intros q _. rewrite append_nil_r. apply Hnone.
Qed.

Lemma execAll_header (headerSection rest : string) (pos : nat) :
  hasRecordStart headerSection = false ->
  execAll listingRegex (headerSection +:+ nl +:+ rest) pos 0
  = execAll listingRegex rest (S (pos + String.length headerSection)) 0.
Proof.
  intros Hclean. rewrite execAll_skip_prefix; [apply execAll_line_feed|].
  intros q Hq. rewrite dropStr_append_inside by lia.
  destruct (listingRegex (dropStr q headerSection +:+ nl +:+ rest))
    as [len|] eqn:Hrx; [|reflexivity].
  apply listingRegex_needs_start, recordStartAt_before_line_feed in Hrx.
  unfold hasRecordStart in Hclean.
  destruct (findFirst recordStartAt headerSection) eqn:Hf; [discriminate|].
  by rewrite (findFirst_None _ _ Hf q) in Hrx.
Qed.

(** The records joined by line feeds are found again one by one. *)
Lemma execAll_joined (rs : list string) (rest : string) (pos : nat) :
  Forall (fun r => listingRegex r = Some (String.length r)) rs ->
  (execAll listingRegex (join nl rs +:+ rest) pos 0).*2
  = rs ++ (execAll listingRegex rest
             (pos + String.length (join nl rs)) 0).*2.
Proof.
  intros Hall. revert pos.
  induction Hall as [|r rs Hr Hall IH]; intros pos.
  - change (join nl [] +:+ rest) with rest. simpl. by rewrite Nat.add_0_r.
  - destruct rs as [|r' rs].
    + change (join nl [r]) with r. rewrite (execAll_record _ _ _ Hr).
      by rewrite fmap_cons.
    + change (join nl (r :: r' :: rs)) with (r +:+ nl +:+ join nl (r' :: rs)).
      rewrite !append_assoc, (execAll_record _ _ _ Hr), fmap_cons.
      rewrite execAll_line_feed, IH.
      rewrite !length_append. change (String.length nl) with 1%nat.
      cbn [snd].
      replace (S (pos + String.length r) + String.length (join nl (r' :: rs)))%nat
        with (pos + (String.length r + (1 + String.length (join nl (r' :: rs)))))%nat
        by lia.
      reflexivity.
Qed.

Lemma matched_whole (xmlText r : string) :
  r ∈ matchAll listingRegex xmlText ->
  listingRegex r = Some (String.length r).
Proof.
  unfold matchAll. intros Hin.
  apply list_elem_of_fmap in Hin as ([p m] & -> & Hin). cbn [snd].
  destruct (execAll_elem _ _ _ _ _ _ Hin) as (q & len & _ & _ & Hrx & Hm).
  destruct (listingRegex_shape _ _ Hrx) as ((_ & Hfit) & _).
  assert (String.length m = len) as Hlen
    by (rewrite Hm, takeStr_length; lia).
  rewrite Hlen. apply (listingRegex_again _ _ _ Hrx).
  rewrite <- Hm. apply startsWith_refl.
Qed.

Lemma arraySlice_subseteq {A} (a : list A) (i j : Z) : arraySlice a i j ⊆ a.
Proof.
  unfold arraySlice. etransitivity; [apply subseteq_take|apply subseteq_drop].
Qed.

(** X15. A batch can be read again with the record pattern.  When the
    header and the footer hold no place where a record tag opens, the
    pattern of line 57 finds in the text of a batch (line 110) exactly the
    records the batch was built from, in their order; this holds for any
    records that the pattern matched in a feed, and so for every group of
    the records of a feed, whatever the batch size. *)
Theorem batch_read_again (xmlText headerSection footerSection : string) :
  hasRecordStart headerSection = false ->
  hasRecordStart footerSection = false ->
  (forall rs, rs ⊆ matchAll listingRegex xmlText ->
     matchAll listingRegex (batchXmlOf headerSection footerSection rs) = rs)
  /\ forall B g,
       matchAll listingRegex
         (batchXmlOf headerSection footerSection
            (groupAt B (matchAll listingRegex xmlText) g))
       = groupAt B (matchAll listingRegex xmlText) g.
Proof.
  intros Hh Hf.
  assert (forall rs, rs ⊆ matchAll listingRegex xmlText ->
     matchAll listingRegex (batchXmlOf headerSection footerSection rs) = rs)
    as Hread.
  { intros rs Hsub. unfold matchAll at 1, batchXmlOf.
    rewrite (execAll_header _ _ _ Hh), execAll_joined.
    - rewrite execAll_line_feed, execAll_none; [by rewrite app_nil_r|].
      intros q. by apply no_start_no_match.
    - apply Forall_forall. intros r Hr. apply (matched_whole xmlText), Hsub, Hr. }
  split; [exact Hread|].
  intros B g. apply Hread, arraySlice_subseteq.
Qed.

Lemma batch_read_again_witness :
  hasRecordStart "<Listings ver='1'>" = false
  /\ hasRecordStart "</Listings>" = false
  /\ matchAll listingRegex
       (batchXmlOf "<Listings ver='1'>" "</Listings>"
          (groupAt 2 (matchAll listingRegex demoFeed) 1))
     = ["<Listing>C</Listing>"].
Proof.
  split; [by vm_compute|]. split; [by vm_compute|].
  etransitivity;
    [apply (batch_read_again demoFeed "<Listings ver='1'>" "</Listings>");
       by vm_compute|].
  by vm_compute.
Defined.

(** ** The directory of the batches *)

Lemma mkdirs_app (a b : list Event) : mkdirs (a ++ b) = mkdirs a ++ mkdirs b.
Proof. apply omap_app. Qed.

Lemma mkdirs_cons (e : Event) (t : list Event) :
  mkdirs (e :: t) = mkdirs [e] ++ mkdirs t.
Proof. apply (mkdirs_app [e] t). Qed.

Lemma mkdirs_none (t : list Event) :
  Forall (fun e => mkdirOf e = None) t -> mkdirs t = [].
Proof.
  intros Ht. induction Ht as [|e t He _ IH]; [reflexivity|].
  rewrite mkdirs_cons, IH, app_nil_r. unfold mkdirs.
  change (omap mkdirOf [e])
    with (match mkdirOf e with Some y => [y] | None => [] end).
  by rewrite He.
Qed.

Section NoMkdir.

Variable w : World.
Variable cfg : Config.
Variable penv : gmap string string.

Let quiet (e : Event) : Prop := mkdirOf e = None.

Ltac quietly :=
  repeat first
    [ apply traced_ret
    | apply traced_throw
    | apply traced_emit; reflexivity
    | apply traced_call; reflexivity
    | apply traced_bind; [|intros ?]
    | apply traced_tryCatch; [|intros ?] ].

Lemma batchLoop_no_mkdir (records : list string)
    (headerSection footerSection : string) (fuel : nat) (i loteIndex : Z) :
  Forall quiet (trace (batchLoop w cfg penv records headerSection footerSection
                         fuel i loteIndex)).
Proof.
  revert i loteIndex. induction fuel as [|fuel IH]; intros i loteIndex.
  - apply traced_ret.
  - simpl batchLoop. destruct (_ <? _); [|apply traced_ret].
    apply traced_bind; [|intros _; apply IH].
    unfold iteration, processBatch, orThrow, askQuestion. quietly.
    destruct (confirmed _); unfold send; quietly.
Qed.

Lemma fetchXmlText_no_mkdir (urlOrPath : option string) :
  Forall quiet (trace (fetchXmlText w penv urlOrPath)).
Proof.
  unfold fetchXmlText, call.
  destruct (readFile w urlOrPath) as [[err|text]|]; try by constructor.
  destruct (httpGet w urlOrPath); by repeat constructor.
Qed.

End NoMkdir.

(** X16. The directory of the batches is made when it is missing and
    there is something to write. In every world and for every fuel, a run
    asks for a directory to be made at most once, and then for the one of
    the batches; it does so exactly when the feed was loaded with a record
    in it and the directory is not there. *)
Theorem directory_made_when_missing (w : World) (cfg : Config)
    (penv : gmap string string) (fuel : nat) :
  mkdirs (trace (main w cfg penv fuel))
  = if bool_decide (recordsFetched w cfg penv = 0%nat)
       || dirExists w (OUTPUT_DIR cfg)
    then [] else [OUTPUT_DIR cfg].
Proof.
  assert (forall t0 tail,
            Forall (fun e => mkdirOf e = None) t0 ->
            Forall (fun e => mkdirOf e = None) tail ->
            mkdirs (ConsoleLog (MsgObtaining (XML_URL cfg)) :: t0 ++ tail) = [])
    as Hcut.
  { intros t0 tail Ht0 Htail.
    rewrite mkdirs_cons, mkdirs_app, (mkdirs_none t0), (mkdirs_none tail); done. }
  pose proof (fetchXmlText_no_mkdir w penv (XML_URL cfg)) as Hfetched.
  unfold recordsFetched. rewrite main_caught.
  destruct (fetchXmlText w penv (XML_URL cfg)) as [t0 [err|xmlText]] eqn:Hfetch;
    cbn [trace result fst snd] in *.
  { rewrite (mainBody_unloaded w cfg penv fuel t0 err) by done.
    cbn [trace result fst snd caught]. rewrite <- app_comm_cons.
    rewrite Hcut; [done|done|by repeat constructor]. }
  destruct (decide (xmlText = EmptyString)) as [->|Hne].
  { rewrite (mainBody_empty w cfg penv fuel t0) by done.
    cbn [trace result fst snd caught]. rewrite <- app_comm_cons.
    rewrite Hcut; [done|done|by repeat constructor]. }
  destruct (decide (matchAll listingRegex xmlText = [])) as [Hnone|Hrec].
  { rewrite (mainBody_no_records w cfg penv fuel t0 xmlText) by done.
    cbn [trace result fst snd caught]. rewrite app_nil_r.
    rewrite Hnone. rewrite Hcut; [done|done|by repeat constructor]. }
  rewrite (mainBody_loaded w cfg penv fuel t0 xmlText) by done. cbv zeta.
  set (records := matchAll listingRegex xmlText) in *.
  set (sections := sectionsOf xmlText records).
  rewrite bool_decide_eq_false_2 by (destruct records; [done|discriminate]).
  cbn [orb].
  pose proof (batchLoop_no_mkdir w cfg penv records sections.1 sections.2
                fuel 0 1) as Hloop.
  assert (Forall (fun e => mkdirOf e = None)
            (trace (wrapperSections xmlText records))) as Hw.
  { unfold wrapperSections. destruct (_ && _); by repeat constructor. }
  assert (forall r : JsError + LoopState,
            Forall (fun e => mkdirOf e = None) (afterLoop r).1) as Hafter
    by (intros [?|[]]; by repeat constructor).
  assert (forall r : JsError + Ending,
            Forall (fun e => mkdirOf e = None) (caught r).1) as Hcaught
    by (intros [?|?]; by repeat constructor).
  assert (mkdirs (trace (prepareDir w cfg))
          = if dirExists w (OUTPUT_DIR cfg) then [] else [OUTPUT_DIR cfg]) as Hd.
  { unfold prepareDir, orThrow, call. destruct (dirExists _ _); [reflexivity|].
    by destruct (mkdirError _ _). }
  destruct (result (prepareDir w cfg)) as [err|[]]; cbn [trace result fst snd];
    repeat (rewrite mkdirs_app || rewrite (mkdirs_cons _ (_ ++ _))
            || rewrite (mkdirs_cons _ (trace _)));
    rewrite Hd, (mkdirs_none t0 Hfetched), (mkdirs_none _ Hw),
      ?(mkdirs_none _ Hloop), ?(mkdirs_none _ (Hafter _)),
      ?(mkdirs_none _ (Hcaught _));
    cbn; by rewrite ?app_nil_r.
Qed.

(** X17. A directory that cannot be made ends the run. When the feed was
    loaded with a record in it, the directory of the batches is missing and
    making it fails, the run ends in the handler of fatal errors with that
    error: its events are those of the setup, the failed call, and the two
    reports of the error; no interface is opened, no file is written,
    nothing is asked and nothing is submitted. *)
Theorem directory_failure_is_fatal (w : World) (cfg : Config)
    (penv : gmap string string) (fuel : nat) (err : JsError) :
  (0 < recordsFetched w cfg penv)%nat ->
  dirExists w (OUTPUT_DIR cfg) = false ->
  mkdirError w (OUTPUT_DIR cfg) = Some err ->
  let run := main w cfg penv fuel in
  result run = inr (Fatal err)
  /\ (exists before,
        trace run = before ++ [MkdirSync (OUTPUT_DIR cfg);
                               ConsoleError (MsgFatal (fatalDetail err));
                               ConsoleError (MsgStack (stack err))]
        /\ Forall (fun e => isSetup e = true) before)
  /\ (CreateInterface ∉ trace run)
  /\ filesWritten (trace run) = []
  /\ prompts (trace run) = []
  /\ submissions (trace run) = [].
Proof.
  intros Hrec Hdir Hmk. cbv zeta.
  unfold recordsFetched in Hrec.
  pose proof (fetchXmlText_setup w penv (XML_URL cfg)) as Hsetup.
  destruct (fetchXmlText w penv (XML_URL cfg)) as [t0 [e|xmlText]] eqn:Hfetch;
    cbn [trace result fst snd] in *; [lia|].
  assert (xmlText <> EmptyString) as Hne by (intros ->; vm_compute in Hrec; lia).
  assert (matchAll listingRegex xmlText <> []) as Hsome
    by (intros Hnil; rewrite Hnil in Hrec; simpl in Hrec; lia).
  set (records := matchAll listingRegex xmlText) in *.
  set (before := ConsoleLog (MsgObtaining (XML_URL cfg)) :: t0 ++
                 ConsoleLog (MsgFound (Z.of_nat (length records))) ::
                 trace (wrapperSections xmlText records)).
  assert (Forall (fun e => isSetup e = true) before) as Hbefore.
  { apply Forall_cons; split; [done|]. apply Forall_app; split; [done|].
    apply Forall_cons; split; [done|]. apply wrapperSections_setup. }
  assert (main w cfg penv fuel
          = (before ++ [MkdirSync (OUTPUT_DIR cfg);
                        ConsoleError (MsgFatal (fatalDetail err));
                        ConsoleError (MsgStack (stack err))],
             inr (Fatal err))) as ->.
  { rewrite main_caught, (mainBody_loaded w cfg penv fuel t0 xmlText) by done.
    cbv zeta. fold records. unfold prepareDir, orThrow, call.
    rewrite Hdir, Hmk. cbn [trace result fst snd caught mbind mret]. simpl.
    unfold before. f_equal.
    repeat (rewrite <- app_comm_cons || rewrite <- app_assoc). reflexivity. }
  cbn [trace result fst snd].
  split; [reflexivity|]. split; [by exists before|].
  split.
  { intros Hin. apply elem_of_app in Hin as [Hin|Hin].
    - rewrite Forall_forall in Hbefore. by specialize (Hbefore _ Hin).
    - repeat (apply elem_of_cons in Hin as [?|Hin]; [done|]).
      by apply elem_of_nil in Hin. }
  unfold filesWritten, prompts, submissions. rewrite !omap_app.
  rewrite (omap_unseen fileOf before), (omap_unseen promptOf before),
    (omap_unseen submissionOf before);
    auto using setup_unseen_files, setup_unseen_prompts, setup_unseen_submissions.
Qed.

Lemma directory_failure_is_fatal_witness :
  result (main lockedWorld demoConfig ∅ 4) = inr (Fatal (Error "EACCES"))
  /\ filesWritten (trace (main lockedWorld demoConfig ∅ 4)) = [].
Proof.
  destruct (directory_failure_is_fatal lockedWorld demoConfig ∅ 4 (Error "EACCES"))
    as (Hr & _ & _ & Hf & _);
    [vm_compute; lia|reflexivity|reflexivity|by split].
Defined.

(** ** The loop is bounded by the records *)

Lemma omap_none {A} (f : Event -> option A) (t : list Event) :
  Forall (fun e => f e = None) t -> omap f t = [].
Proof.
  intros Ht. induction Ht as [|e t He _ IH]; [reflexivity|].
  change (omap f (e :: t))
    with (match f e with Some y => y :: omap f t | None => omap f t end).
  by rewrite He.
Qed.

Lemma seesBatchesOnly_setup {A} (f : Event -> option A) (t : list Event) :
  seesBatchesOnly f ->
  Forall (fun e => isSetup e = true) t -> Forall (fun e => f e = None) t.
Proof. intros (Hsetup & _) Ht. by eapply Forall_impl. Qed.

Lemma seesBatchesOnly_afterLoop {A} (f : Event -> option A)
    (r : JsError + LoopState) :
  seesBatchesOnly f -> Forall (fun e => f e = None) (afterLoop r).1.
Proof.
  intros (_ & _ & Hclose & _ & Hlog). destruct r as [?|[]]; by repeat constructor.
Qed.

Lemma seesBatchesOnly_caught {A} (f : Event -> option A) (r : JsError + Ending) :
  seesBatchesOnly f -> Forall (fun e => f e = None) (caught r).1.
Proof.
  intros (_ & _ & _ & Herror & _). destruct r as [?|?]; by repeat constructor.
Qed.

(** What a reading of the batches shows of any run: nothing, or what it
    shows of the loop on the records of the feed. *)
Lemma main_observed_any (w : World) (cfg : Config) (penv : gmap string string)
    (fuel : nat) :
  (forall A (f : Event -> option A), seesBatchesOnly f ->
     omap f (trace (main w cfg penv fuel)) = [])
  \/ exists t0 xmlText,
       fetchXmlText w penv (XML_URL cfg) = (t0, inr xmlText)
       /\ forall A (f : Event -> option A), seesBatchesOnly f ->
            let records := matchAll listingRegex xmlText in
            let sections := sectionsOf xmlText records in
            omap f (trace (main w cfg penv fuel))
            = omap f (trace (batchLoop w cfg penv records sections.1 sections.2
                               fuel 0 1)).
Proof.
  pose proof (fetchXmlText_setup w penv (XML_URL cfg)) as Hfetched.
  destruct (fetchXmlText w penv (XML_URL cfg)) as [t0 [err|xmlText]] eqn:Hfetch;
    cbn [trace fst] in Hfetched.
  { left. intros A f Hf.
    rewrite main_caught, (mainBody_unloaded w cfg penv fuel t0 err) by done.
    cbn [trace result fst snd]. apply omap_none.
    apply Forall_app; split; [|by apply seesBatchesOnly_caught].
    apply Forall_cons; split; [apply Hf|by apply seesBatchesOnly_setup]. }
  destruct (decide (xmlText = EmptyString)) as [->|Hne].
  { left. intros A f Hf.
    rewrite main_caught, (mainBody_empty w cfg penv fuel t0) by done.
    cbn [trace result fst snd]. apply omap_none.
    apply Forall_app; split; [|by apply seesBatchesOnly_caught].
    apply Forall_cons; split; [apply Hf|by apply seesBatchesOnly_setup]. }
  destruct (decide (matchAll listingRegex xmlText = [])) as [Hnone|Hrec].
  { left. intros A f Hf.
    rewrite main_caught, (mainBody_no_records w cfg penv fuel t0 xmlText)
      by done.
    cbn [trace result fst snd]. apply omap_none.
    apply Forall_app; split; [|by apply seesBatchesOnly_caught].
    apply Forall_cons; split; [apply Hf|].
    apply Forall_app; split; [by apply seesBatchesOnly_setup|].
    apply Forall_cons; split; [apply Hf|].
    apply Forall_cons; split; [apply Hf|constructor]. }
  destruct (result (prepareDir w cfg)) as [err|[]] eqn:Hdir.
  { left. intros A f Hf.
    rewrite main_caught, (mainBody_loaded w cfg penv fuel t0 xmlText) by done.
    cbv zeta. rewrite Hdir. cbn [trace result fst snd]. apply omap_none.
    apply Forall_app; split; [|by apply seesBatchesOnly_caught].
    apply Forall_cons; split; [apply Hf|].
    apply Forall_app; split; [by apply seesBatchesOnly_setup|].
    apply Forall_cons; split; [apply Hf|].
    apply Forall_app; split; apply seesBatchesOnly_setup;
      auto using wrapperSections_setup, prepareDir_setup. }
  right. exists t0, xmlText. split; [reflexivity|]. intros A f Hf. cbv zeta.
  destruct (main_observed f w cfg penv fuel t0 xmlText) as [-> _];
    try done; try apply Hf.
  by rewrite (omap_none f _ (seesBatchesOnly_afterLoop f _ Hf)),
    (omap_none f _ (seesBatchesOnly_caught f _ Hf)), !app_nil_r.
Qed.

Lemma length_concat_le {A B} (f : A -> list B) (xs : list A) :
  (forall x, (length (f x) <= 1)%nat) ->
  (length (concat (f <$> xs)) <= length xs)%nat.
Proof.
  intros Hone. induction xs as [|x xs IH]; [reflexivity|].
  rewrite fmap_cons, concat_cons, length_app. specialize (Hone x). simpl. lia.
Qed.

Lemma processBatch_prompts_le (w : World) (cfg : Config)
    (penv : gmap string string) (headerSection footerSection : string)
    (batchMatches : list string) (i loteIndex : Z) :
  (length (prompts (trace (processBatch w cfg penv headerSection footerSection
                             batchMatches i loteIndex))) <= 1)%nat.
Proof.
  destruct (writeError w (fileNameOf (OUTPUT_DIR cfg) loteIndex)
              (batchXmlOf headerSection footerSection batchMatches))
    as [err|] eqn:Hw.
  - rewrite (processBatch_refused _ _ _ _ _ _ _ _ err Hw). simpl. lia.
  - by rewrite processBatch_done_prompts.
Qed.

(** In every world the loop tries one write for each group at most, and
    asks after a write only. *)
Lemma batchLoop_bounded (w : World) (cfg : Config) (penv : gmap string string)
    (records : list string) (headerSection footerSection : string) (fuel : nat) :
  0 < BATCH_SIZE cfg ->
  (length records < fuel)%nat ->
  let loop := batchLoop w cfg penv records headerSection footerSection fuel 0 1 in
  (length (filesWritten (trace loop)) <= groupCount (BATCH_SIZE cfg) records)%nat
  /\ (length (prompts (trace loop)) <= length (filesWritten (trace loop)))%nat.
Proof.
  intros HB Hfuel. cbv zeta. rewrite batchLoop_ended by done.
  cbv zeta. cbn [trace fst].
  destruct (forEach_prefix (seq 0 (groupCount (BATCH_SIZE cfg) records))
              (batchStep w cfg penv records headerSection footerSection))
    as [k Hk].
  rewrite Hk. unfold filesWritten, prompts.
  rewrite !omap_concat_fmap.
  rewrite (length_concat_ones
             (fun g => omap fileOf
                         (trace (batchStep w cfg penv records headerSection
                                   footerSection g))))
    by (intros g _; unfold batchStep; fold (filesWritten
          (trace (processBatch w cfg penv headerSection footerSection
                    (groupAt (BATCH_SIZE cfg) records g)
                    (Z.of_nat g * BATCH_SIZE cfg) (Z.of_nat g + 1))));
        by rewrite (processBatch_files_always w cfg penv)).
  split.
  - rewrite length_take, length_seq. lia.
  - apply length_concat_le. intros g. apply processBatch_prompts_le.
Qed.

(** X1. The loop is bounded by the records. The world of the model answers
    every prompt and every request: a prompt that is never answered and a
    request that never settles are outside of it. In every such world,
    with fuel for every record of the feed that the world delivers, the
    run does not depend on the fuel and is not left inside the loop, and
    no error leaves [main]; of the N records fetched the loop tries to
    write ceil(N/130) files at most, and it asks at most once for each
    write. *)
Theorem loop_bounded_by_records (w : World) (fuel fuel' : nat) :
  let n := recordsFetched w (loadConfig w) (setTlsOff (env w)) in
  (n < fuel)%nat ->
  (n < fuel')%nat ->
  script w fuel = script w fuel'
  /\ result (script w fuel) <> inr StillRunning
  /\ (exists ending, result (script w fuel) = inr ending)
  /\ Z.of_nat (length (filesWritten (trace (script w fuel))))
     <= (Z.of_nat n + 129) / 130
  /\ (length (prompts (trace (script w fuel)))
      <= length (filesWritten (trace (script w fuel))))%nat.
Proof.
  cbv zeta. intros Hfuel Hfuel'. unfold script.
  set (cfg := loadConfig w) in *. set (penv := setTlsOff (env w)) in *.
  assert (BATCH_SIZE cfg = 130) as HB by apply loadConfig_batch_size.
  destruct (mainBody_fuel w cfg penv fuel fuel') as [Heq Hrun];
    [lia|done|done|].
  split; [by rewrite !main_caught, <- Heq|].
  split; [rewrite main_caught; destruct (mainBody _ _ _ fuel) as [t [err|ending]];
          unfold result in *; simpl in *; congruence|].
  split; [rewrite main_caught; destruct (mainBody _ _ _ fuel) as [t [err|ending]];
          unfold result; simpl; by eexists|].
  assert (0 <= (Z.of_nat (recordsFetched w cfg penv) + 129) / 130) as Hpos
    by (apply Z.div_pos; lia).
  assert (seesBatchesOnly fileOf) as Hfile
    by (repeat split; try done; by intros [[]| | | | | | | | |]).
  assert (seesBatchesOnly promptOf) as Hprompt
    by (repeat split; try done; by intros [[]| | | | | | | | |]).
  unfold filesWritten, prompts.
  destruct (main_observed_any w cfg penv fuel)
    as [Hnil|(t0 & xmlText & Hfetch & Hobs)].
  { rewrite (Hnil _ fileOf Hfile), (Hnil _ promptOf Hprompt). simpl. lia. }
  rewrite (Hobs _ fileOf Hfile), (Hobs _ promptOf Hprompt). cbv zeta.
  unfold recordsFetched in Hfuel, Hpos |- *.
  rewrite Hfetch in Hfuel, Hpos |- *. cbn [result snd] in Hfuel, Hpos |- *.
  set (records := matchAll listingRegex xmlText) in *.
  destruct (batchLoop_bounded w cfg penv records (sectionsOf xmlText records).1
              (sectionsOf xmlText records).2 fuel) as [Hcount Hasked];
    [lia|done|].
  split; [|exact Hasked].
  unfold groupCount in Hcount. rewrite HB in Hcount.
  replace (Z.of_nat (length records) + 130 - 1)
    with (Z.of_nat (length records) + 129) in Hcount by lia.
  unfold filesWritten in Hcount. lia.
Qed.

Lemma loop_bounded_by_records_witness :
  script demoWorld 4 = script demoWorld 9
  /\ (length (filesWritten (trace (script demoWorld 4))) <= 1)%nat.
Proof.
  destruct (loop_bounded_by_records demoWorld 4 9) as (Heq & _ & _ & Hcount & _);
    [vm_compute; lia|vm_compute; lia|].
  split; [exact Heq|].
  replace (recordsFetched demoWorld (loadConfig demoWorld)
             (setTlsOff (env demoWorld))) with 3%nat in Hcount by reflexivity.
  change ((Z.of_nat 3 + 129) / 130) with 1 in Hcount. lia.
Defined.

(** ** The batch size of a run *)






